(** * api_docs_generator: a shallow embedding and its verified properties

    The development follows [api_docs_generator.py]: Python strings are
    [string], Python integers are [Z], insertion-ordered dictionaries are
    association lists, regular expressions are abstract syntax trees run by a
    backtracking matcher with the priorities of Python's [re] module, and
    the file system is an explicit map from paths to contents.

    The model is exact on ASCII text.  Characters above 127 are treated as
    neither word characters nor white space.

    Recursion that the source leaves unbounded, or bounds by a counter of
    its own, takes a [fuel] argument here and yields [None] when the fuel
    runs out; the properties say which fuel is enough.  An exception of the
    source is [None] as well.  The warnings that the source prints and the
    recursion limit of the interpreter are not modelled. *)

From Stdlib Require Import String Ascii ZArith List Lia Bool Arith.
From Stdlib Require Import Sorting.Sorted Sorting.Permutation.
From Stdlib Require Import Numbers.DecimalString.
Import ListNotations.

Open Scope list_scope.
Open Scope string_scope.
Open Scope nat_scope.

(** ** Python strings *)

Definition newline : ascii := "010"%char.

Fixpoint str_drop (n : nat) (s : string) : string :=
  match n, s with
  | O, _ => s
  | S n', String _ s' => str_drop n' s'
  | S _, EmptyString => EmptyString
  end.

(** [s[start:]] for an integer [start]; a negative start counts from the
    end and is clipped at the first character. *)
Definition py_slice_from (s : string) (start : Z) : string :=
  let len := Z.of_nat (String.length s) in
  if (start <? 0)%Z
  then str_drop (Z.to_nat (Z.max 0 (len + start))) s
  else str_drop (Z.to_nat start) s.

(** [s[a:b]] for natural numbers [a], [b]. *)
Definition py_slice (s : string) (a b : nat) : string :=
  substring a (b - a) s.

Definition is_upper (c : ascii) : bool :=
  let n := nat_of_ascii c in (65 <=? n) && (n <=? 90).

Definition is_lower (c : ascii) : bool :=
  let n := nat_of_ascii c in (97 <=? n) && (n <=? 122).

Definition is_digit (c : ascii) : bool :=
  let n := nat_of_ascii c in (48 <=? n) && (n <=? 57).

Definition lower_char (c : ascii) : ascii :=
  if is_upper c then ascii_of_nat (nat_of_ascii c + 32) else c.

Definition upper_char (c : ascii) : ascii :=
  if is_lower c then ascii_of_nat (nat_of_ascii c - 32) else c.

Fixpoint str_map (f : ascii -> ascii) (s : string) : string :=
  match s with
  | EmptyString => EmptyString
  | String c s' => String (f c) (str_map f s')
  end.

(** [s.lower()] and [s.upper()], on the letters of ASCII. *)
Definition lower (s : string) : string := str_map lower_char s.
Definition upper (s : string) : string := str_map upper_char s.

(** [s.startswith(p)] *)
Definition startswith (s p : string) : bool := prefix p s.

(** [s.endswith(p)] *)
Definition endswith (s p : string) : bool :=
  (String.length p <=? String.length s)
  && String.eqb (str_drop (String.length s - String.length p) s) p.

(** [needle in hay] *)
Fixpoint str_contains (needle hay : string) : bool :=
  prefix needle hay
  || match hay with
     | EmptyString => false
     | String _ hay' => str_contains needle hay'
     end.

(** [s.split(sep)] for a one-character separator: never an empty list. *)
Fixpoint split_on (sep : ascii) (s : string) : list string :=
  match s with
  | EmptyString => [""]
  | String c s' =>
      if Ascii.eqb c sep then "" :: split_on sep s'
      else match split_on sep s' with
           | h :: t => String c h :: t
           | [] => [String c ""]
           end
  end.

(** [s.split('.')[-1]] *)
Definition last_dot_part (s : string) : string := last (split_on "." s) "".

(** [sep.join(parts)] *)
Fixpoint join (sep : string) (parts : list string) : string :=
  match parts with
  | [] => ""
  | [p] => p
  | p :: rest => p ++ sep ++ join sep rest
  end.

(** [s.strip()] on the ASCII white space of [str.isspace]. *)
Definition is_space (c : ascii) : bool :=
  let n := nat_of_ascii c in
  ((9 <=? n) && (n <=? 13)) || ((28 <=? n) && (n <=? 32)).

Fixpoint lstrip (s : string) : string :=
  match s with
  | String c s' => if is_space c then lstrip s' else s
  | EmptyString => EmptyString
  end.

Fixpoint rstrip (s : string) : string :=
  match s with
  | EmptyString => EmptyString
  | String c s' =>
      match rstrip s' with
      | EmptyString => if is_space c then EmptyString else String c EmptyString
      | r => String c r
      end
  end.

Definition strip (s : string) : string := rstrip (lstrip s).

(** [s.replace(old, new)] for a one-character [old]. *)
Fixpoint replace_char (old : ascii) (new : string) (s : string) : string :=
  match s with
  | EmptyString => EmptyString
  | String c s' =>
      (if Ascii.eqb c old then new else String c EmptyString)
      ++ replace_char old new s'
  end.

(** [str(n)] and [int(s)] for decimal integers.  [int] is applied to the
    digits that a pattern captured; CPython refuses a text of more digits
    than its conversion limit (4300 by default), which is not modelled. *)
Definition str_of_Z (n : Z) : string :=
  NilEmpty.string_of_int (Z.to_int n).

Definition int_of_digits (s : string) : Z :=
  match NilEmpty.uint_of_string s with
  | Some u => Z.of_uint u
  | None => 0%Z
  end.

(** The double quote character and the one-character string holding it. *)
Definition dquote : ascii := "034"%char.
Definition DQ : string := String dquote EmptyString.

(** [html.escape(s)] with [quote=True]. *)
Definition escape_char (c : ascii) : string :=
  if Ascii.eqb c "&" then "&amp;"
  else if Ascii.eqb c "<" then "&lt;"
  else if Ascii.eqb c ">" then "&gt;"
  else if Ascii.eqb c dquote then "&quot;"
  else if Ascii.eqb c "'" then "&#x27;"
  else String c EmptyString.

Fixpoint html_escape (s : string) : string :=
  match s with
  | EmptyString => EmptyString
  | String c s' => escape_char c ++ html_escape s'
  end.

(** ** Insertion-ordered dictionaries

    A Python [dict] keeps its keys in insertion order and the order is
    observable through iteration, so a dictionary is an association list
    without repeated keys. *)

Section PyDict.
Context {V : Type}.

Definition pydict := list (string * V).

Fixpoint dict_get (k : string) (d : pydict) : option V :=
  match d with
  | [] => None
  | (k', v) :: d' => if String.eqb k k' then Some v else dict_get k d'
  end.

Definition dict_mem (k : string) (d : pydict) : bool :=
  match dict_get k d with Some _ => true | None => false end.

(** [d[k] = v]: an existing key keeps its position. *)
Fixpoint dict_set (k : string) (v : V) (d : pydict) : pydict :=
  match d with
  | [] => [(k, v)]
  | (k', v') :: d' =>
      if String.eqb k k' then (k', v) :: d'
      else (k', v') :: dict_set k v d'
  end.

(** [d.update(q)] *)
Definition dict_update (d q : pydict) : pydict :=
  fold_left (fun acc kv => dict_set (fst kv) (snd kv) acc) q d.

Definition dict_keys (d : pydict) : list string := map fst d.
Definition dict_values (d : pydict) : list V := map snd d.
End PyDict.

Arguments pydict V : clear implicits.

(** Python sets of strings, as lists without order of their own. *)
Definition set_mem (x : string) (s : list string) : bool :=
  existsb (String.eqb x) s.

Definition set_add (x : string) (s : list string) : list string :=
  if set_mem x s then s else x :: s.

(** ** Regular expressions

    The patterns of the source are written as syntax trees and run by a
    backtracking matcher that tries alternatives in the order of Python's
    [re]: the left branch of an alternation first, as many repetitions as
    possible for a greedy quantifier and as few as possible for a lazy one.
    The first complete match in that order is the result. *)

Module Re.

Inductive regex : Type :=
| Eps                                   (* the empty pattern *)
| Lit (c : ascii)                       (* one literal character *)
| Class (p : ascii -> bool)             (* a character class *)
| Cat (a b : regex)                     (* a then b *)
| Alt (a b : regex)                     (* a|b *)
| Star (r : regex)                      (* r*, greedy *)
| LazyStar (r : regex)                  (* r*?, lazy *)
| Group (n : nat) (r : regex)           (* capturing group number n *)
| EndOfLine.                            (* $ under re.MULTILINE *)

Definition Plus (r : regex) : regex := Cat r (Star r).       (* r+ *)
Definition Opt (r : regex) : regex := Alt r Eps.             (* r? *)

Fixpoint Str (s : string) : regex :=                         (* literal text *)
  match s with
  | EmptyString => Eps
  | String c s' => Cat (Lit c) (Str s')
  end.

Fixpoint Seq (rs : list regex) : regex :=
  match rs with
  | [] => Eps
  | [r] => r
  | r :: rs' => Cat r (Seq rs')
  end.

(** Character classes of the source's patterns.  The patterns are [str]
    patterns, whose classes [\s], [\w] and [\d] are those of Unicode; the
    classes below are what they are on ASCII text, which is the text that
    the embedding reads.  A statement on the characters of a captured name
    is made with [is_name_char], which holds of every character beyond
    ASCII. *)
Definition space : regex := Class is_space.                            (* \s *)
Definition is_word (c : ascii) : bool :=
  is_upper c || is_lower c || is_digit c || Ascii.eqb c "_".
Definition word : regex := Class is_word.                              (* \w *)
Definition digit : regex := Class is_digit.                            (* \d *)
Definition any : regex := Class (fun _ => true).              (* . with DOTALL *)
Definition dot : regex :=
  Class (fun c => negb (Ascii.eqb c newline)).                (* . otherwise *)
Definition none_of (c : ascii) : regex :=
  Class (fun x => negb (Ascii.eqb x c)).                               (* [^c] *)

Inductive result (A : Type) : Type :=
| Found (a : A)
| NoMatch
| OutOfFuel.
Arguments Found {A} a.
Arguments NoMatch {A}.
Arguments OutOfFuel {A}.

(** Captured groups, by number. *)
Definition captures := list (nat * string).

Fixpoint group (n : nat) (cs : captures) : option string :=
  match cs with
  | [] => None
  | (m, s) :: cs' => if Nat.eqb n m then Some s else group n cs'
  end.

(** [m.group(n) or ""] *)
Definition group_or_empty (n : nat) (cs : captures) : string :=
  match group n cs with Some s => s | None => "" end.

(** The text consumed between the input [s] and its suffix [s']. *)
Definition consumed (s s' : string) : string :=
  substring 0 (String.length s - String.length s') s.

Section Matcher.
Context {A : Type}.

(** [run fuel r s cs k] matches [r] at the head of [s] and hands the rest
    of the input to the continuation [k]; a repetition spends one unit
    of fuel per round and every round must consume input. *)
Fixpoint run (fuel : nat) : regex -> string -> captures ->
                            (string -> captures -> result A) -> result A :=
  fix go (r : regex) (s : string) (cs : captures)
         (k : string -> captures -> result A) {struct r} : result A :=
    match r with
    | Eps => k s cs
    | Lit c =>
        match s with
        | String c' s' => if Ascii.eqb c c' then k s' cs else NoMatch
        | EmptyString => NoMatch
        end
    | Class p =>
        match s with
        | String c' s' => if p c' then k s' cs else NoMatch
        | EmptyString => NoMatch
        end
    | Cat a b => go a s cs (fun s' cs' => go b s' cs' k)
    | Alt a b =>
        match go a s cs k with
        | NoMatch => go b s cs k
        | other => other
        end
    | Star r' =>
        match fuel with
        | O => OutOfFuel
        | S fuel' =>
            match go r' s cs
                    (fun s' cs' =>
                       if String.length s' <? String.length s
                       then run fuel' (Star r') s' cs' k
                       else NoMatch) with
            | NoMatch => k s cs
            | other => other
            end
        end
    | LazyStar r' =>
        match k s cs with
        | NoMatch =>
            match fuel with
            | O => OutOfFuel
            | S fuel' =>
                go r' s cs
                   (fun s' cs' =>
                      if String.length s' <? String.length s
                      then run fuel' (LazyStar r') s' cs' k
                      else NoMatch)
            end
        | other => other
        end
    | Group n r' =>
        go r' s cs (fun s' cs' => k s' ((n, consumed s s') :: cs'))
    | EndOfLine =>
        match s with
        | EmptyString => k s cs
        | String c _ => if Ascii.eqb c newline then k s cs else NoMatch
        end
    end.
End Matcher.

(** A match object: [m.start()], [m.end()] and the groups. *)
Record rmatch : Type := mk_rmatch {
  m_start : nat;
  m_end : nat;
  m_groups : captures
}.

(** The match of [r] that starts exactly at position [pos] of [content]. *)
Definition match_at (r : regex) (content : string) (pos : nat)
  : result rmatch :=
  let s := str_drop pos content in
  run (S (String.length s)) r s []
      (fun s' cs =>
         Found (mk_rmatch pos (pos + (String.length s - String.length s')) cs)).

(** The leftmost match at or after [pos]; [tries] bounds the scan. *)
Fixpoint search_from (tries : nat) (r : regex) (content : string) (pos : nat)
  : result rmatch :=
  match match_at r content pos with
  | NoMatch =>
      match tries with
      | O => NoMatch
      | S tries' => search_from tries' r content (S pos)
      end
  | other => other
  end.

(** [re.search(r, content)] *)
Definition search (r : regex) (content : string) : option rmatch :=
  match search_from (String.length content) r content 0 with
  | Found m => Some m
  | _ => None
  end.

(** [re.finditer(r, content)]: the matches from left to right, each
    search resuming where the previous match ended (one further on after
    an empty match; no pattern of the source matches the empty text, so
    that case never arises here).  Every round moves on by a character at
    least, so one round per position is enough. *)
Fixpoint finditer_from (rounds : nat) (r : regex) (content : string)
         (pos : nat) : list rmatch :=
  match rounds with
  | O => []
  | S rounds' =>
      if String.length content <? pos then []
      else
        match search_from (String.length content - pos) r content pos with
        | Found m =>
            m :: finditer_from rounds' r content
                   (if m_start m <? m_end m then m_end m else S (m_end m))
        | _ => []
        end
  end.

Definition finditer (r : regex) (content : string) : list rmatch :=
  finditer_from (S (String.length content)) r content 0.

(** [re.sub(r, '', content)]: every match is cut out. *)
Fixpoint remove_from (rounds : nat) (r : regex) (content : string)
         (pos : nat) : string :=
  match rounds with
  | O => str_drop pos content
  | S rounds' =>
      if String.length content <? pos then ""
      else
        match search_from (String.length content - pos) r content pos with
        | Found m =>
            py_slice content pos (m_start m)
            ++ (if m_start m <? m_end m
                then remove_from rounds' r content (m_end m)
                else py_slice content (m_end m) (S (m_end m))
                     ++ remove_from rounds' r content (S (m_end m)))
        | _ => str_drop pos content
        end
  end.

Definition remove_all (r : regex) (content : string) : string :=
  remove_from (S (String.length content)) r content 0.

End Re.

(** ** The data model (the dataclasses of the source)

    [default_value], [nested_messages] and the enums of a message are never
    written or read by the program and are left out.  [_source_file] is an
    attribute the parser attaches after construction; [None] stands for an
    object without it ([hasattr] fails). *)

Record ProtoField : Type := mk_field {
  field_name : string;
  field_type : string;
  field_number : Z;
  field_label : string;          (* "", "optional", "required", "repeated" *)
  field_comment : string;
  is_deprecated : bool
}.

Record ProtoMessage : Type := mk_message {
  msg_name : string;
  msg_fields : list ProtoField;
  msg_comment : string;
  msg_source_file : option string
}.

Record ProtoEnum : Type := mk_enum {
  enum_name : string;
  enum_values : pydict Z;
  enum_comment : string;
  enum_source_file : option string
}.

Record ProtoMethod : Type := mk_method {
  method_name : string;
  input_type : string;
  output_type : string;
  method_comment : string;
  http_method : string;
  http_path : string;
  http_body : string
}.

Record ProtoService : Type := mk_service {
  service_name : string;
  service_methods : list ProtoMethod;
  service_comment : string;
  service_source_file : option string
}.

(** The state of a [ProtoParser]. *)
Record ProtoParser : Type := mk_parser {
  messages : pydict ProtoMessage;
  services : pydict ProtoService;
  enums : pydict ProtoEnum;
  packages : pydict string;
  imports : pydict (list string)
}.

Definition new_parser : ProtoParser := mk_parser [] [] [] [] [].

(** The file system: [open(path).read()], [None] when the file is missing. *)
Definition filesystem := string -> option string.

(** ** The Delimiter Matcher *)

(** The loop of [_find_matching_brace]: [i] is the index of the head of
    [chars] in the whole text. *)
Fixpoint find_brace_loop (chars : string) (i : Z) (brace_count : Z) : Z :=
  match chars with
  | EmptyString => (-1)%Z
  | String char rest =>
      if Ascii.eqb char "{" then
        find_brace_loop rest (i + 1)%Z (brace_count + 1)%Z
      else if Ascii.eqb char "}" then
        let brace_count := (brace_count - 1)%Z in
        if (brace_count =? 0)%Z then i
        else find_brace_loop rest (i + 1)%Z brace_count
      else find_brace_loop rest (i + 1)%Z brace_count
  end.

Definition _find_matching_brace (content : string) (start_pos : Z) : Z :=
  find_brace_loop (py_slice_from content start_pos) start_pos 0%Z.

(** ** The Schema Extractor *)

Import Re.

(** Line 74: [package\s+([\w.]+);] *)
Definition package_pattern : regex :=
  Seq [Str "package"; Plus space;
       Group 1 (Plus (Class (fun c => is_word c || Ascii.eqb c ".")));
       Lit ";"].

(** Line 79: [import\s+Q([^Q]+)Q;] where Q is the double quote. *)
Definition import_pattern : regex :=
  Seq [Str "import"; Plus space; Lit dquote;
       Group 1 (Plus (none_of dquote)); Lit dquote; Lit ";"].

(** Line 84: slash, star, any text (lazy, [re.DOTALL]), star, slash. *)
Definition block_comment_pattern : regex :=
  Seq [Str "/*"; LazyStar any; Str "*/"].

(** Line 85: [//.*?$] with [re.MULTILINE] *)
Definition line_comment_pattern : regex :=
  Seq [Str "//"; LazyStar dot; EndOfLine].

(** Line 202: [service\s+(\w+)\s*\{] *)
Definition service_start_pattern : regex :=
  Seq [Str "service"; Plus space; Group 1 (Plus word); Star space; Lit "{"].

(** Line 218: [rpc\s+(\w+)\s*\((\w+)\)\s*returns\s*\((\w+)\)\s*\{] *)
Definition rpc_start_pattern : regex :=
  Seq [Str "rpc"; Plus space; Group 1 (Plus word); Star space;
       Lit "("; Group 2 (Plus word); Lit ")"; Star space;
       Str "returns"; Star space;
       Lit "("; Group 3 (Plus word); Lit ")"; Star space; Lit "{"].

(** Line 240: [option\s+\(google\.api\.http\)\s*=\s*\{] *)
Definition http_start_pattern : regex :=
  Seq [Str "option"; Plus space; Str "(google.api.http)"; Star space;
       Lit "="; Star space; Lit "{"].

(** Line 252: the f-string is not raw, so its doubled backslash is one
    backslash of the pattern, whose text is [<verb>:\s*Q([^Q]+)Q] where Q is
    the double quote. *)
Definition method_pattern (http_method : string) : regex :=
  Seq [Str http_method; Lit ":"; Star space; Lit dquote;
       Group 1 (Plus (none_of dquote)); Lit dquote].

(** Line 260: the string is raw, so both backslashes reach the pattern,
    whose text is [body:\\s*Q GROUP Q] with GROUP any text without Q: the text [body:], one backslash
    character, any number of letters [s], and the quoted mask. *)
Definition body_pattern : regex :=
  Seq [Str "body:"; Lit "\"; Star (Lit "s"); Lit dquote;
       Group 1 (Star (none_of dquote)); Lit dquote].

(** Line 271: [message\s+(\w+)\s*\{ BODY \}] where the captured BODY is
    [[^}]+] followed by any number of [\{[^}]*\}[^}]*]. *)
Definition message_pattern : regex :=
  Seq [Str "message"; Plus space; Group 1 (Plus word); Star space; Lit "{";
       Group 2 (Cat (Plus (none_of "}"))
                    (Star (Seq [Lit "{"; Star (none_of "}"); Lit "}";
                                Star (none_of "}")])));
       Lit "}"].

(** Line 281: an optional label (group 1, one of repeated, optional,
    required) with white space after it; the dotted type name (group 2); white
    space; the field name (group 3); the equals sign between optional white
    space; the number (group 4, digits); optionally white space and the
    options text between square brackets (group 5, any text without a closing
    bracket); optionally white space, a semicolon, one or two slashes, white
    space and the rest of the line (group 6). *)
Definition field_pattern : regex :=
  Seq [Opt (Cat (Group 1 (Alt (Str "repeated")
                              (Alt (Str "optional") (Str "required"))))
                (Plus space));
       Group 2 (Cat (Plus word) (Star (Cat (Lit ".") (Plus word))));
       Plus space; Group 3 (Plus word); Star space; Lit "="; Star space;
       Group 4 (Plus digit);
       Opt (Seq [Star space; Lit "["; Group 5 (Star (none_of "]")); Lit "]"]);
       Opt (Seq [Star space; Lit ";"; Lit "/"; Opt (Lit "/"); Star space;
                 Group 6 (Star dot)])].

(** Line 308: [enum\s+(\w+)\s*\{([^}]+)\}] *)
Definition enum_pattern : regex :=
  Seq [Str "enum"; Plus space; Group 1 (Plus word); Star space; Lit "{";
       Group 2 (Plus (none_of "}")); Lit "}"].

(** Line 318: the value name (group 1), the equals sign between optional
    white space, the number (group 2) and the optional trailing comment as
    in a field line (group 3). *)
Definition value_pattern : regex :=
  Seq [Group 1 (Plus word); Star space; Lit "="; Star space;
       Group 2 (Plus digit);
       Opt (Seq [Star space; Lit ";"; Lit "/"; Opt (Lit "/"); Star space;
                 Group 3 (Star dot)])].

(** The verb keywords in the order the extractor tries them. *)
Definition http_verbs : list string := ["get"; "post"; "put"; "delete"; "patch"].

(** The [for http_method in [...]] loop with its [break]. *)
Fixpoint first_http_binding (verbs : list string) (http_options : string)
  : option (string * string) :=
  match verbs with
  | [] => None
  | verb :: verbs' =>
      match search (method_pattern verb) http_options with
      | Some method_match =>
          Some (upper verb, group_or_empty 1 (m_groups method_match))
      | None => first_http_binding verbs' http_options
      end
  end.

(** The HTTP annotations of one method body, written into [method]. *)
Definition parse_http_annotations (method_body : string) (method : ProtoMethod)
  : ProtoMethod :=
  match search http_start_pattern method_body with
  | None => method
  | Some http_start_match =>
      let http_start_pos := (Z.of_nat (m_end http_start_match) - 1)%Z in
      let http_end_pos := _find_matching_brace method_body http_start_pos in
      if (http_end_pos =? -1)%Z then method
      else
        let http_options :=
          py_slice method_body (Z.to_nat (http_start_pos + 1))
                   (Z.to_nat http_end_pos) in
        let method :=
          match first_http_binding http_verbs http_options with
          | Some (verb, path) =>
              mk_method (method_name method) (input_type method)
                        (output_type method) (method_comment method)
                        verb path (http_body method)
          | None => method
          end in
        match search body_pattern http_options with
        | Some body_match =>
            mk_method (method_name method) (input_type method)
                      (output_type method) (method_comment method)
                      (http_method method) (http_path method)
                      (group_or_empty 1 (m_groups body_match))
        | None => method
        end
  end.

(** One round of the loop over the [rpc] matches of a service body; [None]
    is the [continue] taken on a malformed block. *)
Definition parse_rpc (service_body : string) (rpc_start_match : rmatch)
  : option ProtoMethod :=
  let g := m_groups rpc_start_match in
  let rpc_start_pos := (Z.of_nat (m_end rpc_start_match) - 1)%Z in
  let rpc_end_pos := _find_matching_brace service_body rpc_start_pos in
  if (rpc_end_pos =? -1)%Z then None
  else
    let method_body :=
      py_slice service_body (Z.to_nat (rpc_start_pos + 1))
               (Z.to_nat rpc_end_pos) in
    Some (parse_http_annotations method_body
            (mk_method (group_or_empty 1 g) (group_or_empty 2 g)
                       (group_or_empty 3 g) "" "" "" "")).

Fixpoint filter_some {A : Type} (l : list (option A)) : list A :=
  match l with
  | [] => []
  | Some a :: l' => a :: filter_some l'
  | None :: l' => filter_some l'
  end.

Definition parse_service (content filepath : string) (start_match : rmatch)
  : option ProtoService :=
  let start_pos := (Z.of_nat (m_end start_match) - 1)%Z in
  let end_pos := _find_matching_brace content start_pos in
  if (end_pos =? -1)%Z then None
  else
    let service_body :=
      py_slice content (Z.to_nat (start_pos + 1)) (Z.to_nat end_pos) in
    Some (mk_service (group_or_empty 1 (m_groups start_match))
            (filter_some (map (parse_rpc service_body)
                              (finditer rpc_start_pattern service_body)))
            "" (Some filepath)).

Definition set_services (p : ProtoParser) (s : pydict ProtoService) :=
  mk_parser (messages p) s (enums p) (packages p) (imports p).
Definition set_messages (p : ProtoParser) (m : pydict ProtoMessage) :=
  mk_parser m (services p) (enums p) (packages p) (imports p).
Definition set_enums (p : ProtoParser) (e : pydict ProtoEnum) :=
  mk_parser (messages p) (services p) e (packages p) (imports p).
Definition set_packages (p : ProtoParser) (k : pydict string) :=
  mk_parser (messages p) (services p) (enums p) k (imports p).
Definition set_imports (p : ProtoParser) (i : pydict (list string)) :=
  mk_parser (messages p) (services p) (enums p) (packages p) i.

Definition _parse_services (self : ProtoParser) (content filepath : string)
  : ProtoParser :=
  fold_left
    (fun self start_match =>
       match parse_service content filepath start_match with
       | Some service =>
           set_services self
             (dict_set (service_name service) service (services self))
       | None => self
       end)
    (finditer service_start_pattern content) self.

(** The groups of one field match, as the loop body reads them. *)
Definition field_options (field_match : rmatch) : string :=
  group_or_empty 5 (m_groups field_match).

Definition field_of_match (field_match : rmatch) : ProtoField :=
  let g := m_groups field_match in
  mk_field (group_or_empty 3 g) (group_or_empty 2 g)
           (int_of_digits (group_or_empty 4 g))
           (group_or_empty 1 g)
           (strip (group_or_empty 6 g))
           (str_contains "deprecated = true" (lower (field_options field_match))).

Definition field_matches (message_body : string) : list rmatch :=
  finditer field_pattern message_body.

Definition message_of_match (filepath : string) (m : rmatch) : ProtoMessage :=
  mk_message (group_or_empty 1 (m_groups m))
             (map field_of_match (field_matches (group_or_empty 2 (m_groups m))))
             "" (Some filepath).

Definition _parse_messages (self : ProtoParser) (content filepath : string)
  : ProtoParser :=
  fold_left
    (fun self m =>
       let message := message_of_match filepath m in
       set_messages self (dict_set (msg_name message) message (messages self)))
    (finditer message_pattern content) self.

Definition enum_of_match (filepath : string) (m : rmatch) : ProtoEnum :=
  mk_enum (group_or_empty 1 (m_groups m))
          (fold_left
             (fun values value_match =>
                dict_set (group_or_empty 1 (m_groups value_match))
                         (int_of_digits (group_or_empty 2 (m_groups value_match)))
                         values)
             (finditer value_pattern (group_or_empty 2 (m_groups m))) [])
          "" (Some filepath).

Definition _parse_enums (self : ProtoParser) (content filepath : string)
  : ProtoParser :=
  fold_left
    (fun self m =>
       let enum := enum_of_match filepath m in
       set_enums self (dict_set (enum_name enum) enum (enums self)))
    (finditer enum_pattern content) self.

(** [parse_file] on the text read from [filepath]. *)
Definition parse_content (self : ProtoParser) (filepath content : string)
  : ProtoParser :=
  let self :=
    match search package_pattern content with
    | Some package_match =>
        set_packages self
          (dict_set filepath (group_or_empty 1 (m_groups package_match))
                    (packages self))
    | None => self
    end in
  let import_matches :=
    map (fun m => group_or_empty 1 (m_groups m)) (finditer import_pattern content) in
  let self :=
    match import_matches with
    | [] => self
    | _ => set_imports self (dict_set filepath import_matches (imports self))
    end in
  let content := remove_all block_comment_pattern content in
  let content := remove_all line_comment_pattern content in
  let self := _parse_services self content filepath in
  let self := _parse_messages self content filepath in
  _parse_enums self content filepath.

(** [parse_file]; [None] is the exception raised for a file that cannot be
    opened. *)
Definition parse_file (fs : filesystem) (self : ProtoParser) (filepath : string)
  : option ProtoParser :=
  match fs filepath with
  | Some content => Some (parse_content self filepath content)
  | None => None
  end.

(** ** The Schema Registry *)

Definition timestamp_msg : ProtoMessage :=
  mk_message "Timestamp"
    [mk_field "seconds" "int64" 1 "" "Represents seconds of UTC time since Unix epoch 1970-01-01T00:00:00Z." false;
     mk_field "nanos" "int32" 2 "" "Non-negative fractions of a second at nanosecond resolution." false]
    "A Timestamp represents a point in time independent of any time zone or local calendar, encoded as a count of seconds and fractions of seconds at nanosecond resolution."
    (Some "google/protobuf/timestamp.proto").

Definition duration_msg : ProtoMessage :=
  mk_message "Duration"
    [mk_field "seconds" "int64" 1 "" "Signed seconds of the span of time." false;
     mk_field "nanos" "int32" 2 "" "Signed fractions of a second at nanosecond resolution of the span of time." false]
    "A Duration represents a signed, fixed-length span of time represented as a count of seconds and fractions of seconds at nanosecond resolution."
    (Some "google/protobuf/duration.proto").

Definition any_msg : ProtoMessage :=
  mk_message "Any"
    [mk_field "type_url" "string" 1 "" "A URL/resource name that uniquely identifies the type of the serialized protocol buffer message." false;
     mk_field "value" "bytes" 2 "" "Must be a valid serialized protocol buffer of the above specified type." false]
    "Any contains an arbitrary serialized protocol buffer message along with a URL that describes the type of the serialized message."
    (Some "google/protobuf/any.proto").

Definition payload_msg : ProtoMessage :=
  mk_message "Payload"
    [mk_field "metadata" "map<string,bytes>" 1 "" "Metadata contains additional context information for this payload." false;
     mk_field "data" "bytes" 2 "" "Serialized data." false]
    "Payload is used to serialize/deserialize data that is passed to/from activity/workflow implementations that are language agnostic."
    (Some "temporal/api/common/v1/message.proto").

Definition _add_well_known_types (self : ProtoParser) : ProtoParser :=
  let m := messages self in
  let k := packages self in
  let m := dict_set "Timestamp" timestamp_msg m in
  let m := dict_set "google.protobuf.Timestamp" timestamp_msg m in
  let k := dict_set "google/protobuf/timestamp.proto" "google.protobuf" k in
  let m := dict_set "Duration" duration_msg m in
  let m := dict_set "google.protobuf.Duration" duration_msg m in
  let k := dict_set "google/protobuf/duration.proto" "google.protobuf" k in
  let m := dict_set "Any" any_msg m in
  let m := dict_set "google.protobuf.Any" any_msg m in
  let k := dict_set "google/protobuf/any.proto" "google.protobuf" k in
  let m := dict_set "Payload" payload_msg m in
  let m := dict_set "temporal.api.common.v1.Payload" payload_msg m in
  let k := dict_set "temporal/api/common/v1/message.proto" "temporal.api.common.v1" k in
  set_packages (set_messages self m) k.

(** ** The Qualification Resolver

    The two loops of [_build_qualified_names] are the same code on two
    dictionaries, so the embedding is written once over the type [E] of the
    entities.  The code only moves references to entities between
    dictionaries; being polymorphic in [E], the embedding can neither copy
    nor change an entity, so a binding of the result is one of the
    references put in. *)

Section Qualify.
Context {E : Type} (source_file : E -> option string).

(** The inner loop for one [(filepath, package)] pair. *)
Definition qualify_file (filepath package : string) (table qualified : pydict E)
  : pydict E :=
  fold_left
    (fun qualified (item : string * E) =>
       let (name, obj) := item in
       match source_file obj with
       | Some f =>
           if String.eqb f filepath then
             dict_set name obj
               (dict_set (package ++ "." ++ name) obj qualified)
           else qualified
       | None => qualified
       end)
    table qualified.

(** The dictionary [qualified_messages] (or [qualified_enums]) after the
    outer loop. *)
Definition qualified_names (pkgs : pydict string) (table : pydict E)
  : pydict E :=
  fold_left
    (fun qualified (fp : string * string) =>
       qualify_file (fst fp) (snd fp) table qualified)
    pkgs [].

(** The table after [self.messages.update(qualified_messages)]. *)
Definition qualify (pkgs : pydict string) (table : pydict E) : pydict E :=
  dict_update table (qualified_names pkgs table).
End Qualify.

Definition _build_qualified_names (self : ProtoParser) : ProtoParser :=
  mk_parser (qualify msg_source_file (packages self) (messages self))
            (services self)
            (qualify enum_source_file (packages self) (enums self))
            (packages self) (imports self).

(** [parse_repository]: [walk] lists the paths that [os.walk] yields, in its
    order; a file that cannot be read is reported and skipped. *)
Definition parse_repository (fs : filesystem) (walk : list string)
           (self : ProtoParser) : ProtoParser :=
  let self :=
    fold_left
      (fun self filepath =>
         if endswith filepath ".proto" then
           match parse_file fs self filepath with
           | Some self' => self'
           | None => self
           end
         else self)
      walk self in
  _build_qualified_names (_add_well_known_types self).

(** ** Type resolution *)

Definition scalar_types : list string :=
  ["string"; "int32"; "int64"; "bool"; "double"; "float"; "bytes"].

Definition str_in (x : string) (l : list string) : bool :=
  existsb (String.eqb x) l.

Definition _resolve_type_reference (parser : ProtoParser) (proto_type : string)
  : option ProtoMessage :=
  match dict_get proto_type (messages parser) with
  | Some m => Some m
  | None => dict_get (last_dot_part proto_type) (messages parser)
  end.

Definition _resolve_enum_reference (parser : ProtoParser) (proto_type : string)
  : option ProtoEnum :=
  match dict_get proto_type (enums parser) with
  | Some e => Some e
  | None => dict_get (last_dot_part proto_type) (enums parser)
  end.

Definition is_some {A : Type} (o : option A) : bool :=
  match o with Some _ => true | None => false end.

Definition _should_expand_type (parser : ProtoParser) (proto_type : string)
  : bool :=
  if str_in proto_type scalar_types then false
  else if startswith proto_type "google.protobuf." then
    str_in proto_type
      ["google.protobuf.Timestamp"; "google.protobuf.Duration";
       "google.protobuf.Any"]
  else if startswith proto_type "temporal.api.common." then
    str_in proto_type ["temporal.api.common.v1.Payload"]
  else is_some (_resolve_type_reference parser proto_type)
       || is_some (_resolve_enum_reference parser proto_type).

(** [message\s+NAME\s*\{] for the escaped simple name (line 828). *)
Definition message_decl_pattern (simple_name : string) : regex :=
  Seq [Str "message"; Plus space; Str simple_name; Star space; Lit "{"].

(** The search of [_get_type_package] through the registered files. *)
Fixpoint find_declaring_package (fs : filesystem) (type_name : string)
         (pkgs : pydict string) : option string :=
  match pkgs with
  | [] => None
  | (filepath, package) :: pkgs' =>
      if startswith filepath "google/protobuf/"
         || startswith filepath "temporal/api/common/"
      then find_declaring_package fs type_name pkgs'
      else
        match fs filepath with
        | Some content =>
            match search (message_decl_pattern (last_dot_part type_name))
                         content with
            | Some _ => Some package
            | None => find_declaring_package fs type_name pkgs'
            end
        | None => find_declaring_package fs type_name pkgs'
        end
  end.

Definition _get_type_package (fs : filesystem) (parser : ProtoParser)
           (type_name : string) : option string :=
  if startswith type_name "google.protobuf." then Some "google.protobuf"
  else if startswith type_name "temporal.api.common." then
    Some "temporal.api.common.v1"
  else if str_contains "." type_name then
    Some (join "." (removelast (split_on "." type_name)))
  else find_declaring_package fs type_name (packages parser).

Definition _get_service_package (parser : ProtoParser) (service : ProtoService)
  : option string :=
  match service_source_file service with
  | Some f => dict_get f (packages parser)
  | None => None
  end.

Definition excluded_simple_names : list string :=
  ["status"; "state"; "error"; "metadata"; "config"; "info"; "data"; "result"].

Definition _is_type_relevant (type_name : string) : bool :=
  if str_in type_name
       ["google.protobuf.Empty"; "google.protobuf.StringValue";
        "google.protobuf.Int64Value"; "google.protobuf.BoolValue"]
  then false
  else if startswith type_name "temporal.api.enums." then false
  else if startswith type_name "temporal.api.common." then
    str_in type_name ["temporal.api.common.v1.Payload"]
  else if startswith type_name "google.protobuf." then
    str_in type_name
      ["google.protobuf.Timestamp"; "google.protobuf.Duration";
       "google.protobuf.Any"]
  else negb (str_in (lower (last_dot_part type_name)) excluded_simple_names).

(** ** The Type Reference Graph *)

(** What a type name resolves to. *)
Inductive type_obj : Type :=
| TMessage (m : ProtoMessage)
| TEnum (e : ProtoEnum).

Definition reference_graph := pydict (type_obj * string).

(** The packages of the files whose path contains [cloudservice]. *)
Definition main_packages (parser : ProtoParser) : list string :=
  fold_left
    (fun acc (fp : string * string) =>
       if str_contains "cloudservice" (fst fp) then set_add (snd fp) acc
       else acc)
    (packages parser) [].

(** [type_package and type_package not in main_packages]: the package when
    the test passes. *)
Definition external_package (mains : list string) (type_package : option string)
  : option string :=
  match type_package with
  | Some p =>
      if negb (String.eqb p "") && negb (set_mem p mains) then Some p else None
  | None => None
  end.

Definition is_external_package (mains : list string) (type_package : option string)
  : bool := is_some (external_package mains type_package).

Section Collect.
Variable fs : filesystem.
Variable parser : ProtoParser.

(** The loop over the fields in [collect_from_message], given the function
[recurse] that the recursive call stands for.  [referenced_types] is the
dictionary of the enclosing scope that the loop writes to. *)
Fixpoint collect_fields
         (recurse : ProtoMessage -> list string -> nat -> reference_graph ->
                    option reference_graph)
         (visited : list string) (depth : nat) (fields : list ProtoField)
         (referenced_types : reference_graph) : option reference_graph :=
  match fields with
  | [] => Some referenced_types
  | field :: fields' =>
      if is_deprecated field
      then collect_fields recurse visited depth fields' referenced_types
      else
        let base_type := field_type field in
        if _should_expand_type parser base_type then
          match _resolve_type_reference parser base_type with
          | Some resolved_message =>
              match external_package (main_packages parser)
                      (_get_type_package fs parser base_type) with
              | Some type_package =>
                  if _is_type_relevant base_type then
                    match recurse resolved_message visited (depth + 1)
                            (dict_set base_type
                               (TMessage resolved_message, type_package)
                               referenced_types) with
                    | Some referenced_types =>
                        collect_fields recurse visited depth fields'
                                       referenced_types
                    | None => None
                    end
                  else collect_fields recurse visited depth fields'
                                      referenced_types
              | None =>
                  collect_fields recurse visited depth fields' referenced_types
              end
          | None =>
              match _resolve_enum_reference parser base_type with
              | Some resolved_enum =>
                  match external_package (main_packages parser)
                          (_get_type_package fs parser base_type) with
                  | Some type_package =>
                      if _is_type_relevant base_type then
                        collect_fields recurse visited depth fields'
                          (dict_set base_type
                             (TEnum resolved_enum, type_package)
                             referenced_types)
                      else collect_fields recurse visited depth fields'
                                          referenced_types
                  | None =>
                      collect_fields recurse visited depth fields'
                                     referenced_types
                  end
              | None =>
                  collect_fields recurse visited depth fields' referenced_types
              end
          end
        else collect_fields recurse visited depth fields' referenced_types
  end.

(** The nested function [collect_from_message].  The set [visited] is
passed by value: the caller hands over [visited.copy()] and never reads the
callee's additions.  [fuel] bounds the nesting of calls; [None] means the
bound was too small. *)
Fixpoint collect_from_message (fuel : nat) (message : ProtoMessage)
         (visited : list string) (depth : nat)
         (referenced_types : reference_graph) : option reference_graph :=
  match fuel with
  | O => None
  | S fuel' =>
      if set_mem (msg_name message) visited || (2 <? depth)
      then Some referenced_types
      else
        collect_fields (collect_from_message fuel')
                       (set_add (msg_name message) visited) depth
                       (msg_fields message) referenced_types
  end.

(** The input and the output side of one method in the loop over the
    services.  The set [direct_types] of the source is filled there but
    never read, and filling it has no effect, so it is left out. *)
Definition collect_from_type (fuel : nat) (type_name : string)
           (referenced_types : reference_graph) : option reference_graph :=
  if String.eqb type_name "" then Some referenced_types
  else
    match dict_get type_name (messages parser) with
    | Some message => collect_from_message fuel message [] 0 referenced_types
    | None => Some referenced_types
    end.

Fixpoint collect_from_methods (fuel : nat) (methods : list ProtoMethod)
         (referenced_types : reference_graph) : option reference_graph :=
  match methods with
  | [] => Some referenced_types
  | method :: methods' =>
      match collect_from_type fuel (input_type method) referenced_types with
      | Some referenced_types =>
          match collect_from_type fuel (output_type method) referenced_types with
          | Some referenced_types =>
              collect_from_methods fuel methods' referenced_types
          | None => None
          end
      | None => None
      end
  end.

Fixpoint collect_from_services (fuel : nat) (svcs : list ProtoService)
         (referenced_types : reference_graph) : option reference_graph :=
  match svcs with
  | [] => Some referenced_types
  | service :: svcs' =>
      match collect_from_methods fuel (service_methods service)
              referenced_types with
      | Some referenced_types =>
          collect_from_services fuel svcs' referenced_types
      | None => None
      end
  end.

(** The final copy into [all_external_types] keeps keys, values and
    order. *)
Definition copy_graph (referenced_types : reference_graph) : reference_graph :=
  fold_left (fun acc kv => dict_set (fst kv) (snd kv) acc) referenced_types [].

(** [_collect_referenced_types] with the cache of the generator: the
    returned mapping and the cache afterwards. *)
Definition _collect_referenced_types (fuel : nat)
           (cache : option reference_graph)
  : option (reference_graph * option reference_graph) :=
  match cache with
  | Some cached => Some (cached, cache)
  | None =>
      match collect_from_services fuel (dict_values (services parser)) [] with
      | Some referenced_types =>
          let referenced_types := copy_graph referenced_types in
          Some (referenced_types, Some referenced_types)
      | None => None
      end
  end.
End Collect.

(** ** JSON values and [json.dumps(value, indent=2)] *)

#[local] Set Warnings "-register-all".

Inductive json : Type :=
| JStr (s : string)
| JInt (n : Z)
| JBool (b : bool)
| JFloat (repr : string)            (* a float, carried by its [repr] *)
| JList (items : list json)
| JDict (items : list (string * json)).

Definition hex_digit (n : nat) : ascii :=
  if n <? 10 then ascii_of_nat (48 + n) else ascii_of_nat (87 + n).

(** The escapes of [json.dumps] with [ensure_ascii]. *)
Definition json_escape_char (c : ascii) : string :=
  let n := nat_of_ascii c in
  if Ascii.eqb c dquote then String "\" DQ
  else if Ascii.eqb c "\" then "\\"
  else if n =? 10 then "\n"
  else if n =? 13 then "\r"
  else if n =? 9 then "\t"
  else if n =? 8 then "\b"
  else if n =? 12 then "\f"
  else if (32 <=? n) && (n <=? 126) then String c EmptyString
  else "\u00" ++ String (hex_digit (n / 16)) (String (hex_digit (n mod 16)) "").

Fixpoint json_escape (s : string) : string :=
  match s with
  | EmptyString => EmptyString
  | String c s' => json_escape_char c ++ json_escape s'
  end.

Definition json_string (s : string) : string := DQ ++ json_escape s ++ DQ.

Fixpoint spaces (n : nat) : string :=
  match n with
  | O => ""
  | S n' => String " " (spaces n')
  end.

Definition NL : string := String newline EmptyString.

(** [level] is the nesting depth of the value being written. *)
Fixpoint dumps_at (level : nat) (j : json) : string :=
  match j with
  | JStr s => json_string s
  | JInt n => str_of_Z n
  | JBool b => if b then "true" else "false"
  | JFloat r => r
  | JList [] => "[]"
  | JList items =>
      "[" ++ NL ++ spaces (2 * S level)
      ++ join ("," ++ NL ++ spaces (2 * S level)) (map (dumps_at (S level)) items)
      ++ NL ++ spaces (2 * level) ++ "]"
  | JDict [] => "{}"
  | JDict items =>
      "{" ++ NL ++ spaces (2 * S level)
      ++ join ("," ++ NL ++ spaces (2 * S level))
           (map (fun kv : string * json =>
                   json_string (fst kv) ++ ": " ++ dumps_at (S level) (snd kv))
                items)
      ++ NL ++ spaces (2 * level) ++ "}"
  end.

Definition json_dumps_indent2 (j : json) : string := dumps_at 0 j.

(** ** Example payloads *)

Definition type_examples (base_type : string) : option json :=
  if String.eqb base_type "string" then Some (JStr "example_string")
  else if String.eqb base_type "int32" then Some (JInt 123)
  else if String.eqb base_type "int64" then Some (JInt 123456789)
  else if String.eqb base_type "bool" then Some (JBool true)
  else if String.eqb base_type "double" then Some (JFloat "123.45")
  else if String.eqb base_type "float" then Some (JFloat "123.45")
  else if String.eqb base_type "bytes" then Some (JStr "base64_encoded_data")
  else None.

Section Examples.
Variable parser : ProtoParser.

(** The loop of [_get_nested_example_value] over [fields[:3]], given the
    function [example_value] that values one field. *)
Fixpoint nested_fields_example (example_value : ProtoField -> option json)
         (fields : list ProtoField) (nested_example : pydict json)
  : option (pydict json) :=
  match fields with
  | [] => Some nested_example
  | nested_field :: fields' =>
      if negb (is_deprecated nested_field) then
        match example_value nested_field with
        | Some v =>
            nested_fields_example example_value fields'
              (dict_set (field_name nested_field) v nested_example)
        | None => None
        end
      else nested_fields_example example_value fields' nested_example
  end.

(** [_get_nested_example_value], given the function that values one
    field. *)
Definition nested_example_with (example_value : ProtoField -> option json)
           (field_type : string) : option json :=
  match _resolve_type_reference parser field_type with
  | Some resolved_message =>
      match nested_fields_example example_value
              (firstn 3 (msg_fields resolved_message)) [] with
      | Some nested_example => Some (JDict nested_example)
      | None => None
      end
  | None => Some (JStr ("example_" ++ lower (last_dot_part field_type)))
  end.

(** [_get_example_value]; [fuel] bounds the nesting of the calls, which
    the source does not bound, and [None] stands for a recursion that is
    deeper than [fuel]. *)
Fixpoint _get_example_value (fuel : nat) (field : ProtoField) : option json :=
  match fuel with
  | O => None
  | S fuel' =>
      let base_type := lower (last_dot_part (field_type field)) in
      match type_examples base_type with
      | Some v => Some v
      | None =>
          if str_contains "timestamp" base_type then
            Some (JStr "2023-12-01T12:00:00Z")
          else if endswith (field_name field) "_id" then
            Some (JStr "unique_identifier_123")
          else if str_contains "email" (lower (field_name field)) then
            Some (JStr "user@example.com")
          else if str_contains "name" (lower (field_name field)) then
            Some (JStr "example_name")
          else if _should_expand_type parser (field_type field) then
            nested_example_with (_get_example_value fuel') (field_type field)
          else Some (JStr ("example_" ++ field_name field))
      end
  end.

Definition _get_nested_example_value (fuel : nat) (field_type : string)
  : option json :=
  nested_example_with (_get_example_value fuel) field_type.

(** The dictionary [example] of [_generate_example_json]. *)
Fixpoint example_dict (fuel : nat) (fields : list ProtoField)
         (example : pydict json) : option (pydict json) :=
  match fields with
  | [] => Some example
  | field :: fields' =>
      if is_deprecated field then example_dict fuel fields' example
      else
        match _get_example_value fuel field with
        | Some example_value =>
            example_dict fuel fields'
              (dict_set (field_name field)
                 (if String.eqb (field_label field) "repeated"
                  then JList [example_value] else example_value)
                 example)
        | None => None
        end
  end.

Definition example_of_message (fuel : nat) (message : ProtoMessage)
  : option json :=
  match example_dict fuel (msg_fields message) [] with
  | Some example => Some (JDict example)
  | None => None
  end.

Definition _generate_example_json (fuel : nat) (message : ProtoMessage)
  : option string :=
  match example_of_message fuel message with
  | Some example => Some (json_dumps_indent2 example)
  | None => None
  end.
End Examples.

(** ** The Documentation Renderer *)

(** The markup of the source is full of double quotes.  Its fixed pieces are
    written here with a backquote in place of each double quote, and [qq]
    puts the double quotes back; no fixed piece of the source holds a
    backquote. *)
Definition qq (s : string) : string := replace_char "`" DQ s.

(** List concatenation, kept apart from the concatenation of strings. *)
Notation "l1 +++ l2" := (@app string l1 l2)
  (at level 60, right associativity).

(** A stable sort by a key, as [sorted] and [list.sort] are. *)
Section StableSort.
Context {A : Type} (le : A -> A -> bool).

Fixpoint insert_sorted (x : A) (l : list A) : list A :=
  match l with
  | [] => [x]
  | y :: l' => if le x y then x :: l else y :: insert_sorted x l'
  end.

Definition stable_sort (l : list A) : list A :=
  fold_right insert_sorted [] l.
End StableSort.

(** [os.path.join(template_dir, template_name)] for a relative name. *)
Definition path_join (dir name : string) : string :=
  if String.eqb dir "" then name
  else if endswith dir "/" then dir ++ name
  else dir ++ "/" ++ name.

Definition _get_fallback_template (template_name : string) : string :=
  if String.eqb template_name "html_head.html" then
    qq "<!DOCTYPE html><html><head><meta charset=`UTF-8`><title>{title}</title></head><body><div class=`container`>"
  else if String.eqb template_name "html_footer.html" then
    "</div><script>{javascript}</script></body></html>"
  else if String.eqb template_name "scripts.js" then
    "// Fallback JavaScript"
  else "".

Definition _load_template (fs : filesystem) (template_dir template_name : string)
  : string :=
  match fs (path_join template_dir template_name) with
  | Some text => text
  | None => _get_fallback_template template_name
  end.

(** [template.format(key=value)] for replacement fields that are plain
    names: a doubled brace is a literal brace, [{key}] is replaced, and any
    other use of a brace raises (here [None]).  Conversions and format
    specifications inside a field are not modelled and count as raising. *)
Fixpoint format_go (key value : string) (s : string) (field : option string)
  : option string :=
  match s with
  | EmptyString =>
      match field with None => Some "" | Some _ => None end
  | String c s' =>
      match field with
      | Some name =>
          if Ascii.eqb c "}" then
            if String.eqb name key
            then option_map (append value) (format_go key value s' None)
            else None
          else if Ascii.eqb c "{" then None
          else format_go key value s' (Some (name ++ String c ""))
      | None =>
          if Ascii.eqb c "{" then
            match s' with
            | String c2 s'' =>
                if Ascii.eqb c2 "{"
                then option_map (String "{") (format_go key value s'' None)
                else format_go key value s' (Some "")
            | EmptyString => None
            end
          else if Ascii.eqb c "}" then
            match s' with
            | String c2 s'' =>
                if Ascii.eqb c2 "}"
                then option_map (String "}") (format_go key value s'' None)
                else None
            | EmptyString => None
            end
          else option_map (String c) (format_go key value s' None)
      end
  end.

Definition str_format (template key value : string) : option string :=
  format_go key value template None.

Definition type_mapping (base_type : string) : option string :=
  if String.eqb base_type "string" then Some "string"
  else if String.eqb base_type "int32" then Some "integer"
  else if String.eqb base_type "int64" then Some "integer"
  else if String.eqb base_type "bool" then Some "boolean"
  else if String.eqb base_type "double" then Some "number"
  else if String.eqb base_type "float" then Some "number"
  else if String.eqb base_type "bytes" then Some "string (base64)"
  else None.

(** The functions of the renderer.  [referenced_types] is the mapping that
    [_collect_referenced_types] returns: the first call, in
    [_generate_sidebar], computes it and fills the cache, and every later
    call of one rendering returns that cached mapping. *)
Section Renderer.
Variable fs : filesystem.
Variable parser : ProtoParser.
Variable referenced_types : reference_graph.

Definition _is_referenced_type (proto_type : string) : bool :=
  dict_mem proto_type referenced_types.

Definition _is_external_type (proto_type : string) : bool :=
  is_external_package (main_packages parser)
    (_get_type_package fs parser proto_type).

Definition _format_type (proto_type : string) (create_links : bool) : string :=
  let base_type := lower (last_dot_part proto_type) in
  let formatted_type :=
    match type_mapping base_type with
    | Some t => t
    | None => proto_type
    end in
  if create_links && _is_external_type proto_type then
    if _is_referenced_type proto_type then
      qq "<a href=`#ref-" ++ lower (last_dot_part proto_type) ++ qq "`>"
      ++ formatted_type ++ "</a>"
    else formatted_type
  else formatted_type.

Definition or_default (s default : string) : string :=
  if String.eqb s "" then default else s.

(** One row of a parameter table; no row for a deprecated field. *)
Definition message_row (field : ProtoField) : list string :=
  if is_deprecated field then []
  else
    let required :=
      if String.eqb (field_label field) "required" then "Yes" else "No" in
    let field_type :=
      if String.eqb (field_label field) "repeated"
      then "Array&lt;" ++ _format_type (field_type field) true ++ "&gt;"
      else _format_type (field_type field) true in
    let description :=
      html_escape (or_default (field_comment field) "No description available") in
    ["<tr>";
     "<td><code>" ++ html_escape (field_name field) ++ "</code></td>";
     "<td>" ++ field_type ++ "</td>";
     "<td>" ++ required ++ "</td>";
     "<td>" ++ description ++ "</td>";
     "</tr>"].

Definition _generate_html_message_docs (message : ProtoMessage)
           (is_request : bool) : list string :=
  match msg_fields message with
  | [] =>
      ["<p>" ++ (if is_request then "No parameters required."
                 else "Empty response.") ++ "</p>"]
  | fields =>
      (["<table>"; "<thead>"; "<tr>"; "<th>Parameter</th>"; "<th>Type</th>";
        "<th>Required</th>"; "<th>Description</th>"; "</tr>"; "</thead>";
        "<tbody>"]
       +++ flat_map message_row fields
       +++ ["</tbody>"; "</table>"])
  end.

(** The list [curl_parts] of [_generate_curl_example]. *)
Definition has_request_body (method : ProtoMethod) : option ProtoMessage :=
  if str_in (http_method method) ["POST"; "PUT"; "PATCH"]
     && negb (String.eqb (input_type method) "")
  then
    match dict_get (input_type method) (messages parser) with
    | Some input_message =>
        match msg_fields input_message with
        | [] => None
        | _ => Some input_message
        end
    | None => None
    end
  else None.

Definition curl_parts (fuel : nat) (method : ProtoMethod)
  : option (list string) :=
  let verb :=
    if negb (String.eqb (http_method method) "")
       && negb (String.eqb (upper (http_method method)) "GET")
    then ["-X " ++ upper (http_method method)] else [] in
  let url := "https://saas-api.tmprl.cloud" ++ http_path method in
  let fixed :=
    (["curl"] +++ verb +++ [DQ ++ url ++ DQ]
     +++ [qq "-H `Content-Type: application/json`";
         qq "-H `Authorization: Bearer YOUR_API_KEY`"]) in
  match has_request_body method with
  | Some input_message =>
      match _generate_example_json parser fuel input_message with
      | Some example_body =>
          let escaped_body :=
            replace_char "'" ("'" ++ DQ ++ "'" ++ DQ ++ "'") example_body in
          Some (fixed +++ ["-d '" ++ escaped_body ++ "'"])
      | None => None
      end
  | None => Some fixed
  end.

(** [curl_parts[1:-1]] *)
Definition middle_parts (parts : list string) : list string :=
  removelast (tl parts).

(** The lines of the command: one line for at most three parts, else one
    part per line, every line but the last ending in a backslash. *)
Definition curl_lines (parts : list string) : list string :=
  if List.length parts <=? 3 then [join " " parts]
  else
    ([hd "" parts ++ " \"]
     +++ map (fun part => "  " ++ part ++ " \") (middle_parts parts)
     +++ ["  " ++ last parts ""]).

(** The string [curl_command], kept in the [data-curl-command]
    attribute. *)
Definition curl_command (parts : list string) : string :=
  join NL (curl_lines parts).

Definition _generate_curl_example (fuel : nat) (method : ProtoMethod)
  : option (list string) :=
  match curl_parts fuel method with
  | Some parts =>
      let method_id := lower (method_name method) in
      Some
        ([qq "<div class=`code-block-container`>";
          qq "<button class=`copy-button` data-copy-target=`curl-code-"
          ++ method_id ++ qq "` title=`Copy curl command`>Copy</button>";
          qq "<pre><code id=`curl-code-" ++ method_id
          ++ qq "` data-curl-command=`" ++ html_escape (curl_command parts)
          ++ qq "`>"]
         +++ map html_escape (curl_lines parts)
         +++ ["</code></pre>"; "</div>"])
  | None => None
  end.

Definition has_http (method : ProtoMethod) : bool :=
  negb (String.eqb (http_method method) "")
  && negb (String.eqb (http_path method) "").

(** The body line of the HTTP tab, when there is one. *)
Definition http_tab_body (fuel : nat) (method : ProtoMethod)
  : option (list string) :=
  match has_request_body method with
  | Some input_message =>
      match _generate_example_json parser fuel input_message with
      | Some example_body => Some [html_escape example_body]
      | None => None
      end
  | None => Some []
  end.

(** The pane of the Response tab, when the output type resolves. *)
Definition response_pane (fuel : nat) (method : ProtoMethod) (first_tab : bool)
  : option (list string) :=
  if negb (String.eqb (output_type method) "") then
    match dict_get (output_type method) (messages parser) with
    | Some output_message =>
        match _generate_example_json parser fuel output_message with
        | Some example_response =>
            Some [qq "<div class=`tab-pane " ++ (if first_tab then "active" else "")
                  ++ qq "` id=`response-" ++ lower (method_name method) ++ qq "`>";
                  "<pre><code>";
                  html_escape example_response;
                  "</code></pre>";
                  "</div>"]
        | None => None
        end
    | None => Some []
    end
  else Some [].

Definition _generate_html_example (fuel : nat) (method : ProtoMethod)
  : option (list string) :=
  let method_id := lower (method_name method) in
  let has_response := negb (String.eqb (output_type method) "") in
  let tab_nav :=
    ((if has_http method then
        [qq "<button class=`tab-button active` data-tab=`curl-" ++ method_id
         ++ qq "`>curl</button>";
         qq "<button class=`tab-button` data-tab=`http-" ++ method_id
         ++ qq "`>HTTP</button>"]
      else [])
     +++ (if has_response then
           [qq "<button class=`tab-button "
            ++ (if has_http method then "" else "active")
            ++ qq "` data-tab=`response-" ++ method_id ++ qq "`>Response</button>"]
         else [])) in
  let curl_tab :=
    if has_http method then
      match _generate_curl_example fuel method with
      | Some lines =>
          Some ([qq "<div class=`tab-pane active` id=`curl-" ++ method_id ++ qq "`>"]
                +++ lines +++ ["</div>"])
      | None => None
      end
    else Some [] in
  let http_tab :=
    if has_http method then
      match http_tab_body fuel method with
      | Some body =>
          Some ([qq "<div class=`tab-pane` id=`http-" ++ method_id ++ qq "`>";
                 "<pre><code>";
                 html_escape (http_method method) ++ " "
                 ++ html_escape (http_path method);
                 "Content-Type: application/json";
                 "Authorization: Bearer YOUR_API_KEY";
                 ""]
                +++ body +++ ["</code></pre>"; "</div>"])
      | None => None
      end
    else Some [] in
  match curl_tab with
  | Some curl_tab =>
      match http_tab with
      | Some http_tab =>
          match response_pane fuel method (negb (has_http method)) with
          | Some response_tab =>
              Some ([qq "<div class=`example-section`>"; "<h4>Example</h4>";
                     qq "<div class=`tab-container`>"; qq "<div class=`tab-nav`>"]
                    +++ tab_nav
                    +++ ["</div>"; qq "<div class=`tab-content`>"]
                    +++ curl_tab +++ http_tab +++ response_tab
                    +++ ["</div>"; "</div>"; "</div>"])
          | None => None
          end
      | None => None
      end
  | None => None
  end.

(** The Request section of a method, empty when the input type does not
    resolve; likewise the Response section. *)
Definition request_section (method : ProtoMethod) : list string :=
  match dict_get (input_type method) (messages parser) with
  | Some input_message =>
      "<h4>Request</h4>" :: _generate_html_message_docs input_message true
  | None => []
  end.

Definition response_section (method : ProtoMethod) : list string :=
  match dict_get (output_type method) (messages parser) with
  | Some output_message =>
      "<h4>Response</h4>" :: _generate_html_message_docs output_message false
  | None => []
  end.

Definition _generate_html_method_docs (fuel : nat) (method : ProtoMethod)
           (service : ProtoService) : option (list string) :=
  let method_anchor := lower (method_name method) in
  match _generate_html_example fuel method with
  | Some example =>
      Some
        ([qq "<div class=`method-header`>";
          qq "<h3 id=`" ++ method_anchor ++ qq "`>"
          ++ html_escape (method_name method) ++ "</h3>";
          qq "<button class=`link-button` data-anchor=`" ++ method_anchor
          ++ qq "` title=`Copy link to this method`>#</button>";
          "</div>"]
         +++ match _get_service_package parser service with
            | Some service_package =>
                if String.eqb service_package "" then []
                else ["<p><em>From package:</em> <code>" ++ service_package
                      ++ "</code></p>"]
            | None => []
            end
         +++ (if String.eqb (method_comment method) "" then []
             else ["<p>" ++ html_escape (method_comment method) ++ "</p>"])
         +++ (if has_http method then
               [qq "<div class=`method-endpoint`>";
                "<code>" ++ html_escape (http_method method) ++ " "
                ++ html_escape (http_path method) ++ "</code>";
                "</div>"]
             else [])
         +++ request_section method
         +++ response_section method
         +++ example
         +++ [qq "<div class=`method-divider`></div>"])
  | None => None
  end.

Fixpoint methods_docs (fuel : nat) (methods : list ProtoMethod)
         (service : ProtoService) : option (list string) :=
  match methods with
  | [] => Some []
  | method :: methods' =>
      match _generate_html_method_docs fuel method service with
      | Some d =>
          match methods_docs fuel methods' service with
          | Some ds => Some (d +++ ds)
          | None => None
          end
      | None => None
      end
  end.

Definition _generate_html_service_docs (fuel : nat) (service : ProtoService)
  : option (list string) :=
  match methods_docs fuel (service_methods service) service with
  | Some docs =>
      Some ([qq "<div class=`content-section`>";
             qq "<h2 id=`" ++ lower (service_name service) ++ qq "`>"
             ++ html_escape (service_name service) ++ "</h2>"]
            +++ (if String.eqb (service_comment service) "" then []
                else ["<p>" ++ html_escape (service_comment service) ++ "</p>"])
            +++ docs +++ ["</div>"])
  | None => None
  end.
End Renderer.

(** ** Navigation, the Types appendix and the whole document *)

(** The first entry of every simple name, in iteration order. *)
Fixpoint dedup_simple_names {A : Type} (items : list (string * A))
         (seen_simple_names : list string) : list (string * A) :=
  match items with
  | [] => []
  | (type_name, x) :: items' =>
      let simple_name := last_dot_part type_name in
      if set_mem simple_name seen_simple_names
      then dedup_simple_names items' seen_simple_names
      else (type_name, x)
           :: dedup_simple_names items' (set_add simple_name seen_simple_names)
  end.

Definition by_simple_name {A : Type} (x y : string * A) : bool :=
  String.leb (last_dot_part (fst x)) (last_dot_part (fst y)).

Definition sidebar_service (entry : string * ProtoService) : list string :=
  let (name, service) := entry in
  [qq "<li class=`nav-item`>";
   qq "<a href=`#" ++ lower name ++ qq "` class=`nav-link`>" ++ name ++ "</a>";
   qq "<ul class=`nav-sublist`>"]
  +++ flat_map
        (fun method =>
           ["<li>";
            qq "<a href=`#" ++ lower (method_name method)
            ++ qq "` class=`nav-sublink`>" ++ method_name method ++ "</a>";
            "</li>"])
        (service_methods service)
  +++ ["</ul>"; "</li>"].

Definition _generate_sidebar (parser : ProtoParser)
           (referenced_types : reference_graph) : string :=
  join NL
    ([qq "<nav class=`sidebar`>";
      qq "<div class=`sidebar-content`>";
      qq "<div class=`search-container`>";
      qq "<input type=`text` class=`search-input` id=`searchInput` placeholder=`Search services and types...`>";
      qq "<div class=`search-results` id=`searchResults`></div>";
      "</div>";
      "<h2>Services</h2>";
      qq "<ul class=`nav-list`>"]
     +++ flat_map sidebar_service (services parser)
     +++ ["</ul>"]
     +++ match referenced_types with
         | [] => []
         | _ =>
             ["<h2>Types</h2>"; qq "<ul class=`nav-list`>"]
             +++ flat_map
                   (fun entry : string * (type_obj * string) =>
                      let simple_name := last_dot_part (fst entry) in
                      ["<li>";
                       qq "<a href=`#ref-" ++ lower simple_name
                       ++ qq "` class=`nav-sublink`>" ++ simple_name ++ "</a>";
                       "</li>"])
                   (stable_sort by_simple_name
                      (dedup_simple_names referenced_types []))
             +++ ["</ul>"]
         end
     +++ ["</div>"; "</nav>"]).

(** The dictionary [packages] of [_generate_types_section]: the types of
    the graph grouped by owning package, packages in first-seen order. *)
Definition group_by_package (referenced_types : reference_graph)
  : pydict (list (string * type_obj)) :=
  fold_left
    (fun packages (item : string * (type_obj * string)) =>
       let '(type_name, (obj, package)) := item in
       let sofar :=
         match dict_get package packages with
         | Some l => l
         | None => []
         end in
       dict_set package (sofar ++ [(type_name, obj)])%list packages)
    referenced_types [].

(** The rows of an enum table: the items of [values] sorted by number. *)
Definition sorted_enum_values (e : ProtoEnum) : list (string * Z) :=
  stable_sort (fun x y : string * Z => (snd x <=? snd y)%Z) (enum_values e).

Definition enum_value_row (item : string * Z) : list string :=
  ["<tr>";
   "<td><code>" ++ html_escape (fst item) ++ "</code></td>";
   "<td>" ++ str_of_Z (snd item) ++ "</td>";
   "</tr>"].

Definition enum_value_rows (e : ProtoEnum) : list string :=
  flat_map enum_value_row (sorted_enum_values e).

Section TypesAppendix.
Variable fs : filesystem.
Variable parser : ProtoParser.
Variable referenced_types : reference_graph.

Definition type_field_row (field : ProtoField) : list string :=
  if is_deprecated field then []
  else
    let formatted :=
      _format_type fs parser referenced_types (field_type field) true in
    let field_type :=
      if String.eqb (field_label field) "repeated"
      then "Array&lt;" ++ formatted ++ "&gt;" else formatted in
    ["<tr>";
     "<td><code>" ++ html_escape (field_name field) ++ "</code></td>";
     "<td>" ++ field_type ++ "</td>";
     "<td>"
     ++ html_escape (or_default (field_comment field) "No description available")
     ++ "</td>";
     "</tr>"].

Definition type_comment (obj : type_obj) : string :=
  match obj with
  | TMessage m => msg_comment m
  | TEnum e => enum_comment e
  end.

(** The block of one type in [_generate_flat_types_list]. *)
Definition type_block (entry : string * (type_obj * string)) : list string :=
  let '(type_name, (obj, package)) := entry in
  let simple_name := last_dot_part type_name in
  let type_anchor := "ref-" ++ lower simple_name in
  [qq "<div class=`type-header`>";
   qq "<h4 id=`" ++ type_anchor ++ qq "`>" ++ html_escape simple_name ++ "</h4>";
   qq "<button class=`link-button` data-anchor=`" ++ type_anchor
   ++ qq "` title=`Copy link to this type`>#</button>";
   "</div>";
   "<p><em>From package:</em> <code>" ++ package ++ "</code></p>"]
  +++ (if String.eqb (type_comment obj) "" then []
       else ["<p>" ++ html_escape (type_comment obj) ++ "</p>"])
  +++ match obj with
      | TMessage m =>
          match msg_fields m with
          | [] => ["<p>No fields defined.</p>"]
          | fields =>
              ["<table>"; "<thead>"; "<tr>"; "<th>Field</th>"; "<th>Type</th>";
               "<th>Description</th>"; "</tr>"; "</thead>"; "<tbody>"]
              +++ flat_map type_field_row fields
              +++ ["</tbody>"; "</table>"]
          end
      | TEnum e =>
          match enum_values e with
          | [] => ["<p>No enum values defined.</p>"]
          | _ =>
              ["<p><strong>Enum Values:</strong></p>"; "<table>"; "<thead>";
               "<tr>"; "<th>Name</th>"; "<th>Value</th>"; "</tr>"; "</thead>";
               "<tbody>"]
              +++ enum_value_rows e
              +++ ["</tbody>"; "</table>"]
          end
      end
  +++ [qq "<div style=`margin-bottom: 2rem;`></div>"].

(** The types of all packages in one list, as the first loop of
    [_generate_flat_types_list] builds it. *)
Definition flatten_packages (packages : pydict (list (string * type_obj)))
  : list (string * (type_obj * string)) :=
  flat_map
    (fun pk : string * list (string * type_obj) =>
       map (fun t : string * type_obj => (fst t, (snd t, fst pk))) (snd pk))
    packages.

Definition _generate_flat_types_list
           (packages : pydict (list (string * type_obj))) : list string :=
  flat_map type_block
    (stable_sort by_simple_name
       (dedup_simple_names (flatten_packages packages) [])).

Definition _generate_types_section : list string :=
  match referenced_types with
  | [] => []
  | _ =>
      [qq "<div class=`content-section`>";
       qq "<h2 id=`types`>Types</h2>";
       "<p>This section documents all types from external packages used in the CloudService API.</p>"]
      +++ _generate_flat_types_list (group_by_package referenced_types)
      +++ ["</div>"]
  end.

Fixpoint services_docs (fuel : nat) (svcs : list ProtoService)
  : option (list string) :=
  match svcs with
  | [] => Some []
  | service :: svcs' =>
      match _generate_html_service_docs fs parser referenced_types fuel service with
      | Some d =>
          match services_docs fuel svcs' with
          | Some ds => Some (d +++ ds)
          | None => None
          end
      | None => None
      end
  end.
End TypesAppendix.

(** The state of an [HTMLDocumentationGenerator]. *)
Record HTMLDocumentationGenerator : Type := mk_generator {
  gen_parser : ProtoParser;
  template_dir : string;
  _referenced_types_cache : option reference_graph
}.

(** [HTMLDocumentationGenerator(parser)]; the directory of the templates
    sits next to the program and is given. *)
Definition new_generator (parser : ProtoParser) (template_dir : string)
  : HTMLDocumentationGenerator :=
  mk_generator parser template_dir None.

(** [generate_html]: the document, or [None] when rendering raises (a
    template that [str.format] rejects, or an example payload nested deeper
    than [fuel]). *)
Definition generate_html (fs : filesystem) (fuel : nat)
           (self : HTMLDocumentationGenerator) : option string :=
  let parser := gen_parser self in
  let html_head := _load_template fs (template_dir self) "html_head.html" in
  let html_footer := _load_template fs (template_dir self) "html_footer.html" in
  let javascript := _load_template fs (template_dir self) "scripts.js" in
  match str_format html_head "title" "Temporal Cloud Ops API Reference" with
  | None => None
  | Some head =>
      match _collect_referenced_types fs parser fuel
              (_referenced_types_cache self) with
      | None => None
      | Some (referenced_types, _) =>
          match services_docs fs parser referenced_types fuel
                  (dict_values (services parser)) with
          | None => None
          | Some docs =>
              match str_format html_footer "javascript" javascript with
              | None => None
              | Some footer =>
                  Some (join NL
                          ([head;
                            _generate_sidebar parser referenced_types;
                            qq "<main class=`main-content`>";
                            qq "<div class=`content-section`>";
                            "<h1>Temporal Cloud Ops API Reference</h1>";
                            "</div>"]
                           +++ docs
                           +++ _generate_types_section fs parser referenced_types
                           +++ [footer]))
              end
          end
      end
  end.

(** ** Vocabulary of the statements *)

(** *** Brace depth *)

(** The nesting depth after reading [s]: opening braces minus closing
    braces. *)
Definition brace_step (c : ascii) : Z :=
  if Ascii.eqb c "{" then 1%Z else if Ascii.eqb c "}" then (-1)%Z else 0%Z.

Fixpoint brace_depth (s : string) : Z :=
  match s with
  | EmptyString => 0%Z
  | String c s' => (brace_step c + brace_depth s')%Z
  end.

(** The depth after the characters [start .. j] of [content], both ends
    included. *)
Definition depth_between (content : string) (start j : nat) : Z :=
  brace_depth (substring start (j - start + 1) content).

(** *** Qualified keys *)

(** A key of [table] is hit by the qualification of another key: some
    entry [(k', e')] of a file with package [p] has [p.k' = k]. *)
Definition prefixed_from {E : Type} (source_file : E -> option string)
           (pkgs : pydict string) (table : pydict E) (k : string) (e' : E)
  : Prop :=
  exists k' f p,
    In (k', e') table /\ source_file e' = Some f /\ In (f, p) pkgs
    /\ k = p ++ "." ++ k'.

(** Where a binding of the qualified dictionary comes from: the entry of
    the table itself, or an entry whose prefixed name it is. *)
Definition written_from {E : Type} (source_file : E -> option string)
           (pkgs : pydict string) (table : pydict E) (k : string) (e : E)
  : Prop :=
  In (k, e) table \/ prefixed_from source_file pkgs table k e.

(** A list of strings without repetition, as a test. *)
Fixpoint nodupb (l : list string) : bool :=
  match l with
  | [] => true
  | x :: l' => negb (set_mem x l') && nodupb l'
  end.

(** *** Reference graphs *)

(** Every entry of a graph names a package, and none names a primary one. *)
Definition external_only (mains : list string) (graph : reference_graph) : Prop :=
  forall k obj pkg,
    In (k, (obj, pkg)) graph -> pkg <> "" /\ set_mem pkg mains = false.

(** *** HTTP bindings and field options *)

(** A text with a backslash character in it. *)
Fixpoint has_backslash (s : string) : bool :=
  match s with
  | EmptyString => false
  | String c s' => Ascii.eqb c "\" || has_backslash s'
  end.

(** The names and deprecated flags of the fields of the message [M] that
    the extractor finds in [content]. *)
Definition parsed_flags (content : string) : list (string * bool) :=
  match dict_get "M" (messages (_parse_messages new_parser content "m.proto")) with
  | Some m => map (fun f => (field_name f, is_deprecated f)) (msg_fields m)
  | None => []
  end.

(** *** Enum tables *)

(** Ascending order of the numbers of enum items. *)
Definition number_le (x y : string * Z) : Prop := (snd x <= snd y)%Z.

(** *** Example payloads *)

(** No type default, no timestamp, no name heuristic applies to [field]. *)
Definition no_heuristic_applies (field : ProtoField) : Prop :=
  type_examples (lower (last_dot_part (field_type field))) = None
  /\ str_contains "timestamp" (lower (last_dot_part (field_type field))) = false
  /\ endswith (field_name field) "_id" = false
  /\ str_contains "email" (lower (field_name field)) = false
  /\ str_contains "name" (lower (field_name field)) = false.

(** The example of the message registered under [name]. *)
Definition example_of (parser : ProtoParser) (name : string) : option json :=
  match dict_get name (messages parser) with
  | Some message => example_of_message parser 1000 message
  | None => None
  end.

(** *** Curl commands *)

(** A part of a curl command that is the verb flag, and one that is the
    request body. *)
Definition is_verb_flag (part : string) : bool := startswith part "-X ".
Definition is_body_flag (part : string) : bool := startswith part "-d ".

(** The multi-line layout of a command: every line but the last ends in a
    backslash, and every line but the first is indented. *)
Definition continued_lines (parts : list string) : list string :=
  [hd "" parts ++ " \"]
  +++ map (fun part => "  " ++ part ++ " \") (removelast (tl parts))
  +++ ["  " ++ last parts ""].

(** The parts of a curl command that do not depend on the request body. *)
Definition curl_fixed_parts (method : ProtoMethod) : list string :=
  ["curl"]
  +++ (if negb (String.eqb (http_method method) "")
          && negb (String.eqb (upper (http_method method)) "GET")
       then ["-X " ++ upper (http_method method)] else [])
  +++ [DQ ++ "https://saas-api.tmprl.cloud" ++ http_path method ++ DQ]
  +++ [qq "-H `Content-Type: application/json`";
       qq "-H `Authorization: Bearer YOUR_API_KEY`"].

(** *** Sections of a method block *)

(** The headings of the Request and Response sections, and the lines of a
    document that are neither. *)
Definition request_heading : string := "<h4>Request</h4>".
Definition response_heading : string := "<h4>Response</h4>".


(** Neither the input nor the output type of [method] is a key of the
    message table. *)
Definition unresolved (parser : ProtoParser) (method : ProtoMethod) : Prop :=
  dict_get (input_type method) (messages parser) = None
  /\ dict_get (output_type method) (messages parser) = None.

(** *** Ingestion *)

(** The text that the three extraction passes of [parse_file] read: the
    content without its comments. *)
Definition strip_comments (content : string) : string :=
  remove_all line_comment_pattern (remove_all block_comment_pattern content).

(** The last match of [matches] whose first group is [name]. *)
Definition last_named (name : string) (matches : list rmatch) : option rmatch :=
  find (fun m => String.eqb (group_or_empty 1 (m_groups m)) name) (rev matches).

(** A name without a dot, as every name that the extractor captures. *)
Definition dot_free (name : string) : Prop := str_contains "." name = false.

(** *** What a pattern can consume and capture *)

(** Every character of [s] passes the test [q]. *)
Fixpoint str_forall (q : ascii -> bool) (s : string) : bool :=
  match s with
  | EmptyString => true
  | String c s' => q c && str_forall q s'
  end.

(** The pattern [r] consumes only characters that pass [q]. *)
Fixpoint consumes (q : ascii -> bool) (r : regex) : Prop :=
  match r with
  | Eps | EndOfLine => True
  | Lit c => q c = true
  | Class p => forall c, p c = true -> q c = true
  | Cat a b | Alt a b => consumes q a /\ consumes q b
  | Star r' | LazyStar r' | Group _ r' => consumes q r'
  end.

(** Every group [n] of [r] consumes only characters that pass [Q n]. *)
Fixpoint groups_consume (Q : nat -> ascii -> bool) (r : regex) : Prop :=
  match r with
  | Group n r' => consumes (Q n) r' /\ groups_consume Q r'
  | Cat a b | Alt a b => groups_consume Q a /\ groups_consume Q b
  | Star r' | LazyStar r' => groups_consume Q r'
  | _ => True
  end.

(** Every captured text of group [n] passes [Q n]. *)
Definition captures_pass (Q : nat -> ascii -> bool) (cs : captures) : Prop :=
  forall n w, In (n, w) cs -> str_forall (Q n) w = true.

(** The characters of a dotted name. *)
Definition is_word_or_dot (c : ascii) : bool := is_word c || Ascii.eqb c ".".

(** A character that a name can hold whatever the alphabet of the text: a
    letter, a digit or the underscore of ASCII, or a character beyond
    ASCII.  Python's [\w] matches letters and digits of every alphabet,
    and of the ASCII characters exactly these. *)
Definition is_name_char (c : ascii) : bool :=
  is_word c || (128 <=? nat_of_ascii c).

Definition is_dotted_name_char (c : ascii) : bool :=
  is_name_char c || Ascii.eqb c ".".

(** *** Aliases *)

(** Every key of [table] is bound to the entity that the last dotted
    component of the key is bound to: a qualified key is an alias of a
    simple name. *)
Definition alias_consistent {E : Type} (table : pydict E) : Prop :=
  forall k e,
    dict_get k table = Some e -> dict_get (last_dot_part k) table = Some e.

(** *** Tests of the groups of the patterns *)

(** The tests of the groups of the message pattern, of the enum pattern and
    of the value pattern: group 1 is a word. *)
Definition name_group (n : nat) (c : ascii) : bool :=
  if Nat.eqb n 1 then is_word c else true.

(** The tests of the groups of the field pattern: the type (group 2) is a
    dotted name, the field name (group 3) a word, the number (group 4) is
    made of digits. *)
Definition field_group (n : nat) (c : ascii) : bool :=
  match n with
  | 2 => is_word_or_dot c
  | 3 => is_word c
  | 4 => is_digit c
  | _ => true
  end.

(** The tests of the groups of the [rpc] pattern: all three are words. *)
Definition rpc_group (n : nat) (c : ascii) : bool :=
  match n with
  | 1 | 2 | 3 => is_word c
  | _ => true
  end.

(** *** The ingestion loop *)

(** The first loop of [parse_repository]: every path of the walk that ends
    in [.proto] is parsed; a file that cannot be read is skipped. *)
Definition ingest (fs : filesystem) (walk : list string) (self : ProtoParser)
  : ProtoParser :=
  fold_left
    (fun self filepath =>
       if endswith filepath ".proto" then
         match parse_file fs self filepath with
         | Some self' => self'
         | None => self
         end
       else self)
    walk self.

(** The keys of [d] are distinct simple names. *)
Definition simple_keys {V : Type} (d : pydict V) : Prop :=
  NoDup (dict_keys d) /\ forall k, In k (dict_keys d) -> dot_free k.

(** The test of the group of the verb patterns: the path holds no double
    quote. *)
Definition path_group (n : nat) (c : ascii) : bool :=
  if Nat.eqb n 1 then negb (Ascii.eqb c dquote) else true.

(** *** Well-formed methods *)

(** What the extractor can have recorded for a method: three names without
    any ASCII character other than letters, digits and the underscore, no
    comment, and either no verb and no path, or one of the five upper-case
    verbs with a path that holds no double quote. *)
Definition well_formed_method (method : ProtoMethod) : Prop :=
  str_forall is_name_char (method_name method) = true
  /\ str_forall is_name_char (input_type method) = true
  /\ str_forall is_name_char (output_type method) = true
  /\ method_comment method = ""
  /\ ((http_method method = "" /\ http_path method = "")
      \/ (In (http_method method) ["GET"; "POST"; "PUT"; "DELETE"; "PATCH"]
          /\ str_forall (fun c => negb (Ascii.eqb c dquote)) (http_path method)
             = true)).

(** *** Entries of the reference graph *)

(** The type name is the type of a field, not deprecated, of a message of
    the registry. *)
Definition used_by_field (parser : ProtoParser) (type_name : string) : Prop :=
  exists name message field,
    dict_get name (messages parser) = Some message
    /\ In field (msg_fields message)
    /\ is_deprecated field = false
    /\ field_type field = type_name.

(** What justifies an entry of the graph: a field uses the type name, the
    name passes both filters, it resolves to the stored message (or, when no
    message has the name, to the stored enum), and the stored package is the
    package of the name, which is not a primary one. *)
Definition justified_entry (fs : filesystem) (parser : ProtoParser)
           (entry : string * (type_obj * string)) : Prop :=
  let type_name := fst entry in
  used_by_field parser type_name
  /\ _should_expand_type parser type_name = true
  /\ _is_type_relevant type_name = true
  /\ external_package (main_packages parser)
       (_get_type_package fs parser type_name) = Some (snd (snd entry))
  /\ match fst (snd entry) with
     | TMessage m => _resolve_type_reference parser type_name = Some m
     | TEnum e =>
         _resolve_type_reference parser type_name = None
         /\ _resolve_enum_reference parser type_name = Some e
     end.

(** *** The Types list of the navigation and of the appendix *)

(** The simple names that a Types list shows, in its order: the first entry
    of every simple name, sorted by simple name. *)
Definition listed_simple_names {A : Type} (items : list (string * A))
  : list string :=
  map (fun entry => last_dot_part (fst entry))
      (stable_sort by_simple_name (dedup_simple_names items [])).

(** The heading of the block of a type in the appendix. *)
Definition type_heading (simple_name : string) : string :=
  qq "<h4 id=`" ++ ("ref-" ++ lower simple_name) ++ qq "`>"
  ++ html_escape simple_name ++ "</h4>".

(** The entry of a type in the navigation. *)
Definition type_nav_item (simple_name : string) : list string :=
  ["<li>";
   qq "<a href=`#ref-" ++ lower simple_name ++ qq "` class=`nav-sublink`>"
   ++ simple_name ++ "</a>";
   "</li>"].

(** ** Sample inputs *)

(** Scenario 1: one file [demo.proto] and no template assets. *)
Definition scenario1_text : string :=
  "package demo; service Greeter { rpc SayHello(HelloRequest) returns (HelloReply) {} } message HelloRequest { string name = 1; } message HelloReply { string message = 1; }".

Definition scenario1_fs : filesystem :=
  fun path => if String.eqb path "demo.proto" then Some scenario1_text else None.

Definition scenario1_parser : ProtoParser :=
  parse_repository scenario1_fs ["demo.proto"] new_parser.

(** The registry of Scenario 1 after ingestion and the seeding of the
    built-in types, before any qualification. *)
Definition scenario1_ingested : ProtoParser :=
  _add_well_known_types (parse_content new_parser "demo.proto" scenario1_text).

(** The document of Scenario 1, rendered without template assets. *)
Definition scenario1_document : option string :=
  generate_html scenario1_fs 1000 (new_generator scenario1_parser "templates").

(** The Request section of Scenario 1 down to its only row. *)
Definition scenario1_request_rows : string :=
  join NL
    ["<h4>Request</h4>"; "<table>"; "<thead>"; "<tr>"; "<th>Parameter</th>";
     "<th>Type</th>"; "<th>Required</th>"; "<th>Description</th>"; "</tr>";
     "</thead>"; "<tbody>";
     "<tr>"; "<td><code>name</code></td>"; "<td>string</td>"; "<td>No</td>";
     "<td>No description available</td>"; "</tr>"].

(** Scenario 2: a method bound to [get: Q/v1/items/{id}Q] (Q the double
    quote). *)
Definition scenario2_text : string :=
  "package demo; service Items { rpc GetItem(GetItemRequest) returns (Item) { option (google.api.http) = { get: "
  ++ DQ ++ "/v1/items/{id}" ++ DQ
  ++ " }; } } message GetItemRequest { string id = 1; } message Item { string id = 1; }".

Definition scenario2_parser : ProtoParser :=
  parse_content new_parser "items.proto" scenario2_text.

Definition scenario2_method : ProtoMethod :=
  mk_method "GetItem" "GetItemRequest" "Item" "" "GET" "/v1/items/{id}" "".

(** Two registries for the Type Reference Graph.  In both, the service
    lives in [cloudservice.proto] (package [svc], the primary package) and
    the other types in [types.proto] (package [ext]).  In the first,
    [A] and [B] refer to each other.  In the second, [C] is reached twice
    from [Req]: through [B] and directly. *)
Definition cycle_service_text : string :=
  "package svc; service S { rpc M(Req) returns (Req) {} } message Req { A a = 1; }".

Definition cycle_types_text : string :=
  "package ext; message A { B b = 1; } message B { A a = 1; }".

Definition cycle_fs : filesystem :=
  fun path =>
    if String.eqb path "cloudservice.proto" then Some cycle_service_text
    else if String.eqb path "types.proto" then Some cycle_types_text
    else None.

Definition cycle_parser : ProtoParser :=
  parse_repository cycle_fs ["cloudservice.proto"; "types.proto"] new_parser.

Definition sibling_service_text : string :=
  "package svc; service S { rpc M(Req) returns (Req) {} } message Req { B b = 1; C c = 2; }".

Definition sibling_types_text : string :=
  "package ext; message B { C c = 1; } message C { D d = 1; } message D { E e = 1; } message E { F f = 1; } message F { string x = 1; }".

Definition sibling_fs : filesystem :=
  fun path =>
    if String.eqb path "cloudservice.proto" then Some sibling_service_text
    else if String.eqb path "types.proto" then Some sibling_types_text
    else None.

Definition sibling_parser : ProtoParser :=
  parse_repository sibling_fs ["cloudservice.proto"; "types.proto"] new_parser.

(** A method body with an HTTP binding and a body field-mask:
    [ option (google.api.http) = { post: Q/v1/namespacesQ body: Q*Q }; ]
    where Q is the double quote. *)
Definition binding_with_mask : string :=
  " option (google.api.http) = { post: " ++ DQ ++ "/v1/namespaces" ++ DQ
  ++ " body: " ++ DQ ++ "*" ++ DQ ++ " }; ".

Definition bare_method : ProtoMethod :=
  mk_method "CreateNamespace" "CreateNamespaceRequest"
            "CreateNamespaceResponse" "" "" "" "".

(** A message whose fields spell the deprecation marker in several ways. *)
Definition marker_variants_text : string :=
  "message M { string a = 1 [deprecated=true]; string b = 2 [deprecated =true]; string c = 3 [DEPRECATED = True]; string d = 4 [deprecated = true]; string e = 5; }".

(** An enum declared out of order, with two names for one number. *)
Definition unordered_enum : ProtoEnum :=
  mk_enum "Region"
          [("REGION_EU", 2%Z); ("REGION_UNSPECIFIED", 0%Z); ("REGION_US", 1%Z);
           ("REGION_EUROPE", 2%Z)]
          "" (Some "region.proto").

(** A registry for example payloads: [Outer] starts with a deprecated
    field and has four fields; its field [a] is itself a message. *)
Definition nested_text : string :=
  "message Outer { Inner gone = 1 [deprecated = true]; Inner a = 2; string b = 3; string c = 4; } message Inner { string x = 1; }".

Definition nested_parser : ProtoParser :=
  _parse_messages new_parser nested_text "nested.proto".

Definition payload_field : ProtoField :=
  mk_field "payload" "Outer" 1 "" "" false.

(** A message that refers to itself. *)
Definition node_parser : ProtoParser :=
  _parse_messages new_parser "message Node { Node next = 1; }" "node.proto".

Definition next_field : ProtoField := mk_field "next" "Node" 1 "" "" false.

(** A file system without any file, and a method whose types are not in
    the registry. *)
Definition no_files : filesystem := fun _ => None.

Definition dangling_parser : ProtoParser :=
  parse_content new_parser "svc.proto"
    "package svc; service S { rpc Ping(PingRequest) returns (PingReply) {} }".





(** * Properties *)

(** ** The Delimiter Matcher *)

Lemma substring_str_drop (start m : nat) (content : string) :
  substring start m content = substring 0 m (str_drop start content).
Proof.
  revert content; induction start as [|start IH]; intros content.
  - reflexivity.
  - destruct content as [|c content]; simpl.
    + destruct m; reflexivity.
    + apply IH.
Qed.

Lemma get_str_drop (start : nat) (content : string) (c : ascii) :
  String.get start content = Some c ->
  exists rest, str_drop start content = String c rest.
Proof.
  revert content; induction start as [|start IH]; intros [|c' content] H;
    simpl in *; try discriminate.
  - injection H as ->. now eexists.
  - now apply IH.
Qed.

Lemma length_str_drop (n : nat) (s : string) :
  String.length (str_drop n s) = String.length s - n.
Proof.
  revert s; induction n as [|n IH]; intros [|c s]; simpl; auto.
Qed.

Lemma brace_step_bounds (c : ascii) :
  (-1 <= brace_step c <= 1)%Z.
Proof.
  unfold brace_step. destruct (Ascii.eqb c "{"), (Ascii.eqb c "}"); lia.
Qed.

(** One round of the loop, in terms of [brace_step]. *)
Lemma find_brace_loop_step (c : ascii) (rest : string) (i count : Z) :
  find_brace_loop (String c rest) i count =
  if (brace_step c =? -1)%Z && (count + brace_step c =? 0)%Z then i
  else find_brace_loop rest (i + 1)%Z (count + brace_step c)%Z.
Proof.
  unfold brace_step; simpl.
  destruct (Ascii.eqb c "{") eqn:Ho.
  - simpl. reflexivity.
  - destruct (Ascii.eqb c "}") eqn:Hc; simpl.
    + replace (count + -1)%Z with (count - 1)%Z by lia. reflexivity.
    + now rewrite Z.add_0_r.
Qed.

Lemma find_brace_loop_closes (s : string) :
  forall (i count : Z) (n : nat),
    (0 < count)%Z ->
    n < String.length s ->
    (count + brace_depth (substring 0 (n + 1) s) = 0)%Z ->
    (forall k, k < n -> (count + brace_depth (substring 0 (k + 1) s) <> 0)%Z) ->
    find_brace_loop s i count = (i + Z.of_nat n)%Z.
Proof.
  induction s as [|c s IH]; intros i count n Hpos Hlen Hzero Hfirst.
  - simpl in Hlen; lia.
  - rewrite find_brace_loop_step.
    pose proof (brace_step_bounds c) as Hb.
    destruct n as [|n].
    + simpl in Hzero. destruct s; simpl in Hzero;
        rewrite Z.add_0_r in Hzero;
        (replace (brace_step c =? -1)%Z with true by (symmetry; apply Z.eqb_eq; lia));
        (replace (count + brace_step c =? 0)%Z with true by (symmetry; apply Z.eqb_eq; lia));
        simpl; lia.
    + assert (H0 : (count + brace_step c <> 0)%Z).
      { specialize (Hfirst 0 ltac:(lia)). simpl in Hfirst.
        destruct s; simpl in Hfirst; lia. }
      replace (count + brace_step c =? 0)%Z with false
        by (symmetry; apply Z.eqb_neq; exact H0).
      rewrite andb_false_r.
      rewrite (IH (i + 1)%Z (count + brace_step c)%Z n); try lia.
      * simpl in Hlen; lia.
      * simpl in Hzero. lia.
      * intros k Hk. specialize (Hfirst (S k) ltac:(lia)).
        simpl in Hfirst. lia.
Qed.

Lemma find_brace_loop_open (s : string) :
  forall (i count : Z),
    (0 < count)%Z ->
    (forall n, n < String.length s ->
               (count + brace_depth (substring 0 (n + 1) s) <> 0)%Z) ->
    find_brace_loop s i count = (-1)%Z.
Proof.
  induction s as [|c s IH]; intros i count Hpos Hopen.
  - reflexivity.
  - rewrite find_brace_loop_step.
    pose proof (brace_step_bounds c) as Hb.
    assert (H0 : (count + brace_step c <> 0)%Z).
    { specialize (Hopen 0 ltac:(simpl; lia)). simpl in Hopen.
      destruct s; simpl in Hopen; lia. }
    replace (count + brace_step c =? 0)%Z with false
      by (symmetry; apply Z.eqb_neq; exact H0).
    rewrite andb_false_r.
    apply IH; try lia.
    intros n Hn. specialize (Hopen (S n) ltac:(simpl; lia)).
    simpl in Hopen. lia.
Qed.

(** C1. For every text and every start index that holds an opening brace:
    when the depth counted from the start index first returns to zero at
    index [j], [_find_matching_brace] returns exactly [j]; when the depth
    never returns to zero before the text ends, it returns -1. *)
Theorem find_matching_brace_correct (content : string) (start : nat) :
  String.get start content = Some "{"%char ->
  (forall j,
      start <= j < String.length content ->
      depth_between content start j = 0%Z ->
      (forall k, start <= k < j -> depth_between content start k <> 0%Z) ->
      _find_matching_brace content (Z.of_nat start) = Z.of_nat j)
  /\ ((forall j, start <= j < String.length content ->
                 depth_between content start j <> 0%Z) ->
      _find_matching_brace content (Z.of_nat start) = (-1)%Z).
Proof.
  intros Hget.
  destruct (get_str_drop _ _ _ Hget) as [rest Hrest].
  assert (Hlen : String.length content - start = S (String.length rest)).
  { rewrite <- length_str_drop, Hrest. reflexivity. }
  assert (Hrun : _find_matching_brace content (Z.of_nat start)
                 = find_brace_loop rest (Z.of_nat start + 1)%Z 1%Z).
  { unfold _find_matching_brace, py_slice_from.
    replace (Z.of_nat start <? 0)%Z with false by (symmetry; apply Z.ltb_ge; lia).
    rewrite Nat2Z.id, Hrest. reflexivity. }
  assert (Hdepth : forall j, start <= j ->
            depth_between content start j
            = (1 + brace_depth (substring 0 (j - start) rest))%Z).
  { intros j Hj. unfold depth_between.
    rewrite substring_str_drop, Hrest.
    replace (j - start + 1) with (S (j - start)) by lia. reflexivity. }
  split.
  - intros j Hj Hzero Hfirst.
    assert (start < j).
    { destruct (Nat.eq_dec j start) as [->|]; [|lia].
      rewrite Hdepth in Hzero by lia. rewrite Nat.sub_diag in Hzero.
      destruct rest; simpl in Hzero; lia. }
    rewrite Hrun.
    rewrite (find_brace_loop_closes rest _ _ (j - start - 1)); try lia.
    + rewrite Hdepth in Hzero by lia.
      replace (j - start - 1 + 1) with (j - start) by lia. lia.
    + intros k Hk. specialize (Hfirst (start + k + 1) ltac:(lia)).
      rewrite Hdepth in Hfirst by lia.
      replace (start + k + 1 - start) with (k + 1) in Hfirst by lia. lia.
  - intros Hopen. rewrite Hrun.
    apply find_brace_loop_open; try lia.
    intros n Hn. specialize (Hopen (start + n + 1) ltac:(lia)).
    rewrite Hdepth in Hopen by lia.
    replace (start + n + 1 - start) with (n + 1) in Hopen by lia. lia.
Qed.

(** The theorem at work: the brace at index 1 of [a{b{c}d}e] closes at
    index 7, and the one of [a{b{c}] never closes. *)
Lemma find_matching_brace_correct_witness :
  _find_matching_brace "a{b{c}d}e" 1%Z = 7%Z
  /\ _find_matching_brace "a{b{c}" 1%Z = (-1)%Z.
Proof.
  split.
  - destruct (find_matching_brace_correct "a{b{c}d}e" 1 eq_refl) as [H _].
    apply (H 7).
    + simpl; lia.
    + reflexivity.
    + intros k Hk.
      assert (Hcases : k = 1 \/ k = 2 \/ k = 3 \/ k = 4 \/ k = 5 \/ k = 6) by lia.
      destruct Hcases as [->|[->|[->|[->|[->| ->]]]]]; vm_compute; discriminate.
  - destruct (find_matching_brace_correct "a{b{c}" 1 eq_refl) as [_ H].
    apply H. intros j Hj. simpl in Hj.
    assert (Hcases : j = 1 \/ j = 2 \/ j = 3 \/ j = 4 \/ j = 5) by lia.
    destruct Hcases as [->|[->|[->|[->| ->]]]]; vm_compute; discriminate.
Defined.

(** ** Dictionaries *)

Section DictFacts.
Context {V : Type}.
Implicit Types (d q : pydict V) (k : string) (v : V).

Lemma dict_get_set k k1 v1 d :
  dict_get k (dict_set k1 v1 d)
  = if String.eqb k k1 then Some v1 else dict_get k d.
Proof.
  induction d as [|[k' v'] d IH]; simpl.
  - now rewrite (String.eqb_sym k k1).
  - destruct (String.eqb k1 k') eqn:E1; simpl.
    + apply String.eqb_eq in E1; subst k'.
      destruct (String.eqb k k1); reflexivity.
    + destruct (String.eqb k k') eqn:E2.
      * apply String.eqb_eq in E2; subst k'.
        rewrite String.eqb_sym, E1. reflexivity.
      * exact IH.
Qed.

Lemma in_dict_set k v k1 v1 d :
  In (k, v) (dict_set k1 v1 d) -> (k, v) = (k1, v1) \/ In (k, v) d.
Proof.
  induction d as [|[k' v'] d IH]; simpl.
  - intros [H|[]]; auto.
  - destruct (String.eqb k1 k') eqn:E1; simpl.
    + apply String.eqb_eq in E1; subst k'. intros [H|H]; auto.
    + intros [H|H]; auto. destruct (IH H); auto.
Qed.

Lemma dict_mem_set k k1 v1 d :
  dict_mem k (dict_set k1 v1 d) = String.eqb k k1 || dict_mem k d.
Proof.
  unfold dict_mem. rewrite dict_get_set.
  destruct (String.eqb k k1); reflexivity.
Qed.

Lemma in_dict_get k v d :
  NoDup (dict_keys d) -> In (k, v) d -> dict_get k d = Some v.
Proof.
  induction d as [|[k' v'] d IH]; simpl; intros Hnd Hin; [easy|].
  inversion Hnd as [|? ? Hnotin Hnd']; subst.
  destruct Hin as [Heq|Hin].
  - injection Heq as -> ->. now rewrite String.eqb_refl.
  - destruct (String.eqb k k') eqn:E.
    + apply String.eqb_eq in E; subst k'.
      exfalso. apply Hnotin. change k with (fst (k, v)).
      now apply in_map.
    + now apply IH.
Qed.

Lemma dict_get_in k v d : dict_get k d = Some v -> In (k, v) d.
Proof.
  induction d as [|[k' v'] d IH]; simpl; [easy|].
  destruct (String.eqb k k') eqn:E.
  - apply String.eqb_eq in E; subst k'. intros [= ->]. now left.
  - intros H. right. now apply IH.
Qed.

Lemma dict_mem_update_l k d q :
  dict_mem k d = true -> dict_mem k (dict_update d q) = true.
Proof.
  unfold dict_update. revert d.
  induction q as [|[k1 v1] q IH]; simpl; intros d Hd; [exact Hd|].
  apply IH. rewrite dict_mem_set, Hd. apply orb_true_r.
Qed.

Lemma dict_mem_update_r k d q :
  dict_mem k q = true -> dict_mem k (dict_update d q) = true.
Proof.
  unfold dict_update. revert d.
  induction q as [|[k1 v1] q IH]; simpl; intros d Hq.
  - discriminate.
  - unfold dict_mem in Hq. simpl in Hq.
    destruct (String.eqb k k1) eqn:E.
    + apply (dict_mem_update_l k (dict_set k1 v1 d) q).
      rewrite dict_mem_set, E. reflexivity.
    + now apply IH.
Qed.

(** A binding survives an update in which every write to its key writes
    the value it already has. *)
Lemma dict_get_update_same k v d q :
  dict_get k d = Some v ->
  (forall v', In (k, v') q -> v' = v) ->
  dict_get k (dict_update d q) = Some v.
Proof.
  unfold dict_update. revert d.
  induction q as [|[k1 v1] q IH]; simpl; intros d Hd Hq; [exact Hd|].
  apply IH.
  - rewrite dict_get_set. destruct (String.eqb k k1) eqn:E; [|exact Hd].
    apply String.eqb_eq in E; subst k1.
    f_equal. apply Hq. now left.
  - intros v' Hin. apply Hq. now right.
Qed.

Lemma dict_keys_set k v d :
  dict_keys (dict_set k v d)
  = if dict_mem k d then dict_keys d else (dict_keys d ++ [k])%list.
Proof.
  unfold dict_mem.
  induction d as [|[k' v'] d IH]; simpl; [reflexivity|].
  destruct (String.eqb k k') eqn:E; simpl; [reflexivity|].
  rewrite IH. destruct (dict_get k d); reflexivity.
Qed.

Lemma dict_mem_keys k d : dict_mem k d = true <-> In k (dict_keys d).
Proof.
  unfold dict_mem.
  induction d as [|[k' v'] d IH]; simpl; [easy|].
  destruct (String.eqb k k') eqn:E.
  - apply String.eqb_eq in E. subst. tauto.
  - apply String.eqb_neq in E. rewrite IH.
    split; [tauto|]. intros [H|H]; [congruence|exact H].
Qed.

Lemma NoDup_dict_set k v d :
  NoDup (dict_keys d) -> NoDup (dict_keys (dict_set k v d)).
Proof.
  intros Hnd. rewrite dict_keys_set.
  destruct (dict_mem k d) eqn:E; [exact Hnd|].
  apply NoDup_app; [exact Hnd|repeat constructor; easy|].
  intros x Hx [<-|[]]. apply dict_mem_keys in Hx. congruence.
Qed.

Lemma NoDup_dict_update d q :
  NoDup (dict_keys d) -> NoDup (dict_keys (dict_update d q)).
Proof.
  unfold dict_update. revert d.
  induction q as [|[k1 v1] q IH]; simpl; intros d Hd; [exact Hd|].
  apply IH. now apply NoDup_dict_set.
Qed.
End DictFacts.

(** ** The Qualification Resolver *)

Section QualifyFacts.
Context {E : Type} (source_file : E -> option string).
Implicit Types (table q : pydict E) (pkgs : pydict string).

Lemma qualify_file_origin f p pkgs table items q :
  In (f, p) pkgs ->
  (forall x, In x items -> In x table) ->
  (forall k e, In (k, e) q -> written_from source_file pkgs table k e) ->
  forall k e,
    In (k, e) (fold_left
                 (fun qualified (item : string * E) =>
                    let (name, obj) := item in
                    match source_file obj with
                    | Some f' =>
                        if String.eqb f' f then
                          dict_set name obj
                            (dict_set (p ++ "." ++ name) obj qualified)
                        else qualified
                    | None => qualified
                    end) items q) ->
    written_from source_file pkgs table k e.
Proof.
  intros Hfp. revert q.
  induction items as [|[name obj] items IH]; simpl; intros q Hsub Hq k e Hin.
  - now apply Hq.
  - apply (IH _ (fun x Hx => Hsub x (or_intror Hx))) in Hin; [exact Hin|].
    clear Hin k e. intros k e Hin.
    destruct (source_file obj) as [f'|] eqn:Hsrc; [|now apply Hq].
    destruct (String.eqb f' f) eqn:Hf; [|now apply Hq].
    apply String.eqb_eq in Hf; subst f'.
    apply in_dict_set in Hin. destruct Hin as [Heq|Hin].
    + injection Heq as -> ->. left. apply Hsub. now left.
    + apply in_dict_set in Hin. destruct Hin as [Heq|Hin]; [|now apply Hq].
      injection Heq as -> ->. right. exists name, f, p.
      repeat split; auto; apply Hsub; now left.
Qed.

Lemma qualified_names_origin pkgs table k e :
  In (k, e) (qualified_names source_file pkgs table) ->
  written_from source_file pkgs table k e.
Proof.
  unfold qualified_names.
  enough (H : forall done todo q,
             pkgs = (done ++ todo)%list ->
             (forall k e, In (k, e) q -> written_from source_file pkgs table k e) ->
             forall k e,
               In (k, e) (fold_left
                            (fun qualified (fp : string * string) =>
                               qualify_file source_file (fst fp) (snd fp)
                                            table qualified) todo q) ->
               written_from source_file pkgs table k e).
  { apply (H [] pkgs []); [reflexivity|]. intros ? ? []. }
  intros done todo; revert done.
  induction todo as [|[f p] todo IH]; simpl; intros done q Hpk Hq k' e' Hin.
  - now apply Hq.
  - apply (IH (done ++ [(f, p)])%list) in Hin; [exact Hin| |].
    + now rewrite <- app_assoc.
    + unfold qualify_file. apply qualify_file_origin; auto.
      rewrite Hpk. apply in_or_app. right. now left.
Qed.

Lemma qualify_file_keeps f p table q k :
  dict_mem k q = true ->
  dict_mem k (qualify_file source_file f p table q) = true.
Proof.
  unfold qualify_file. revert q.
  induction table as [|[name obj] table IH]; simpl; intros q Hq; [exact Hq|].
  apply IH.
  destruct (source_file obj) as [f'|]; [|exact Hq].
  destruct (String.eqb f' f); [|exact Hq].
  rewrite !dict_mem_set, Hq. now rewrite !orb_true_r.
Qed.

Lemma qualify_file_adds f p table q k e :
  In (k, e) table -> source_file e = Some f ->
  dict_mem (p ++ "." ++ k) (qualify_file source_file f p table q) = true.
Proof.
  unfold qualify_file. revert q.
  induction table as [|[name obj] table IH]; simpl; intros q Hin Hsrc; [easy|].
  destruct Hin as [Heq|Hin].
  - injection Heq as -> ->. rewrite Hsrc, String.eqb_refl.
    apply (qualify_file_keeps f p table).
    rewrite !dict_mem_set, String.eqb_refl. now rewrite orb_true_r.
  - now apply IH.
Qed.

Lemma qualified_names_adds pkgs table k e f p :
  In (k, e) table -> source_file e = Some f -> In (f, p) pkgs ->
  dict_mem (p ++ "." ++ k) (qualified_names source_file pkgs table) = true.
Proof.
  intros Hin Hsrc. unfold qualified_names. generalize (@nil (string * E)).
  induction pkgs as [|[f' p'] pkgs IH]; simpl; intros q Hfp; [easy|].
  destruct Hfp as [Heq|Hfp].
  - injection Heq as -> ->.
    assert (Hnow : dict_mem (p ++ "." ++ k)
                     (qualify_file source_file f p table q) = true)
      by (eapply qualify_file_adds; eauto).
    revert Hnow. generalize (qualify_file source_file f p table q).
    clear IH. induction pkgs as [|[f2 p2] pkgs IH2]; simpl; intros q' Hq'.
    + exact Hq'.
    + apply IH2. now apply qualify_file_keeps.
  - now apply IH.
Qed.

(** What one run of the qualification does to any table. *)
Lemma qualify_run pkgs table :
  NoDup (dict_keys table) ->
  NoDup (dict_keys (qualify source_file pkgs table))
  /\ (forall k, dict_mem k table = true ->
                dict_mem k (qualify source_file pkgs table) = true)
  /\ (forall k e,
         dict_get k table = Some e ->
         (forall e', prefixed_from source_file pkgs table k e' -> e' = e) ->
         dict_get k (qualify source_file pkgs table) = Some e)
  /\ (forall k e f p,
         In (k, e) table -> source_file e = Some f -> In (f, p) pkgs ->
         dict_mem (p ++ "." ++ k) (qualify source_file pkgs table) = true).
Proof.
  intros Hnd. unfold qualify. repeat split.
  - now apply NoDup_dict_update.
  - intros k. apply dict_mem_update_l.
  - intros k e Hget Hfree. apply dict_get_update_same; [exact Hget|].
    intros v' Hin. apply qualified_names_origin in Hin.
    destruct Hin as [Hin|Hpre].
    + apply (in_dict_get _ _ _ Hnd) in Hin. congruence.
    + now apply Hfree.
  - intros k e f p Hin Hsrc Hfp. apply dict_mem_update_r.
    eapply qualified_names_adds; eauto.
Qed.
End QualifyFacts.

Lemma set_mem_in (x : string) (l : list string) :
  set_mem x l = true <-> In x l.
Proof.
  unfold set_mem. rewrite existsb_exists. split.
  - intros [y [Hy Heq]]. apply String.eqb_eq in Heq. now subst.
  - intros H. exists x. split; [exact H|apply String.eqb_refl].
Qed.

Lemma nodupb_sound (l : list string) : nodupb l = true -> NoDup l.
Proof.
  induction l as [|x l IH]; simpl; intros H; constructor.
  - apply andb_prop in H. destruct H as [H _].
    intros Hin. apply set_mem_in in Hin. rewrite Hin in H. discriminate.
  - apply IH. now apply andb_prop in H.
Qed.

(** C2, as amended.  A second run of [_build_qualified_names] keeps every
    key of the first run, and keeps a key bound to the same entity whenever
    no other entity's package-prefixed key falls on it; but it is not an
    identity: for every key [k] of the first run (qualified or not) whose
    entity comes from a file with package [p], the second run binds the
    further key [p.k].  The same holds for messages and for enums. *)
Theorem build_qualified_names_rerun (self : ProtoParser) :
  NoDup (dict_keys (messages self)) ->
  NoDup (dict_keys (enums self)) ->
  let once := _build_qualified_names self in
  let twice := _build_qualified_names once in
  ((forall k, dict_mem k (messages once) = true ->
              dict_mem k (messages twice) = true)
   /\ (forall k m,
          dict_get k (messages once) = Some m ->
          (forall m', prefixed_from msg_source_file (packages once)
                                    (messages once) k m' -> m' = m) ->
          dict_get k (messages twice) = Some m)
   /\ (forall k m f p,
          In (k, m) (messages once) -> msg_source_file m = Some f ->
          In (f, p) (packages once) ->
          dict_mem (p ++ "." ++ k) (messages twice) = true))
  /\ ((forall k, dict_mem k (enums once) = true ->
                 dict_mem k (enums twice) = true)
      /\ (forall k e,
             dict_get k (enums once) = Some e ->
             (forall e', prefixed_from enum_source_file (packages once)
                                       (enums once) k e' -> e' = e) ->
             dict_get k (enums twice) = Some e)
      /\ (forall k e f p,
             In (k, e) (enums once) -> enum_source_file e = Some f ->
             In (f, p) (packages once) ->
             dict_mem (p ++ "." ++ k) (enums twice) = true)).
Proof.
  intros Hm He once twice.
  destruct (qualify_run msg_source_file (packages self) (messages self) Hm)
    as [Hm1 _].
  destruct (qualify_run enum_source_file (packages self) (enums self) He)
    as [He1 _].
  split.
  - destruct (qualify_run msg_source_file (packages once) (messages once) Hm1)
      as [_ H]. exact H.
  - destruct (qualify_run enum_source_file (packages once) (enums once) He1)
      as [_ H]. exact H.
Qed.

(** The theorem on the registry of Scenario 1: the second run binds the
    doubly-qualified key. *)
Lemma build_qualified_names_rerun_witness :
  dict_mem "demo.demo.HelloRequest"
           (messages (_build_qualified_names
                        (_build_qualified_names scenario1_ingested))) = true.
Proof.
  assert (Hm : NoDup (dict_keys (messages scenario1_ingested)))
    by (apply nodupb_sound; vm_compute; reflexivity).
  assert (He : NoDup (dict_keys (enums scenario1_ingested)))
    by (apply nodupb_sound; vm_compute; reflexivity).
  destruct (build_qualified_names_rerun scenario1_ingested Hm He)
    as [[_ [_ H]] _].
  apply (H "demo.HelloRequest"
           (mk_message "HelloRequest"
              [mk_field "name" "string" 1 "" "" false] "" (Some "demo.proto"))
           "demo.proto" "demo").
  - apply dict_get_in. vm_compute. reflexivity.
  - reflexivity.
  - apply dict_get_in. vm_compute. reflexivity.
Defined.

(** C2, as stated, fails on the registry of Scenario 1: the key
    [demo.demo.HelloRequest] is absent after the run that
    [parse_repository] makes and present after a second run, and the
    second run has more keys than the first. *)
Lemma build_qualified_names_not_idempotent :
  dict_mem "demo.demo.HelloRequest" (messages scenario1_parser) = false
  /\ dict_mem "demo.demo.HelloRequest"
              (messages (_build_qualified_names scenario1_parser)) = true
  /\ List.length (dict_keys (messages scenario1_parser)) = 16
  /\ List.length
       (dict_keys (messages (_build_qualified_names scenario1_parser))) = 22.
Proof.
  vm_compute. repeat split.
Qed.

(** ** The Type Reference Graph *)

Section CollectFacts.
Variable fs : filesystem.
Variable parser : ProtoParser.

Lemma external_package_sound (mains : list string) (tp : option string) (p : string) :
  external_package mains tp = Some p -> p <> "" /\ set_mem p mains = false.
Proof.
  unfold external_package. destruct tp as [q|]; [|discriminate].
  destruct (String.eqb q "") eqn:Hq; simpl; [discriminate|].
  destruct (set_mem q mains) eqn:Hm; simpl; [discriminate|].
  intros [= <-]. split; [now apply String.eqb_neq|exact Hm].
Qed.

Lemma external_only_set (mains : list string) (graph : reference_graph)
      (k : string) (obj : type_obj) (p : string) :
  external_only mains graph ->
  p <> "" /\ set_mem p mains = false ->
  external_only mains (dict_set k (obj, p) graph).
Proof.
  intros Hg Hp k' obj' pkg' Hin.
  apply in_dict_set in Hin. destruct Hin as [Heq|Hin].
  - injection Heq as -> -> ->. exact Hp.
  - now apply (Hg k' obj').
Qed.

(** The loop over the fields keeps the graph external, provided the
    recursive calls do. *)
Lemma collect_fields_external recurse visited depth fields :
  (forall m v d g g',
      external_only (main_packages parser) g ->
      recurse m v d g = Some g' ->
      external_only (main_packages parser) g') ->
  forall g g',
    external_only (main_packages parser) g ->
    collect_fields fs parser recurse visited depth fields g = Some g' ->
    external_only (main_packages parser) g'.
Proof.
  intros Hrec.
  induction fields as [|field fields IH]; simpl; intros g g' Hg Hrun.
  - now injection Hrun as <-.
  - destruct (is_deprecated field); [now apply (IH g)|].
    destruct (_should_expand_type parser (field_type field)); [|now apply (IH g)].
    destruct (_resolve_type_reference parser (field_type field)) as [m|].
    + destruct (external_package _ _) as [p|] eqn:Hp; [|now apply (IH g)].
      destruct (_is_type_relevant (field_type field)); [|now apply (IH g)].
      destruct (recurse m visited (depth + 1) _) as [g1|] eqn:Hr; [|discriminate].
      apply (IH g1); [|exact Hrun].
      eapply Hrec; [|exact Hr].
      apply external_only_set; [exact Hg|].
      eapply external_package_sound; eauto.
    + destruct (_resolve_enum_reference parser (field_type field)) as [e|];
        [|now apply (IH g)].
      destruct (external_package _ _) as [p|] eqn:Hp; [|now apply (IH g)].
      destruct (_is_type_relevant (field_type field)); [|now apply (IH g)].
      eapply IH; [|exact Hrun].
      apply external_only_set; [exact Hg|].
      eapply external_package_sound; eauto.
Qed.

Lemma collect_from_message_external fuel :
  forall message visited depth g g',
    external_only (main_packages parser) g ->
    collect_from_message fs parser fuel message visited depth g = Some g' ->
    external_only (main_packages parser) g'.
Proof.
  induction fuel as [|fuel IH]; simpl; intros message visited depth g g' Hg Hrun.
  - discriminate.
  - destruct (set_mem (msg_name message) visited || (2 <? depth)).
    + now injection Hrun as <-.
    + eapply collect_fields_external; [|exact Hg|exact Hrun].
      intros m v d g0 g0'. apply IH.
Qed.

(** The loop over the fields returns, provided the recursive calls do. *)
Lemma collect_fields_returns recurse visited depth fields :
  (forall m v g, exists g', recurse m v (depth + 1) g = Some g') ->
  forall g, exists g',
    collect_fields fs parser recurse visited depth fields g = Some g'.
Proof.
  intros Hrec.
  induction fields as [|field fields IH]; simpl; intros g.
  - now eexists.
  - destruct (is_deprecated field); [apply IH|].
    destruct (_should_expand_type parser (field_type field)); [|apply IH].
    destruct (_resolve_type_reference parser (field_type field)) as [m|].
    + destruct (external_package _ _) as [p|]; [|apply IH].
      destruct (_is_type_relevant (field_type field)); [|apply IH].
      destruct (Hrec m visited
                  (dict_set (field_type field) (TMessage m, p) g)) as [g1 ->].
      apply IH.
    + destruct (_resolve_enum_reference parser (field_type field)) as [e|];
        [|apply IH].
      destruct (external_package _ _) as [p|]; [|apply IH].
      destruct (_is_type_relevant (field_type field)); apply IH.
Qed.

(** Four nested calls are always enough: a call at depth [d] needs at most
    [4 - d] of them. *)
Lemma collect_from_message_returns fuel :
  forall message visited depth g,
    4 <= fuel + depth -> 1 <= fuel ->
    exists g', collect_from_message fs parser fuel message visited depth g = Some g'.
Proof.
  induction fuel as [|fuel IH]; intros message visited depth g Hfuel Hpos.
  - lia.
  - simpl.
    destruct (set_mem (msg_name message) visited) eqn:Hv; simpl.
    + now eexists.
    + destruct (2 <? depth) eqn:Hd.
      * now eexists.
      * apply Nat.ltb_ge in Hd.
        apply collect_fields_returns.
        intros m v g0. apply IH; lia.
Qed.

Lemma collect_from_type_facts fuel type_name g :
  (4 <= fuel -> exists g', collect_from_type fs parser fuel type_name g = Some g')
  /\ (forall g', external_only (main_packages parser) g ->
                 collect_from_type fs parser fuel type_name g = Some g' ->
                 external_only (main_packages parser) g').
Proof.
  unfold collect_from_type. split.
  - intros Hfuel.
    destruct (String.eqb type_name ""); [now eexists|].
    destruct (dict_get type_name (messages parser)) as [m|]; [|now eexists].
    apply collect_from_message_returns; lia.
  - intros g' Hg.
    destruct (String.eqb type_name ""); [now intros [= <-]|].
    destruct (dict_get type_name (messages parser)) as [m|];
      [|now intros [= <-]].
    now apply collect_from_message_external.
Qed.

Lemma collect_from_methods_facts fuel methods :
  forall g,
    (4 <= fuel ->
     exists g', collect_from_methods fs parser fuel methods g = Some g')
    /\ (forall g', external_only (main_packages parser) g ->
                   collect_from_methods fs parser fuel methods g = Some g' ->
                   external_only (main_packages parser) g').
Proof.
  induction methods as [|method methods IH]; simpl; intros g.
  - split; [now eexists|now intros g' Hg [= <-]].
  - destruct (collect_from_type_facts fuel (input_type method) g) as [Hin1 Hin2].
    split.
    + intros Hfuel. destruct (Hin1 Hfuel) as [g1 ->].
      destruct (collect_from_type_facts fuel (output_type method) g1) as [Hout1 _].
      destruct (Hout1 Hfuel) as [g2 ->].
      now apply IH.
    + intros g' Hg.
      destruct (collect_from_type _ _ fuel (input_type method) g) as [g1|] eqn:H1;
        [|discriminate].
      destruct (collect_from_type_facts fuel (output_type method) g1) as [_ Hout2].
      destruct (collect_from_type _ _ fuel (output_type method) g1) as [g2|] eqn:H2;
        [|discriminate].
      apply IH. apply Hout2; [|reflexivity]. now apply Hin2.
Qed.

Lemma collect_from_services_facts fuel svcs :
  forall g,
    (4 <= fuel ->
     exists g', collect_from_services fs parser fuel svcs g = Some g')
    /\ (forall g', external_only (main_packages parser) g ->
                   collect_from_services fs parser fuel svcs g = Some g' ->
                   external_only (main_packages parser) g').
Proof.
  induction svcs as [|service svcs IH]; simpl; intros g.
  - split; [now eexists|now intros g' Hg [= <-]].
  - destruct (collect_from_methods_facts fuel (service_methods service) g)
      as [Hm1 Hm2].
    split.
    + intros Hfuel. destruct (Hm1 Hfuel) as [g1 ->]. now apply IH.
    + intros g' Hg.
      destruct (collect_from_methods _ _ fuel _ g) as [g1|] eqn:H1;
        [|discriminate].
      apply IH. now apply Hm2.
Qed.

Lemma copy_graph_in (g : reference_graph) (x : string * (type_obj * string)) :
  In x (copy_graph g) -> In x g.
Proof.
  unfold copy_graph.
  enough (H : forall acc, In x (fold_left
                                  (fun acc kv => dict_set (fst kv) (snd kv) acc)
                                  g acc) -> In x acc \/ In x g).
  { intros Hin. destruct (H [] Hin) as [[]|]; assumption. }
  induction g as [|[k v] g IH]; simpl; intros acc Hin; [now left|].
  destruct (IH _ Hin) as [Hacc|Hg]; [|now right; right].
  destruct x as [k' v']. apply in_dict_set in Hacc.
  destruct Hacc as [Heq|Hacc]; [right; left; now symmetry|now left].
Qed.

(** C3. For every registry and file system: (1) no entry of the mapping
    that [_collect_referenced_types] computes has a primary package as its
    owning package; (2) the traversal always ends within four nested calls,
    whatever cycles the registry holds: the calls run at depths 0 to 3;
    (3) a call at a depth above 2 returns at once and adds nothing; (4) the
    set of visited names that the loop over the fields works with is the
    same for every field, whatever the recursive call under an earlier
    field has visited. *)
Theorem collect_referenced_types_bounded :
  (forall fuel graph cache,
      _collect_referenced_types fs parser fuel None = Some (graph, cache) ->
      forall k obj pkg,
        In (k, (obj, pkg)) graph ->
        set_mem pkg (main_packages parser) = false)
  /\ (forall fuel, 4 <= fuel ->
        exists graph,
          _collect_referenced_types fs parser fuel None = Some (graph, Some graph))
  /\ (forall fuel message visited depth graph,
        2 < depth ->
        collect_from_message fs parser (S fuel) message visited depth graph
        = Some graph)
  /\ (forall recurse visited depth field fields graph,
        collect_fields fs parser recurse visited depth (field :: fields) graph
        = match collect_fields fs parser recurse visited depth [field] graph with
          | Some graph' =>
              collect_fields fs parser recurse visited depth fields graph'
          | None => None
          end).
Proof.
  repeat split.
  - intros fuel graph cache. unfold _collect_referenced_types.
    destruct (collect_from_services fs parser fuel _ []) as [g|] eqn:Hrun;
      [|discriminate].
    intros [= <- _] k obj pkg Hin.
    apply copy_graph_in in Hin.
    destruct (collect_from_services_facts fuel (dict_values (services parser)) [])
      as [_ Hext].
    assert (Hg : external_only (main_packages parser) g).
    { apply Hext; [|exact Hrun]. intros ? ? ? []. }
    now apply (Hg k obj pkg).
  - intros fuel Hfuel. unfold _collect_referenced_types.
    destruct (collect_from_services_facts fuel (dict_values (services parser)) [])
      as [Hret _].
    destruct (Hret Hfuel) as [g ->]. now eexists.
  - intros fuel message visited depth graph Hd. simpl.
    apply Nat.ltb_lt in Hd. rewrite Hd, orb_true_r. reflexivity.
  - intros recurse visited depth field fields graph. simpl.
    destruct (is_deprecated field); [reflexivity|].
    destruct (_should_expand_type parser (field_type field)); [|reflexivity].
    destruct (_resolve_type_reference parser (field_type field)) as [m|].
    + destruct (external_package _ _) as [p|]; [|reflexivity].
      destruct (_is_type_relevant (field_type field)); [|reflexivity].
      destruct (recurse m visited (depth + 1) _); reflexivity.
    + destruct (_resolve_enum_reference parser (field_type field)) as [e|];
        [|reflexivity].
      destruct (external_package _ _) as [p|]; [|reflexivity].
      destruct (_is_type_relevant (field_type field)); reflexivity.
Qed.
End CollectFacts.

(** The graph of the registry in which [A] and [B] refer to each other:
    four nested calls compute it, three do not. *)
Example collect_on_reference_cycle :
  option_map (fun r => map (fun entry => (fst entry, snd (snd entry))) (fst r))
             (_collect_referenced_types cycle_fs cycle_parser 4 None)
  = Some [("A", "ext"); ("B", "ext")]
  /\ _collect_referenced_types cycle_fs cycle_parser 3 None = None
  /\ main_packages cycle_parser = ["svc"].
Proof.
  vm_compute. repeat split.
Qed.

(** Siblings do not suppress each other: [C] is first visited below [B],
    at depth 2, where its field of type [D] is recorded but not followed;
    it is visited again as a field of [Req], at depth 1, and this second
    visit reaches [E].  [F] lies beyond the depth bound. *)
Example collect_siblings_not_suppressed :
  option_map (fun r => dict_keys (fst r))
             (_collect_referenced_types sibling_fs sibling_parser 4 None)
  = Some ["B"; "C"; "D"; "E"].
Proof.
  vm_compute. reflexivity.
Qed.

(** ** The matcher never runs out of fuel *)

Lemma run_unfold {A : Type} (fuel : nat) (r : regex) (s : string)
      (cs : captures) (k : string -> captures -> result A) :
  run fuel r s cs k =
  match r with
  | Eps => k s cs
  | Lit c =>
      match s with
      | String c' s' => if Ascii.eqb c c' then k s' cs else NoMatch
      | EmptyString => NoMatch
      end
  | Class p =>
      match s with
      | String c' s' => if p c' then k s' cs else NoMatch
      | EmptyString => NoMatch
      end
  | Cat a b => run fuel a s cs (fun s' cs' => run fuel b s' cs' k)
  | Alt a b =>
      match run fuel a s cs k with
      | NoMatch => run fuel b s cs k
      | other => other
      end
  | Star r' =>
      match fuel with
      | O => OutOfFuel
      | S fuel' =>
          match run fuel r' s cs
                    (fun s' cs' =>
                       if String.length s' <? String.length s
                       then run fuel' (Star r') s' cs' k
                       else NoMatch) with
          | NoMatch => k s cs
          | other => other
          end
      end
  | LazyStar r' =>
      match k s cs with
      | NoMatch =>
          match fuel with
          | O => OutOfFuel
          | S fuel' =>
              run fuel r' s cs
                  (fun s' cs' =>
                     if String.length s' <? String.length s
                     then run fuel' (LazyStar r') s' cs' k
                     else NoMatch)
          end
      | other => other
      end
  | Group n r' =>
      run fuel r' s cs (fun s' cs' => k s' ((n, consumed s s') :: cs'))
  | EndOfLine =>
      match s with
      | EmptyString => k s cs
      | String c _ => if Ascii.eqb c newline then k s cs else NoMatch
      end
  end.
Proof.
  destruct fuel; destruct r; reflexivity.
Qed.

(** With more fuel than input, and a continuation that never reports
    exhaustion on a suffix, the matcher never reports exhaustion. *)
Lemma run_fuel_enough {A : Type} (fuel : nat) :
  forall (r : regex) (s : string) (cs : captures)
         (k : string -> captures -> result A),
    String.length s < fuel ->
    (forall s' cs', String.length s' <= String.length s ->
                    k s' cs' <> OutOfFuel) ->
    run fuel r s cs k <> OutOfFuel.
Proof.
  induction fuel as [|fuel IHfuel]; [intros; lia|].
  induction r as [| c | p | a IHa b IHb | a IHa b IHb | r IHr | r IHr
                  | n r IHr | ]; intros s cs k Hlen Hk; rewrite run_unfold.
  - apply Hk. lia.
  - destruct s as [|c' s']; [discriminate|].
    destruct (Ascii.eqb c c'); [|discriminate]. apply Hk. simpl; lia.
  - destruct s as [|c' s']; [discriminate|].
    destruct (p c'); [|discriminate]. apply Hk. simpl; lia.
  - apply IHa; [exact Hlen|]. intros s' cs' Hs'.
    apply IHb; [lia|]. intros s'' cs'' Hs''. apply Hk. lia.
  - specialize (IHa s cs k Hlen Hk). specialize (IHb s cs k Hlen Hk).
    destruct (run (S fuel) a s cs k); congruence.
  - match goal with
    | |- match ?x with _ => _ end <> _ =>
        assert (Hbody : x <> OutOfFuel); [|destruct x; try congruence]
    end.
    + apply IHr; [exact Hlen|]. intros s' cs' Hs'.
      destruct (String.length s' <? String.length s) eqn:Hlt; [|discriminate].
      apply Nat.ltb_lt in Hlt.
      apply IHfuel; [lia|]. intros s'' cs'' Hs''. apply Hk. lia.
    + apply Hk. lia.
  - pose proof (Hk s cs ltac:(lia)) as Hnow.
    destruct (k s cs); try congruence.
    apply IHr; [exact Hlen|]. intros s' cs' Hs'.
    destruct (String.length s' <? String.length s) eqn:Hlt; [|discriminate].
    apply Nat.ltb_lt in Hlt.
    apply IHfuel; [lia|]. intros s'' cs'' Hs''. apply Hk. lia.
  - apply IHr; [exact Hlen|]. intros s' cs' Hs'. apply Hk. exact Hs'.
  - destruct s as [|c s']; [apply Hk; lia|].
    destruct (Ascii.eqb c newline); [apply Hk; lia|discriminate].
Qed.

Lemma match_at_fuel_enough (r : regex) (content : string) (pos : nat) :
  match_at r content pos <> OutOfFuel.
Proof.
  unfold match_at. apply run_fuel_enough; [lia|]. discriminate.
Qed.

Lemma search_from_fuel_enough (tries : nat) (r : regex) (content : string) :
  forall pos, search_from tries r content pos <> OutOfFuel.
Proof.
  induction tries as [|tries IH]; intros pos; simpl;
    pose proof (match_at_fuel_enough r content pos) as H;
    destruct (match_at r content pos); try congruence; apply IH.
Qed.

(** [search] finds nothing only when the pattern matches at no position. *)
Lemma search_none (r : regex) (content : string) :
  search r content = None ->
  search_from (String.length content) r content 0 = NoMatch.
Proof.
  unfold search.
  pose proof (search_from_fuel_enough (String.length content) r content 0) as H.
  destruct (search_from _ r content 0); congruence.
Qed.

(** ** The HTTP binding of a method *)

Lemma run_Str {A : Type} (fuel : nat) (lit : string) :
  forall (s : string) (cs : captures) (k : string -> captures -> result A),
    run fuel (Str lit) s cs k
    = if prefix lit s then k (str_drop (String.length lit) s) cs else NoMatch.
Proof.
  induction lit as [|c lit IH]; intros s cs k; simpl Str; rewrite run_unfold.
  - destruct s; reflexivity.
  - rewrite run_unfold. destruct s as [|c' s']; [reflexivity|]. simpl.
    destruct (Ascii.eqb c c') eqn:E.
    + apply Ascii.eqb_eq in E; subst c'.
      destruct (ascii_dec c c); [|congruence]. apply IH.
    + apply Ascii.eqb_neq in E.
      destruct (ascii_dec c c'); [congruence|reflexivity].
Qed.

Lemma run_Cat {A : Type} (fuel : nat) (a b : regex) (s : string)
      (cs : captures) (k : string -> captures -> result A) :
  run fuel (Cat a b) s cs k = run fuel a s cs (fun s' cs' => run fuel b s' cs' k).
Proof.
  destruct fuel; reflexivity.
Qed.

Lemma run_Lit {A : Type} (fuel : nat) (c : ascii) (s : string)
      (cs : captures) (k : string -> captures -> result A) :
  run fuel (Lit c) s cs k
  = match s with
    | String c' s' => if Ascii.eqb c c' then k s' cs else NoMatch
    | EmptyString => NoMatch
    end.
Proof.
  destruct fuel; reflexivity.
Qed.

Lemma has_backslash_str_drop (n : nat) (s : string) :
  has_backslash (str_drop n s) = true -> has_backslash s = true.
Proof.
  revert s; induction n as [|n IH]; intros [|c s]; simpl; auto.
  intros H. rewrite (IH _ H). apply orb_true_r.
Qed.

Lemma has_backslash_substring (a n : nat) (s : string) :
  has_backslash (substring a n s) = true -> has_backslash s = true.
Proof.
  revert a n; induction s as [|c s IH]; intros a n.
  - destruct a, n; simpl; auto.
  - destruct a as [|a].
    + destruct n as [|n]; simpl; [discriminate|].
      destruct (Ascii.eqb c "\"); simpl; [reflexivity|]. apply IH.
    + simpl. intros H. rewrite (IH _ _ H). apply orb_true_r.
Qed.

(** The pattern for the body mask matches only where the text [body:] is
    followed by a backslash. *)
Lemma body_pattern_needs_backslash (content : string) (pos : nat) (m : rmatch) :
  match_at body_pattern content pos = Found m ->
  has_backslash content = true.
Proof.
  unfold match_at, body_pattern. cbn [Seq].
  rewrite run_Cat, run_Str.
  destruct (prefix "body:" (str_drop pos content)); [|discriminate].
  rewrite run_Cat, run_Lit.
  destruct (str_drop (String.length "body:") (str_drop pos content))
    as [|c rest] eqn:Hrest; [discriminate|].
  destruct (Ascii.eqb "\" c) eqn:Hc; [|discriminate].
  intros _. apply (has_backslash_str_drop pos).
  apply (has_backslash_str_drop (String.length "body:")).
  rewrite Hrest. simpl. apply Ascii.eqb_eq in Hc; subst c. reflexivity.
Qed.

Lemma search_from_found (tries : nat) (r : regex) (content : string) :
  forall pos m,
    search_from tries r content pos = Found m ->
    exists p, match_at r content p = Found m.
Proof.
  induction tries as [|tries IH]; intros pos m; simpl;
    destruct (match_at r content pos) eqn:Hm; try discriminate;
    try (intros [= <-]; now exists pos).
  apply IH.
Qed.

Lemma search_body_pattern_none (http_options : string) :
  has_backslash http_options = false ->
  search body_pattern http_options = None.
Proof.
  intros Hno. unfold search.
  destruct (search_from _ body_pattern http_options 0) as [m| |] eqn:Hs;
    try reflexivity.
  apply search_from_found in Hs. destruct Hs as [p Hp].
  apply body_pattern_needs_backslash in Hp. congruence.
Qed.

(** C6, the part the code misses.  For every method body without a
    backslash character, the extractor leaves [http_body] as it was: a
    field-mask written [body: Q...Q] (Q the double quote) is never
    recorded, because the pattern of line 260 asks for a backslash after
    [body:]. *)
Theorem http_body_mask_not_recorded (method_body : string) (method : ProtoMethod) :
  has_backslash method_body = false ->
  http_body (parse_http_annotations method_body method) = http_body method.
Proof.
  intros Hno. unfold parse_http_annotations.
  destruct (search http_start_pattern method_body) as [start|]; [|reflexivity].
  destruct (_find_matching_brace method_body _ =? -1)%Z; [reflexivity|].
  rewrite search_body_pattern_none.
  - destruct (first_http_binding _ _) as [[verb path]|]; reflexivity.
  - unfold py_slice.
    destruct (has_backslash (substring _ _ method_body)) eqn:H; [|reflexivity].
    apply has_backslash_substring in H. congruence.
Qed.

(** The theorem on a binding with the mask [*]: the verb and the path are
    recorded, the mask is not. *)
Lemma http_body_mask_not_recorded_witness :
  http_body (parse_http_annotations binding_with_mask bare_method) = ""
  /\ http_method (parse_http_annotations binding_with_mask bare_method) = "POST"
  /\ http_path (parse_http_annotations binding_with_mask bare_method)
     = "/v1/namespaces".
Proof.
  split.
  - apply (http_body_mask_not_recorded binding_with_mask bare_method).
    vm_compute. reflexivity.
  - vm_compute. split; reflexivity.
Defined.

(** ** The deprecation marker of a field *)

Lemma prefix_app (p s : string) :
  prefix p s = true <-> exists rest, s = p ++ rest.
Proof.
  revert s; induction p as [|c p IH]; intros s.
  - split; [intros _; now exists s|destruct s; reflexivity].
  - destruct s as [|c' s]; simpl.
    + split; [discriminate|]. intros [rest H]. discriminate.
    + destruct (ascii_dec c c') as [<-|Hne].
      * rewrite IH. split; intros [rest H]; exists rest.
        -- now rewrite H.
        -- now injection H.
      * split; [discriminate|]. intros [rest H]. injection H as H1 _.
        congruence.
Qed.

(** [needle in hay] holds exactly when [hay] has [needle] as a substring. *)
Lemma str_contains_app (needle hay : string) :
  str_contains needle hay = true
  <-> exists before after, hay = before ++ needle ++ after.
Proof.
  induction hay as [|c hay IH]; cbn [str_contains].
  - rewrite orb_false_r, prefix_app. split.
    + intros [rest H]. exists "", rest. exact H.
    + intros [before [after H]]. destruct before; simpl in H; [now exists after|].
      discriminate.
  - rewrite orb_true_iff, prefix_app, IH. split.
    + intros [[rest H]|[before [after H]]].
      * exists "", rest. exact H.
      * exists (String c before), after. simpl. now rewrite H.
    + intros [before [after H]]. destruct before as [|c' before]; simpl in H.
      * left. now exists after.
      * right. injection H as _ H. now exists before, after.
Qed.

(** C10. The fields of a parsed message are the field matches of its body,
    one field per match, and the deprecated flag of a field is set exactly
    when the bracketed options text of its match, lowercased, has
    [deprecated = true] as a substring.  The spellings [deprecated=true]
    and [deprecated =true] leave the field active; upper case does not. *)
Theorem deprecated_flag_iff_marker :
  (forall field_match,
      is_deprecated (field_of_match field_match) = true
      <-> exists before after,
          lower (field_options field_match)
          = before ++ "deprecated = true" ++ after)
  /\ (forall filepath m,
         msg_fields (message_of_match filepath m)
         = map field_of_match (field_matches (group_or_empty 2 (m_groups m))))
  /\ parsed_flags marker_variants_text
     = [("a", false); ("b", false); ("c", true); ("d", true); ("e", false)].
Proof.
  split; [|split].
  - intros field_match. simpl. apply str_contains_app.
  - reflexivity.
  - vm_compute. reflexivity.
Qed.

(** ** The enum tables of the Types appendix *)

Section SortFacts.
Context {A : Type} (key : A -> Z).

Let le (x y : A) : bool := (key x <=? key y)%Z.
Let R (x y : A) : Prop := (key x <= key y)%Z.

Lemma insert_sorted_perm (x : A) (l : list A) :
  Permutation (insert_sorted le x l) (x :: l).
Proof.
  induction l as [|y l IH]; simpl; [reflexivity|].
  destruct (le x y); [reflexivity|].
  rewrite IH. apply perm_swap.
Qed.

Lemma stable_sort_perm (l : list A) : Permutation (stable_sort le l) l.
Proof.
  induction l as [|x l IH]; simpl; [reflexivity|].
  rewrite insert_sorted_perm. now apply perm_skip.
Qed.

Lemma insert_sorted_sorted (x : A) (l : list A) :
  StronglySorted R l -> StronglySorted R (insert_sorted le x l).
Proof.
  induction l as [|y l IH]; simpl; intros Hs.
  - repeat constructor.
  - inversion Hs as [|? ? Hs' Hall]; subst.
    unfold le at 1. destruct (key x <=? key y)%Z eqn:Hxy.
    + apply Z.leb_le in Hxy. constructor; [exact Hs|].
      constructor; [exact Hxy|].
      eapply Forall_impl; [|exact Hall]. unfold R. intros a Ha. lia.
    + apply Z.leb_gt in Hxy. constructor; [now apply IH|].
      apply (Permutation_Forall (Permutation_sym (insert_sorted_perm x l))).
      constructor; [unfold R; lia|exact Hall].
Qed.

Lemma stable_sort_sorted (l : list A) : StronglySorted R (stable_sort le l).
Proof.
  induction l as [|x l IH]; simpl; [constructor|].
  now apply insert_sorted_sorted.
Qed.

Lemma sorted_keys (l : list A) :
  StronglySorted R l -> StronglySorted Z.le (map key l).
Proof.
  induction 1 as [|x l Hs IH Hall]; simpl; constructor; [exact IH|].
  apply Forall_map. exact Hall.
Qed.
End SortFacts.

(** Two ascending lists with the same numbers are the same list. *)
Lemma sorted_perm_unique (l1 : list Z) :
  forall l2,
    StronglySorted Z.le l1 -> StronglySorted Z.le l2 ->
    Permutation l1 l2 -> l1 = l2.
Proof.
  induction l1 as [|a l1 IH]; intros l2 H1 H2 Hp.
  - apply Permutation_nil in Hp. now subst.
  - destruct l2 as [|b l2].
    + apply Permutation_sym, Permutation_nil in Hp. discriminate.
    + inversion H1 as [|? ? H1' Ha]; subst.
      inversion H2 as [|? ? H2' Hb]; subst.
      assert (Hab : a = b).
      { assert (Hina : In a (b :: l2))
          by (apply (Permutation_in _ Hp); now left).
        assert (Hinb : In b (a :: l1))
          by (apply (Permutation_in _ (Permutation_sym Hp)); now left).
        rewrite Forall_forall in Ha, Hb.
        destruct Hina as [->|Hina]; [reflexivity|].
        destruct Hinb as [->|Hinb]; [reflexivity|].
        specialize (Ha _ Hinb). specialize (Hb _ Hina). lia. }
      subst b. f_equal. apply IH; auto.
      now apply Permutation_cons_inv in Hp.
Qed.

Lemma regroup_lists (a b c rows d e : list string) :
  a +++ b +++ (c +++ rows +++ d) +++ e = (a +++ b +++ c) +++ rows +++ (d +++ e).
Proof.
  now rewrite <- !app_assoc.
Qed.

Lemma flat_map_split {A B : Type} (f : A -> list B) (x : A) (l : list A) :
  In x l ->
  exists before after, flat_map f l = (before ++ f x ++ after)%list.
Proof.
  intros Hin. apply in_split in Hin. destruct Hin as [l1 [l2 ->]].
  exists (flat_map f l1), (flat_map f l2).
  now rewrite flat_map_app.
Qed.

Lemma regroup_block (a b c rows d e : list string) :
  a +++ b +++ (c +++ rows +++ d) +++ e = (a +++ b) +++ c +++ rows +++ d +++ e.
Proof.
  now rewrite <- !app_assoc.
Qed.

Lemma regroup_section (h before above c rows d after t : list string) :
  h +++ (before +++ (above +++ c +++ rows +++ d) +++ after) +++ t
  = (h +++ before +++ above) +++ c +++ rows +++ d +++ after +++ t.
Proof.
  now rewrite <- !app_assoc.
Qed.

(** C9. The rows of an enum table in the Types appendix show the items of
    the enum in ascending order of their numbers, whatever the order of
    declaration.  (1) The listed items are in ascending order of number and
    (2) are the declared items.  (3) The rows are, item after item, the
    four lines of a table row with the escaped name and the number in
    decimal.  (4) The numbers listed are the same for every order of
    declaration.  (5) The block of the enum is made of lines above the
    table, the head of the table, these rows, and the closing lines;
    (6) and the appendix holds, for every enum among the types it renders,
    the head of the table followed by these rows and the closing lines. *)
Theorem enum_rows_sorted_by_number (e : ProtoEnum) :
  let rows :=
    flat_map (fun item : string * Z =>
                ["<tr>";
                 "<td><code>" ++ html_escape (fst item) ++ "</code></td>";
                 "<td>" ++ str_of_Z (snd item) ++ "</td>";
                 "</tr>"])
             (sorted_enum_values e) in
  let table_head :=
    ["<p><strong>Enum Values:</strong></p>"; "<table>"; "<thead>"; "<tr>";
     "<th>Name</th>"; "<th>Value</th>"; "</tr>"; "</thead>"; "<tbody>"] in
  let closing :=
    ["</tbody>"; "</table>"; qq "<div style=`margin-bottom: 2rem;`></div>"] in
  StronglySorted number_le (sorted_enum_values e)
  /\ Permutation (sorted_enum_values e) (enum_values e)
  /\ enum_value_rows e = rows
  /\ (forall e',
         Permutation (enum_values e) (enum_values e') ->
         map snd (sorted_enum_values e) = map snd (sorted_enum_values e'))
  /\ (forall fs parser referenced_types type_name package,
         enum_values e <> [] ->
         exists above,
           type_block fs parser referenced_types (type_name, (TEnum e, package))
           = above +++ table_head +++ rows +++ closing)
  /\ (forall fs parser graph type_name package,
         In (type_name, (TEnum e, package))
            (stable_sort by_simple_name
               (dedup_simple_names (flatten_packages (group_by_package graph))
                                   [])) ->
         enum_values e <> [] ->
         exists before after,
           _generate_types_section fs parser graph
           = before +++ table_head +++ rows +++ closing +++ after).
Proof.
  intros rows table_head closing.
  assert (Hrows : enum_value_rows e = rows) by reflexivity.
  assert (Hblock : forall fs parser referenced_types type_name package,
             enum_values e <> [] ->
             exists above,
               type_block fs parser referenced_types
                          (type_name, (TEnum e, package))
               = above +++ table_head +++ rows +++ closing).
  { intros fs parser referenced_types type_name package Hne.
    unfold type_block. rewrite Hrows.
    destruct (enum_values e) as [|v vs] eqn:Hv; [congruence|].
    eexists. apply regroup_block. }
  unfold sorted_enum_values in *. repeat split.
  - apply (stable_sort_sorted snd).
  - apply (stable_sort_perm snd).
  - intros e' Hp. apply sorted_perm_unique.
    + apply sorted_keys, (stable_sort_sorted snd).
    + apply sorted_keys, (stable_sort_sorted snd).
    + apply Permutation_map.
      rewrite (stable_sort_perm snd), (stable_sort_perm snd). exact Hp.
  - exact Hblock.
  - intros fs parser graph type_name package Hin Hne.
    destruct (Hblock fs parser graph type_name package Hne) as [above Habove].
    destruct (flat_map_split (type_block fs parser graph) _ _ Hin)
      as [before [after Hsplit]].
    unfold _generate_types_section.
    destruct graph as [|entry graph].
    { cbn in Hin. destruct Hin. }
    unfold _generate_flat_types_list. rewrite Hsplit, Habove.
    eexists _, _. apply regroup_section.
Qed.

(** An enum declared in the order 2, 0, 1, 2 is listed in the order
    0, 1, 2, 2; equal numbers keep their order of declaration. *)
Example enum_rows_of_unordered_enum :
  sorted_enum_values unordered_enum
  = [("REGION_UNSPECIFIED", 0%Z); ("REGION_US", 1%Z); ("REGION_EU", 2%Z);
     ("REGION_EUROPE", 2%Z)]
  /\ enum_value_rows unordered_enum
     = ["<tr>"; "<td><code>REGION_UNSPECIFIED</code></td>"; "<td>0</td>"; "</tr>";
        "<tr>"; "<td><code>REGION_US</code></td>"; "<td>1</td>"; "</tr>";
        "<tr>"; "<td><code>REGION_EU</code></td>"; "<td>2</td>"; "</tr>";
        "<tr>"; "<td><code>REGION_EUROPE</code></td>"; "<td>2</td>"; "</tr>"].
Proof.
  vm_compute. split; reflexivity.
Qed.

(** ** Example values *)

Section ExampleFacts.
Variable parser : ProtoParser.

(** What the loop over the nested fields leaves in the dictionary. *)
Lemma nested_fields_example_spec (example_value : ProtoField -> option json)
      (fields : list ProtoField) :
  forall acc nested,
    nested_fields_example example_value fields acc = Some nested ->
    (forall k v, In (k, v) nested ->
                 In (k, v) acc
                 \/ exists f, In f fields /\ is_deprecated f = false
                              /\ field_name f = k /\ example_value f = Some v)
    /\ (forall k, dict_mem k acc = true -> dict_mem k nested = true)
    /\ (forall f, In f fields -> is_deprecated f = false ->
                  dict_mem (field_name f) nested = true).
Proof.
  induction fields as [|f fields IH]; simpl; intros acc nested Hrun.
  - injection Hrun as <-. repeat split; auto; intros ? [].
  - destruct (is_deprecated f) eqn:Hdep; simpl in Hrun.
    + destruct (IH _ _ Hrun) as [H1 [H2 H3]]. repeat split.
      * intros k v Hin. destruct (H1 k v Hin) as [?|[g [? ?]]]; [now left|].
        right. exists g. split; [now right|assumption].
      * exact H2.
      * intros g [<-|Hg] Hg'; [congruence|now apply H3].
    + destruct (example_value f) as [v0|] eqn:Hv; [|discriminate].
      destruct (IH _ _ Hrun) as [H1 [H2 H3]]. repeat split.
      * intros k v Hin. destruct (H1 k v Hin) as [Hacc|[g [? ?]]].
        -- apply in_dict_set in Hacc. destruct Hacc as [Heq|Hacc]; [|now left].
           injection Heq as -> ->. right. exists f. repeat split; auto.
        -- right. exists g. split; [now right|assumption].
      * intros k Hk. apply H2. rewrite dict_mem_set, Hk. apply orb_true_r.
      * intros g [<-|Hg] Hg'; [|now apply H3].
        apply H2. rewrite dict_mem_set, String.eqb_refl. reflexivity.
Qed.

(** The value of a field to which no type default, no timestamp rule and no
    name heuristic applies, one nesting bound at a time: (1) when the type
    is not expandable, the placeholder [example_<field name>]; (2) when it
    is expandable and resolves to a message, an object over the first three
    fields of that message, whose keys are the names of the non-deprecated
    ones among them, each valued by [_get_example_value] itself, provided
    all of them are valued; (3) when it is expandable and resolves to no
    message (an enum), the placeholder [example_<simple type name,
    lowercased>]. *)
Lemma example_value_cases (fuel : nat) (field : ProtoField) :
  no_heuristic_applies field ->
  (_should_expand_type parser (field_type field) = false ->
   _get_example_value parser (S fuel) field
   = Some (JStr ("example_" ++ field_name field)))
  /\ (forall message,
         _should_expand_type parser (field_type field) = true ->
         _resolve_type_reference parser (field_type field) = Some message ->
         _get_example_value parser (S fuel) field
         = option_map JDict
             (nested_fields_example (_get_example_value parser fuel)
                                    (firstn 3 (msg_fields message)) [])
         /\ forall nested,
             nested_fields_example (_get_example_value parser fuel)
                                   (firstn 3 (msg_fields message)) []
             = Some nested ->
             (forall k v,
                 In (k, v) nested ->
                 exists f, In f (firstn 3 (msg_fields message))
                           /\ is_deprecated f = false /\ field_name f = k
                           /\ _get_example_value parser fuel f = Some v)
             /\ (forall f, In f (firstn 3 (msg_fields message)) ->
                           is_deprecated f = false ->
                           dict_mem (field_name f) nested = true))
  /\ (_should_expand_type parser (field_type field) = true ->
      _resolve_type_reference parser (field_type field) = None ->
      _get_example_value parser (S fuel) field
      = Some (JStr ("example_" ++ lower (last_dot_part (field_type field))))).
Proof.
  intros [Hty [Hts [Hid [Hem Hnm]]]].
  assert (Hstep : _get_example_value parser (S fuel) field
                  = if _should_expand_type parser (field_type field)
                    then nested_example_with parser
                           (_get_example_value parser fuel) (field_type field)
                    else Some (JStr ("example_" ++ field_name field))).
  { cbn [_get_example_value]. rewrite Hty, Hts, Hid, Hem, Hnm. reflexivity. }
  rewrite Hstep. split; [|split].
  - intros ->. reflexivity.
  - intros message -> Hres. unfold nested_example_with. rewrite Hres. split.
    + destruct (nested_fields_example _ _ []); reflexivity.
    + intros nested Hrun.
      destruct (nested_fields_example_spec _ _ _ _ Hrun) as [H1 [_ H3]].
      split; [|exact H3].
      intros k v Hin. destruct (H1 k v Hin) as [[]|H]. exact H.
  - intros -> Hres. unfold nested_example_with. rewrite Hres. reflexivity.
Qed.
End ExampleFacts.

(** On the field [payload] of type [Outer] the object has the keys [a]
    and [b], not [c], and [a] is expanded in turn. *)
Example example_value_of_nested_message :
  _get_example_value nested_parser 3 payload_field
  = Some (JDict [("a", JDict [("x", JStr "example_string")]);
                 ("b", JStr "example_string")]).
Proof.
  assert (Hno : no_heuristic_applies payload_field)
    by (repeat split; vm_compute; reflexivity).
  destruct (example_value_cases nested_parser 2 payload_field Hno)
    as [_ [H _]].
  destruct (H (mk_message "Outer"
                 [mk_field "gone" "Inner" 1 "" "" true;
                  mk_field "a" "Inner" 2 "" "" false;
                  mk_field "b" "string" 3 "" "" false;
                  mk_field "c" "string" 4 "" "" false]
                 "" (Some "nested.proto")))
    as [Heq _]; [vm_compute; reflexivity | vm_compute; reflexivity |].
  rewrite Heq. vm_compute. reflexivity.
Qed.

(** The object is not built from the first three non-deprecated fields, nor
    is it flat.  No earlier rule applies to the field [payload] of type
    [Outer], whose type is expandable; the first three non-deprecated
    fields of [Outer] are [a], [b] and [c], yet the value has no key [c],
    and the value of [a] is the expansion of its own message type [Inner],
    not a placeholder. *)
Example example_value_not_first_three_non_deprecated :
  no_heuristic_applies payload_field
  /\ _should_expand_type nested_parser (field_type payload_field) = true
  /\ option_map (fun m => map field_name
                            (firstn 3 (filter (fun f => negb (is_deprecated f))
                                              (msg_fields m))))
                (_resolve_type_reference nested_parser "Outer")
     = Some ["a"; "b"; "c"]
  /\ _get_example_value nested_parser 3 payload_field
     = Some (JDict [("a", JDict [("x", JStr "example_string")]);
                    ("b", JStr "example_string")]).
Proof.
  repeat split; vm_compute; reflexivity.
Qed.

(** On a message that refers to itself the synthesis never returns: no
    amount of fuel is enough. *)
Example example_value_of_self_reference (fuel : nat) :
  _get_example_value node_parser fuel next_field = None.
Proof.
  induction fuel as [|fuel IH]; [reflexivity|].
  change (_get_example_value node_parser (S fuel) next_field)
    with (match
             match _get_example_value node_parser fuel next_field with
             | Some v => Some [("next", v)]
             | None => None
             end
           with
           | Some nested => Some (JDict nested)
           | None => None
           end).
  now rewrite IH.
Qed.

Section ExampleRecursion.
Variable parser : ProtoParser.

(** The loop over the nested fields fails as soon as one of the fields that
    are not deprecated cannot be valued. *)
Lemma nested_fields_example_fails (example_value : ProtoField -> option json)
      (fields : list ProtoField) (f : ProtoField) :
  In f fields -> is_deprecated f = false -> example_value f = None ->
  forall acc, nested_fields_example example_value fields acc = None.
Proof.
  induction fields as [|g fields IH]; intros Hin Hdep Hv acc; [destruct Hin|].
  cbn [nested_fields_example]. destruct Hin as [->|Hin].
  - now rewrite Hdep, Hv.
  - destruct (negb (is_deprecated g)); [|now apply IH].
    destruct (example_value g); [now apply IH|reflexivity].
Qed.

(** The value of a field that only the expansion rule applies to: the
    nested fields are valued by [_get_example_value] itself. *)
Lemma get_example_value_expands (fuel : nat) (field : ProtoField)
      (message : ProtoMessage) :
  no_heuristic_applies field ->
  _should_expand_type parser (field_type field) = true ->
  _resolve_type_reference parser (field_type field) = Some message ->
  _get_example_value parser (S fuel) field
  = option_map JDict
      (nested_fields_example (_get_example_value parser fuel)
                             (firstn 3 (msg_fields message)) []).
Proof.
  intros [Hty [Hts [Hid [Hem Hnm]]]] Hexp Hres.
  cbn [_get_example_value]. rewrite Hty, Hts, Hid, Hem, Hnm, Hexp.
  unfold nested_example_with. rewrite Hres.
  now destruct (nested_fields_example _ _ []).
Qed.

(** A field among the first three fields of the message that its own type
    resolves to is never valued: every call leads to the same call. *)
Lemma self_nested_field_never_valued (nested_field : ProtoField)
      (nested_message : ProtoMessage) :
  no_heuristic_applies nested_field ->
  _should_expand_type parser (field_type nested_field) = true ->
  _resolve_type_reference parser (field_type nested_field) = Some nested_message ->
  In nested_field (firstn 3 (msg_fields nested_message)) ->
  is_deprecated nested_field = false ->
  forall fuel, _get_example_value parser fuel nested_field = None.
Proof.
  intros Hno Hexp Hres Hin Hdep fuel.
  induction fuel as [|fuel IH]; [reflexivity|].
  rewrite (get_example_value_expands fuel nested_field nested_message Hno Hexp Hres).
  now rewrite (nested_fields_example_fails _ _ nested_field Hin Hdep IH).
Qed.

(** The example of a message fails when one of its fields that are not
    deprecated cannot be valued. *)
Lemma example_dict_fails (fuel : nat) (fields : list ProtoField)
      (f : ProtoField) :
  In f fields -> is_deprecated f = false ->
  _get_example_value parser fuel f = None ->
  forall example, example_dict parser fuel fields example = None.
Proof.
  induction fields as [|g fields IH]; intros Hin Hdep Hv example;
    [destruct Hin|].
  cbn [example_dict]. destruct Hin as [->|Hin].
  - now rewrite Hdep, Hv.
  - destruct (is_deprecated g); [now apply IH|].
    destruct (_get_example_value parser fuel g); [now apply IH|reflexivity].
Qed.

Lemma example_json_fails (fuel : nat) (message : ProtoMessage) (f : ProtoField) :
  In f (msg_fields message) -> is_deprecated f = false ->
  _get_example_value parser fuel f = None ->
  _generate_example_json parser fuel message = None.
Proof.
  intros Hin Hdep Hv. unfold _generate_example_json, example_of_message.
  now rewrite (example_dict_fails fuel _ f Hin Hdep Hv).
Qed.

(** C5. The synthesis of a nested object is not flat: each of the first
    three fields of the resolved message is valued by [_get_example_value]
    itself, which expands a message type again, and nothing bounds the
    depth.  So for a field to which only the expansion rule applies and
    whose message holds, among its first three fields, a field that is not
    deprecated and leads back to itself (its own type resolves to a message
    that has it among its first three fields), no value is ever returned,
    however deep the calls may nest; and neither is an example of a message
    with such a field. *)
Theorem example_value_recursion_unbounded (field nested_field : ProtoField)
        (message nested_message : ProtoMessage) :
  no_heuristic_applies field ->
  _should_expand_type parser (field_type field) = true ->
  _resolve_type_reference parser (field_type field) = Some message ->
  In nested_field (firstn 3 (msg_fields message)) ->
  is_deprecated nested_field = false ->
  no_heuristic_applies nested_field ->
  _should_expand_type parser (field_type nested_field) = true ->
  _resolve_type_reference parser (field_type nested_field) = Some nested_message ->
  In nested_field (firstn 3 (msg_fields nested_message)) ->
  (forall fuel,
      _get_example_value parser (S fuel) field
      = option_map JDict
          (nested_fields_example (_get_example_value parser fuel)
                                 (firstn 3 (msg_fields message)) []))
  /\ (forall fuel, _get_example_value parser fuel nested_field = None)
  /\ (forall fuel, _get_example_value parser fuel field = None)
  /\ (forall fuel outer,
         In field (msg_fields outer) -> is_deprecated field = false ->
         _generate_example_json parser fuel outer = None).
Proof.
  intros Hno Hexp Hres Hin Hdep Hno' Hexp' Hres' Hin'.
  pose proof (self_nested_field_never_valued nested_field nested_message
                Hno' Hexp' Hres' Hin' Hdep) as Hnested.
  assert (Hfield : forall fuel, _get_example_value parser fuel field = None).
  { intros [|fuel]; [reflexivity|].
    rewrite (get_example_value_expands fuel field message Hno Hexp Hres).
    now rewrite (nested_fields_example_fails _ _ nested_field Hin Hdep
                   (Hnested fuel)). }
  repeat split.
  - intros fuel. now apply get_example_value_expands.
  - exact Hnested.
  - exact Hfield.
  - intros fuel outer Hin0 Hdep0.
    now apply (example_json_fails fuel outer field Hin0 Hdep0).
Qed.
End ExampleRecursion.

(** The theorem on the message [Node], whose field [next] is a [Node]:
    a thousand nested calls do not let the synthesis return (nor does any
    other number, see above). *)
Lemma example_value_recursion_unbounded_witness :
  _get_example_value node_parser 1000 next_field = None
  /\ _generate_example_json node_parser 1000
       (mk_message "Node" [next_field] "" (Some "node.proto")) = None.
Proof.
  assert (Hno : no_heuristic_applies next_field)
    by (repeat split; vm_compute; reflexivity).
  destruct (example_value_recursion_unbounded node_parser next_field next_field
              (mk_message "Node" [next_field] "" (Some "node.proto"))
              (mk_message "Node" [next_field] "" (Some "node.proto")))
    as [_ [_ [Hfield Hjson]]];
    try exact Hno; try (vm_compute; reflexivity); try (now left).
  split; [apply Hfield|].
  apply Hjson; [now left|reflexivity].
Defined.

(** ** The curl example *)

Lemma Some_inj {A : Type} (a b : A) : Some a = Some b -> a = b.
Proof.
  now intros [= ->].
Qed.


Lemma has_request_body_spec (parser : ProtoParser) (method : ProtoMethod) :
  (exists input_message, has_request_body parser method = Some input_message)
  <-> (str_in (http_method method) ["POST"; "PUT"; "PATCH"] = true
       /\ input_type method <> ""
       /\ exists input_message,
           dict_get (input_type method) (messages parser) = Some input_message
           /\ msg_fields input_message <> []).
Proof.
  unfold has_request_body.
  destruct (str_in (http_method method) ["POST"; "PUT"; "PATCH"]); simpl.
  - destruct (String.eqb (input_type method) "") eqn:Hty; simpl.
    + apply String.eqb_eq in Hty. split; [intros [? ?]; discriminate|].
      intros [_ [H _]]. congruence.
    + apply String.eqb_neq in Hty.
      destruct (dict_get (input_type method) (messages parser)) as [m|].
      * destruct (msg_fields m) as [|f fs'] eqn:Hf.
        -- split; [intros [? ?]; discriminate|].
           intros [_ [_ [m' [[= <-] H]]]]. congruence.
        -- split; [|intros _; now eexists].
           intros _. repeat split; auto. exists m. split; [reflexivity|].
           rewrite Hf. discriminate.
      * split; [intros [? ?]; discriminate|].
        intros [_ [_ [m' [? _]]]]. discriminate.
  - split; [intros [? ?]; discriminate|]. intros [? _]. discriminate.
Qed.

(** The parts of the command before the request body. *)
Lemma curl_parts_eq (parser : ProtoParser) (fuel : nat) (method : ProtoMethod) :
  curl_parts parser fuel method
  = match has_request_body parser method with
    | Some input_message =>
        match _generate_example_json parser fuel input_message with
        | Some example_body =>
            Some (curl_fixed_parts method
                  +++ ["-d '" ++ replace_char "'" ("'" ++ DQ ++ "'" ++ DQ ++ "'")
                                              example_body ++ "'"])
        | None => None
        end
    | None => Some (curl_fixed_parts method)
    end.
Proof.
  reflexivity.
Qed.

Lemma curl_fixed_parts_facts (method : ProtoMethod) :
  existsb is_verb_flag (curl_fixed_parts method)
  = negb (String.eqb (http_method method) "")
    && negb (String.eqb (upper (http_method method)) "GET")
  /\ existsb is_body_flag (curl_fixed_parts method) = false
  /\ 4 <= List.length (curl_fixed_parts method).
Proof.
  unfold curl_fixed_parts.
  destruct (negb (String.eqb (http_method method) "")
            && negb (String.eqb (upper (http_method method)) "GET"));
    repeat split; try reflexivity; try (simpl; lia).
  cbn [app existsb]. unfold is_verb_flag at 2, startswith. cbn [append prefix].
  destruct (upper (http_method method)); reflexivity.
Qed.

(** C7. The one-line layout of a curl command is never used, though the
    code keeps it for commands of at most three parts.  (1) For a method
    whose verb is GET the command is built whatever the nesting bound, has
    the four parts [curl], the quoted URL and the two headers, and neither
    a verb flag nor a body; it is laid out on four continued lines, not on
    one.  (2) Every command that is built has at least four parts and the
    continued layout, one line per part.  (3) A command is not built only
    when the example of the request body cannot be synthesized; a command
    that is built has a verb flag exactly when the method has a verb other
    than GET, and a body flag exactly when the verb is POST, PUT or PATCH
    and the input type names a registered message with at least one
    field. *)
Theorem curl_example_never_one_line (parser : ProtoParser) (fuel : nat)
        (method : ProtoMethod) :
  let url := DQ ++ "https://saas-api.tmprl.cloud" ++ http_path method ++ DQ in
  let get_parts :=
    ["curl"; url; qq "-H `Content-Type: application/json`";
     qq "-H `Authorization: Bearer YOUR_API_KEY`"] in
  let get_lines :=
    ["curl \";
     "  " ++ url ++ " \";
     qq "  -H `Content-Type: application/json` \";
     qq "  -H `Authorization: Bearer YOUR_API_KEY`"] in
  (http_method method = "GET" ->
   curl_parts parser fuel method = Some get_parts
   /\ curl_lines get_parts = get_lines
   /\ curl_lines get_parts <> [join " " get_parts]
   /\ curl_command get_parts = join NL get_lines
   /\ exists above below,
       _generate_curl_example parser fuel method
       = Some (above +++ map html_escape get_lines +++ below))
  /\ (forall parts,
         curl_parts parser fuel method = Some parts ->
         4 <= List.length parts
         /\ curl_lines parts = continued_lines parts
         /\ List.length (curl_lines parts) = List.length parts
         /\ exists above below,
             _generate_curl_example parser fuel method
             = Some (above +++ map html_escape (continued_lines parts)
                           +++ below))
  /\ (curl_parts parser fuel method = None
      <-> exists input_message,
          has_request_body parser method = Some input_message
          /\ _generate_example_json parser fuel input_message = None)
  /\ (forall parts,
         curl_parts parser fuel method = Some parts ->
         (existsb is_verb_flag parts = true
          <-> http_method method <> "" /\ upper (http_method method) <> "GET")
         /\ (existsb is_body_flag parts = true
             <-> (str_in (http_method method) ["POST"; "PUT"; "PATCH"] = true
                  /\ input_type method <> ""
                  /\ exists input_message,
                      dict_get (input_type method) (messages parser)
                      = Some input_message
                      /\ msg_fields input_message <> []))).
Proof.
  intros url get_parts get_lines.
  destruct (curl_fixed_parts_facts method) as [Hx [Hd Hlen]].
  assert (Hlayout : forall parts,
             4 <= List.length parts ->
             curl_lines parts = continued_lines parts
             /\ List.length (curl_lines parts) = List.length parts).
  { intros parts Hp. unfold curl_lines, continued_lines, middle_parts.
    replace (List.length parts <=? 3) with false
      by (symmetry; apply Nat.leb_gt; lia).
    split; [reflexivity|].
    destruct parts as [|a [|b parts]]; cbn [List.length] in *; try lia.
    cbn [hd tl]. rewrite !length_app, length_map. cbn [List.length].
    assert (Hrem : List.length (removelast (b :: parts))
                   = List.length parts).
    { clear. revert b. induction parts as [|c parts IH]; intros b;
        [reflexivity|].
      change (removelast (b :: c :: parts)) with (b :: removelast (c :: parts)).
      cbn [List.length]. now rewrite IH. }
    rewrite Hrem. lia. }
  assert (Hlong : forall parts,
             curl_parts parser fuel method = Some parts ->
             4 <= List.length parts).
  { intros parts Hparts. rewrite curl_parts_eq in Hparts.
    destruct (has_request_body parser method) as [m|].
    - destruct (_generate_example_json parser fuel m) as [body|];
        [|discriminate].
      apply Some_inj in Hparts. subst parts. rewrite length_app. lia.
    - apply Some_inj in Hparts. now subst parts. }
  split; [|split; [|split]].
  - intros Hget.
    assert (Hparts : curl_parts parser fuel method = Some get_parts).
    { rewrite curl_parts_eq. unfold has_request_body, curl_fixed_parts.
      rewrite Hget. reflexivity. }
    repeat split.
    + exact Hparts.
    + discriminate.
    + unfold _generate_curl_example. rewrite Hparts. now eexists _, _.
  - intros parts Hparts.
    destruct (Hlayout parts (Hlong parts Hparts)) as [Hl1 Hl2].
    repeat split; auto.
    unfold _generate_curl_example. rewrite Hparts, Hl1. now eexists _, _.
  - rewrite curl_parts_eq.
    destruct (has_request_body parser method) as [m|].
    + destruct (_generate_example_json parser fuel m) eqn:Hj.
      * split; [discriminate|]. intros [m' [Hm' H]].
        apply Some_inj in Hm'. subst m'. congruence.
      * split; [intros _; now exists m|reflexivity].
    + split; [discriminate|]. intros [m' [? _]]. discriminate.
  - intros parts Hparts.
    rewrite <- has_request_body_spec.
    rewrite curl_parts_eq in Hparts.
    assert (Hverb : negb (String.eqb (http_method method) "")
                    && negb (String.eqb (upper (http_method method)) "GET")
                    = true
                    <-> http_method method <> ""
                        /\ upper (http_method method) <> "GET").
    { rewrite andb_true_iff, !negb_true_iff, !String.eqb_neq. tauto. }
    destruct (has_request_body parser method) as [m|].
    + destruct (_generate_example_json parser fuel m) as [body|]; [|discriminate].
      apply Some_inj in Hparts. subst parts.
      rewrite !existsb_app, Hx, Hd.
      cbn [existsb orb]. rewrite orb_false_r. split; [exact Hverb|].
      split; [intros _; now exists m|reflexivity].
    + apply Some_inj in Hparts. subst parts. rewrite Hx, Hd.
      split; [exact Hverb|].
      split; [discriminate|]. intros [? ?]. discriminate.
Qed.

(** The theorem on the method of Scenario 2, a GET without a body: the
    command is laid out on four continued lines, and the line that the
    one-line layout would give is not among them. *)
Lemma curl_example_never_one_line_witness :
  option_map curl_lines (curl_parts scenario2_parser 0 scenario2_method)
  = Some ["curl \";
          "  " ++ DQ ++ "https://saas-api.tmprl.cloud/v1/items/{id}" ++ DQ ++ " \";
          qq "  -H `Content-Type: application/json` \";
          qq "  -H `Authorization: Bearer YOUR_API_KEY`"]
  /\ option_map
       (existsb
          (String.eqb
             (html_escape
                (join " "
                   ["curl";
                    DQ ++ "https://saas-api.tmprl.cloud/v1/items/{id}" ++ DQ;
                    qq "-H `Content-Type: application/json`";
                    qq "-H `Authorization: Bearer YOUR_API_KEY`"]))))
       (_generate_curl_example scenario2_parser 0 scenario2_method)
     = Some false.
Proof.
  destruct (curl_example_never_one_line scenario2_parser 0 scenario2_method)
    as [Hget _].
  destruct (Hget eq_refl) as [Hparts [Hlines _]].
  split.
  - rewrite Hparts. cbn [option_map]. now rewrite Hlines.
  - vm_compute. reflexivity.
Defined.

(** Scenario 2 from the text of the schema: the extractor records the
    binding, the curl example has no verb flag, and the HTTP tab shows the
    verb and the path. *)
Example scenario2_from_text :
  option_map service_methods (dict_get "Items" (services scenario2_parser))
  = Some [scenario2_method]
  /\ option_map (existsb (fun line => str_contains "-X" line))
                (_generate_curl_example scenario2_parser 0 scenario2_method)
     = Some false
  /\ option_map (existsb (String.eqb "GET /v1/items/{id}"))
                (_generate_html_example scenario2_parser 2 scenario2_method)
     = Some true.
Proof.
  vm_compute. repeat split.
Qed.

(** ** Missing messages and missing templates *)




Section PlainLines.
Variable fs : filesystem.
Variable parser : ProtoParser.
Variable referenced_types : reference_graph.








End PlainLines.



Section MissingParts.
Variable fs : filesystem.
Variable parser : ProtoParser.
Variable referenced_types : reference_graph.

Lemma has_request_body_unresolved (method : ProtoMethod) :
  dict_get (input_type method) (messages parser) = None ->
  has_request_body parser method = None.
Proof.
  intros H. unfold has_request_body. rewrite H.
  now destruct (_ && _).
Qed.

Lemma html_example_unresolved (fuel : nat) (method : ProtoMethod) :
  unresolved parser method ->
  exists lines, _generate_html_example parser fuel method = Some lines.
Proof.
  intros [Hin Hout].
  unfold _generate_html_example, _generate_curl_example, curl_parts,
    http_tab_body, response_pane.
  rewrite (has_request_body_unresolved _ Hin), Hout.
  destruct (has_http method);
    destruct (negb (String.eqb (output_type method) "")); now eexists.
Qed.

Lemma method_docs_unresolved (fuel : nat) (method : ProtoMethod)
      (service : ProtoService) :
  unresolved parser method ->
  exists doc,
    _generate_html_method_docs fs parser referenced_types fuel method service
    = Some doc.
Proof.
  intros Hun. unfold _generate_html_method_docs.
  destruct (html_example_unresolved fuel method Hun) as [lines ->].
  now eexists.
Qed.

Lemma has_request_body_resolved (method : ProtoMethod) (message : ProtoMessage) :
  has_request_body parser method = Some message ->
  dict_get (input_type method) (messages parser) = Some message.
Proof.
  unfold has_request_body.
  destruct (_ && _); [|discriminate].
  destruct (dict_get (input_type method) (messages parser)) as [m|];
    [|discriminate].
  destruct (msg_fields m); [discriminate|]. now intros [= ->].
Qed.

(** A method block fails to render only when the example of one of its
    resolved messages does. *)
Lemma method_docs_failure (fuel : nat) (method : ProtoMethod)
      (service : ProtoService) :
  _generate_html_method_docs fs parser referenced_types fuel method service
  = None ->
  exists message,
    (dict_get (input_type method) (messages parser) = Some message
     \/ dict_get (output_type method) (messages parser) = Some message)
    /\ _generate_example_json parser fuel message = None.
Proof.
  unfold _generate_html_method_docs.
  destruct (_generate_html_example parser fuel method) as [example|] eqn:He;
    [discriminate|].
  intros _. revert He.
  unfold _generate_html_example, _generate_curl_example, curl_parts,
    http_tab_body, response_pane.
  destruct (has_request_body parser method) as [m|] eqn:Hbody.
  - apply has_request_body_resolved in Hbody.
    destruct (_generate_example_json parser fuel m) eqn:Hm;
      [|intros _; exists m; auto].
    destruct (has_http method);
      destruct (negb (String.eqb (output_type method) ""));
      try discriminate;
      (destruct (dict_get (output_type method) (messages parser)) as [o|] eqn:Ho;
       [|discriminate]);
      (destruct (_generate_example_json parser fuel o) eqn:Hjo;
       [discriminate|]);
      intros _; exists o; auto.
  - destruct (has_http method);
      destruct (negb (String.eqb (output_type method) ""));
      try discriminate;
      (destruct (dict_get (output_type method) (messages parser)) as [o|] eqn:Ho;
       [|discriminate]);
      (destruct (_generate_example_json parser fuel o) eqn:Hjo;
       [discriminate|]);
      intros _; exists o; auto.
Qed.

Lemma methods_docs_unresolved (fuel : nat) (service : ProtoService)
      (methods : list ProtoMethod) :
  (forall method, In method methods -> unresolved parser method) ->
  exists doc,
    methods_docs fs parser referenced_types fuel methods service = Some doc.
Proof.
  induction methods as [|method methods IH]; simpl; intros Hun.
  - now eexists.
  - destruct (method_docs_unresolved fuel method service) as [d ->]; [auto|].
    destruct IH as [ds ->]; [auto|]. now eexists.
Qed.

Lemma services_docs_unresolved (fuel : nat) (svcs : list ProtoService) :
  (forall service method,
      In service svcs -> In method (service_methods service) ->
      unresolved parser method) ->
  exists doc, services_docs fs parser referenced_types fuel svcs = Some doc.
Proof.
  induction svcs as [|service svcs IH]; simpl; intros Hun.
  - now eexists.
  - unfold _generate_html_service_docs.
    destruct (methods_docs_unresolved fuel service (service_methods service))
      as [d ->]; [eauto|].
    destruct IH as [ds ->]; [eauto|]. now eexists.
Qed.
End MissingParts.

(** When neither type of a method is registered the block of the method is
    rendered whatever the nesting bound; and with the three templates
    missing and no type of any method registered, the whole document is
    rendered. *)
Lemma unresolved_methods_are_rendered (fs : filesystem) (parser : ProtoParser) :
  (forall referenced_types fuel method service,
      unresolved parser method ->
      exists doc,
        _generate_html_method_docs fs parser referenced_types fuel method
                                   service = Some doc)
  /\ (forall dir fuel,
         4 <= fuel ->
         fs (path_join dir "html_head.html") = None ->
         fs (path_join dir "html_footer.html") = None ->
         fs (path_join dir "scripts.js") = None ->
         (forall service method,
             In service (dict_values (services parser)) ->
             In method (service_methods service) ->
             unresolved parser method) ->
         exists doc,
           generate_html fs fuel (new_generator parser dir) = Some doc).
Proof.
  split.
  - intros referenced_types fuel method service Hun.
    now apply method_docs_unresolved.
  - intros dir fuel Hfuel Hhead Hfoot Hjs Hun.
    unfold generate_html, _load_template, new_generator.
    cbn [gen_parser template_dir _referenced_types_cache].
    rewrite Hhead, Hfoot, Hjs.
    change (str_format (_get_fallback_template "html_head.html") "title"
                       "Temporal Cloud Ops API Reference")
      with (Some (qq "<!DOCTYPE html><html><head><meta charset=`UTF-8`><title>Temporal Cloud Ops API Reference</title></head><body><div class=`container`>")).
    change (str_format (_get_fallback_template "html_footer.html") "javascript"
                       (_get_fallback_template "scripts.js"))
      with (Some "</div><script>// Fallback JavaScript</script></body></html>").
    unfold _collect_referenced_types.
    destruct (collect_from_services_facts fs parser fuel
                (dict_values (services parser)) []) as [Hret _].
    destruct (Hret Hfuel) as [g ->].
    destruct (services_docs_unresolved fs parser (copy_graph g) fuel
                (dict_values (services parser)) Hun) as [docs ->].
    now eexists.
Qed.

Section Aborts.
Variable fs : filesystem.
Variable parser : ProtoParser.





End Aborts.






(** A service whose method names two unknown messages, rendered without
    any template asset: the document is produced, with the method but
    with neither section. *)
Example render_with_missing_parts :
  match generate_html no_files 4 (new_generator dangling_parser "templates") with
  | Some doc =>
      str_contains (qq "<h3 id=`ping`>Ping</h3>") doc = true
      /\ str_contains request_heading doc = false
      /\ str_contains response_heading doc = false
      /\ str_contains "// Fallback JavaScript" doc = true
  | None => False
  end.
Proof.
  vm_compute. repeat split.
Qed.

(** ** Scenario 1 *)

(** C4, as amended.  For the input of Scenario 1 the document is
    rendered and holds the navigation entry of [Greeter], the section of
    [SayHello], and a Request table with the row of [name] (type string,
    not required, placeholder description).  The example response is the
    JSON object that maps [message] to [example_string]: the type
    [string] has an exact scalar default, which is tried before any
    heuristic on the field name.  The document shows it in the
    serialization of [json.dumps], escaped for HTML. *)
Theorem scenario1_rendering :
  exists doc,
    scenario1_document = Some doc
    /\ str_contains (qq "<a href=`#greeter` class=`nav-link`>Greeter</a>") doc = true
    /\ str_contains (qq "<h3 id=`sayhello`>SayHello</h3>") doc = true
    /\ str_contains scenario1_request_rows doc = true
    /\ example_of scenario1_parser "HelloReply"
       = Some (JDict [("message", JStr "example_string")])
    /\ str_contains
         (html_escape
            (json_dumps_indent2 (JDict [("message", JStr "example_string")])))
         doc = true.
Proof.
  destruct scenario1_document as [doc|] eqn:Hdoc;
    [|vm_compute in Hdoc; discriminate].
  exists doc. split; [reflexivity|].
  vm_compute in Hdoc. apply Some_inj in Hdoc. subst doc.
  vm_compute. repeat split.
Qed.

(** C4, as stated, fails: the example response of Scenario 1 is not the
    object that maps [message] to [example_name], the document holds the
    text [example_name] nowhere, and the name [message] does not even
    contain [name]. *)
Lemma scenario1_response_is_not_example_name :
  example_of scenario1_parser "HelloReply"
  <> Some (JDict [("message", JStr "example_name")])
  /\ option_map (str_contains "example_name") scenario1_document = Some false
  /\ str_contains "name" (lower "message") = false.
Proof.
  split; [|split].
  - vm_compute. discriminate.
  - vm_compute. reflexivity.
  - vm_compute. reflexivity.
Qed.

(** * Further properties *)

(** ** Where the Delimiter Matcher can stop *)

Lemma brace_step_closing (c : ascii) :
  brace_step c = (-1)%Z -> c = "}"%char.
Proof.
  unfold brace_step.
  destruct (Ascii.eqb c "{"); [discriminate|].
  destruct (Ascii.eqb c "}") eqn:E; [|discriminate].
  intros _. now apply Ascii.eqb_eq.
Qed.

Lemma find_brace_loop_range (s : string) :
  forall (i count : Z),
    find_brace_loop s i count = (-1)%Z
    \/ exists n,
        n < String.length s
        /\ find_brace_loop s i count = (i + Z.of_nat n)%Z
        /\ String.get n s = Some "}"%char.
Proof.
  induction s as [|c s IH]; intros i count.
  - now left.
  - rewrite find_brace_loop_step.
    destruct ((brace_step c =? -1)%Z && (count + brace_step c =? 0)%Z) eqn:E.
    + right. exists 0. apply andb_prop in E. destruct E as [E _].
      apply Z.eqb_eq, brace_step_closing in E. subst c.
      repeat split; simpl; lia.
    + destruct (IH (i + 1)%Z (count + brace_step c)%Z) as [H|[n [Hn [Hr Hg]]]].
      * now left.
      * right. exists (S n). repeat split; simpl; try lia. exact Hg.
Qed.

Lemma get_str_drop_shift (start n : nat) (content : string) :
  String.get n (str_drop start content) = String.get (start + n) content.
Proof.
  revert content; induction start as [|start IH]; intros content.
  - reflexivity.
  - destruct content as [|c content]; simpl.
    + now destruct n.
    + apply IH.
Qed.

(** X1. Whatever the text and the non-negative start index, the matcher
    returns either -1 or an index from the start index to the end of the
    text at which the text holds a closing brace. *)
Theorem find_matching_brace_range (content : string) (start : nat) :
  _find_matching_brace content (Z.of_nat start) = (-1)%Z
  \/ exists j,
      start <= j < String.length content
      /\ _find_matching_brace content (Z.of_nat start) = Z.of_nat j
      /\ String.get j content = Some "}"%char.
Proof.
  unfold _find_matching_brace, py_slice_from.
  replace (Z.of_nat start <? 0)%Z with false by (symmetry; apply Z.ltb_ge; lia).
  rewrite Nat2Z.id.
  destruct (find_brace_loop_range (str_drop start content) (Z.of_nat start) 0%Z)
    as [H|[n [Hn [Hr Hg]]]].
  - now left.
  - right. exists (start + n). rewrite length_str_drop in Hn.
    repeat split; try lia.
    now rewrite <- get_str_drop_shift.
Qed.

(** ** Last write wins *)

(** A dictionary filled by a loop of assignments binds a key to the value
    of the last assignment to it, and leaves the other keys alone. *)
Lemma dict_get_fold_set {X V : Type} (key : X -> string) (val : X -> V)
      (l : list X) :
  forall (d : pydict V) (k : string),
    dict_get k (fold_left (fun d x => dict_set (key x) (val x) d) l d)
    = match find (fun x => String.eqb (key x) k) (rev l) with
      | Some x => Some (val x)
      | None => dict_get k d
      end.
Proof.
  induction l as [|x l IH] using rev_ind; intros d k.
  - reflexivity.
  - rewrite fold_left_app, rev_app_distr. simpl.
    rewrite dict_get_set, (String.eqb_sym k (key x)).
    destruct (String.eqb (key x) k); [reflexivity|apply IH].
Qed.

Lemma messages_parse_messages (self : ProtoParser) (content filepath : string) :
  messages (_parse_messages self content filepath)
  = fold_left
      (fun d m => dict_set (group_or_empty 1 (m_groups m))
                           (message_of_match filepath m) d)
      (finditer message_pattern content) (messages self)
  /\ services (_parse_messages self content filepath) = services self
  /\ enums (_parse_messages self content filepath) = enums self
  /\ packages (_parse_messages self content filepath) = packages self
  /\ imports (_parse_messages self content filepath) = imports self.
Proof.
  unfold _parse_messages. revert self.
  induction (finditer message_pattern content) as [|m l IH]; intros self.
  - repeat split.
  - cbn [fold_left]. destruct (IH (set_messages self
                (dict_set (msg_name (message_of_match filepath m))
                          (message_of_match filepath m) (messages self))))
      as [H1 [H2 [H3 [H4 H5]]]].
    rewrite H1, H2, H3, H4, H5. repeat split.
Qed.

Lemma enums_parse_enums (self : ProtoParser) (content filepath : string) :
  enums (_parse_enums self content filepath)
  = fold_left
      (fun d m => dict_set (group_or_empty 1 (m_groups m))
                           (enum_of_match filepath m) d)
      (finditer enum_pattern content) (enums self)
  /\ messages (_parse_enums self content filepath) = messages self
  /\ services (_parse_enums self content filepath) = services self
  /\ packages (_parse_enums self content filepath) = packages self
  /\ imports (_parse_enums self content filepath) = imports self.
Proof.
  unfold _parse_enums. revert self.
  induction (finditer enum_pattern content) as [|m l IH]; intros self.
  - repeat split.
  - cbn [fold_left]. destruct (IH (set_enums self
                (dict_set (enum_name (enum_of_match filepath m))
                          (enum_of_match filepath m) (enums self))))
      as [H1 [H2 [H3 [H4 H5]]]].
    rewrite H1, H2, H3, H4, H5. repeat split.
Qed.

Lemma fields_parse_services (self : ProtoParser) (content filepath : string) :
  messages (_parse_services self content filepath) = messages self
  /\ enums (_parse_services self content filepath) = enums self
  /\ packages (_parse_services self content filepath) = packages self
  /\ imports (_parse_services self content filepath) = imports self.
Proof.
  unfold _parse_services. revert self.
  induction (finditer service_start_pattern content) as [|m l IH]; intros self.
  - repeat split.
  - cbn [fold_left].
    destruct (parse_service content filepath m) as [service|]; [|apply IH].
    destruct (IH (set_services self
                    (dict_set (service_name service) service (services self))))
      as [H1 [H2 [H3 H4]]].
    rewrite H1, H2, H3, H4. repeat split.
Qed.

(** The messages and the enums after [parse_file], as two loops of
    assignments over the matches in the text without comments. *)
Lemma tables_parse_content (self : ProtoParser) (filepath content : string) :
  messages (parse_content self filepath content)
  = fold_left
      (fun d m => dict_set (group_or_empty 1 (m_groups m))
                           (message_of_match filepath m) d)
      (finditer message_pattern (strip_comments content)) (messages self)
  /\ enums (parse_content self filepath content)
     = fold_left
         (fun d m => dict_set (group_or_empty 1 (m_groups m))
                              (enum_of_match filepath m) d)
         (finditer enum_pattern (strip_comments content)) (enums self).
Proof.
  unfold parse_content. fold (strip_comments content).
  set (p1 := match search package_pattern content with
             | Some _ => _ | None => _ end).
  set (p2 := match map _ (finditer import_pattern content) with
             | [] => _ | _ => _ end).
  assert (Hm : messages p2 = messages self /\ enums p2 = enums self).
  { subst p2 p1. destruct (map _ (finditer import_pattern content));
      destruct (search package_pattern content); split; reflexivity. }
  destruct Hm as [Hm He].
  destruct (enums_parse_enums
              (_parse_messages (_parse_services p2 (strip_comments content) filepath)
                               (strip_comments content) filepath)
              (strip_comments content) filepath) as [E1 [E2 _]].
  destruct (messages_parse_messages
              (_parse_services p2 (strip_comments content) filepath)
              (strip_comments content) filepath) as [M1 [_ [M3 _]]].
  destruct (fields_parse_services p2 (strip_comments content) filepath)
    as [S1 [S2 _]].
  split.
  - rewrite E2, M1, S1, Hm. reflexivity.
  - rewrite E1, M3, S2, He. reflexivity.
Qed.

(** X2. After a file is ingested, a simple name is bound to the message of
    the last [message] block of that name in the file (comments removed),
    tagged with the file; a name the file does not declare keeps the
    binding it had before, so a declaration that an earlier ingestion of
    the same file made is not withdrawn.  The same holds for enums. *)
Theorem parse_content_last_write_wins (self : ProtoParser)
        (filepath content name : string) :
  dict_get name (messages (parse_content self filepath content))
  = match last_named name (finditer message_pattern (strip_comments content)) with
    | Some m => Some (message_of_match filepath m)
    | None => dict_get name (messages self)
    end
  /\ dict_get name (enums (parse_content self filepath content))
     = match last_named name (finditer enum_pattern (strip_comments content)) with
       | Some m => Some (enum_of_match filepath m)
       | None => dict_get name (enums self)
       end
  /\ (forall message,
         dict_get name (messages (parse_content self filepath content))
         = Some message ->
         dict_get name (messages self) = Some message
         \/ (msg_name message = name
             /\ msg_source_file message = Some filepath)).
Proof.
  destruct (tables_parse_content self filepath content) as [Hm He].
  rewrite Hm, He. unfold last_named.
  rewrite !dict_get_fold_set. repeat split.
  intros message.
  destruct (find _ (rev (finditer message_pattern (strip_comments content))))
    as [m|] eqn:Hfind.
  - intros [= <-]. right. apply find_some in Hfind. destruct Hfind as [_ Hname].
    apply String.eqb_eq in Hname. split; [exact Hname|reflexivity].
  - now left.
Qed.

(** X3. Ingesting the same text of a file a second time changes no lookup
    of a message or an enum. *)
Theorem parse_content_twice (self : ProtoParser) (filepath content name : string) :
  let once := parse_content self filepath content in
  let twice := parse_content once filepath content in
  dict_get name (messages twice) = dict_get name (messages once)
  /\ dict_get name (enums twice) = dict_get name (enums once).
Proof.
  intros once twice. subst twice.
  destruct (tables_parse_content once filepath content) as [Hm He].
  rewrite Hm, He, !dict_get_fold_set.
  subst once.
  destruct (tables_parse_content self filepath content) as [Hm1 He1].
  rewrite Hm1, He1, !dict_get_fold_set.
  split.
  - now destruct (find _ (rev (finditer message_pattern (strip_comments content)))).
  - now destruct (find _ (rev (finditer enum_pattern (strip_comments content)))).
Qed.

(** ** What the patterns capture *)

Lemma str_forall_app (q : ascii -> bool) (a b : string) :
  str_forall q (a ++ b) = str_forall q a && str_forall q b.
Proof.
  induction a as [|c a IH]; simpl; [reflexivity|].
  now rewrite IH, andb_assoc.
Qed.

Lemma str_forall_and (q1 q2 : ascii -> bool) (s : string) :
  str_forall (fun c => q1 c && q2 c) s = true ->
  str_forall q1 s = true /\ str_forall q2 s = true.
Proof.
  induction s as [|c s IH]; simpl; [auto|].
  intros H. apply andb_prop in H. destruct H as [Hc Hs].
  apply andb_prop in Hc. destruct Hc as [H1 H2].
  destruct (IH Hs) as [I1 I2]. now rewrite H1, H2, I1, I2.
Qed.

Lemma consumes_and (q1 q2 : ascii -> bool) (r : regex) :
  consumes q1 r -> consumes q2 r -> consumes (fun c => q1 c && q2 c) r.
Proof.
  induction r; simpl; intros H1 H2; auto.
  - now rewrite H1, H2.
  - intros c Hc. now rewrite (H1 c Hc), (H2 c Hc).
  - destruct H1, H2. split; auto.
  - destruct H1, H2. split; auto.
Qed.

Lemma consumes_anything (r : regex) : consumes (fun _ => true) r.
Proof.
  induction r; simpl; auto.
Qed.

Lemma length_append (a b : string) :
  String.length (a ++ b) = String.length a + String.length b.
Proof.
  induction a as [|c a IH]; simpl; [reflexivity|]. now rewrite IH.
Qed.

Lemma substring_prefix (w s : string) :
  substring 0 (String.length w) (w ++ s) = w.
Proof.
  induction w as [|c w IH]; simpl.
  - now destruct s.
  - now rewrite IH.
Qed.

Lemma consumed_app (w s : string) : consumed (w ++ s) s = w.
Proof.
  unfold consumed. rewrite length_append.
  replace (String.length w + String.length s - String.length s)
    with (String.length w) by lia.
  apply substring_prefix.
Qed.

Lemma append_assoc (a b c : string) : (a ++ b) ++ c = a ++ b ++ c.
Proof.
  induction a as [|x a IH]; simpl; [reflexivity|]. now rewrite IH.
Qed.

(** The matcher is sound for what it consumes and captures: a result of
    the continuation is reached on a suffix of the input, the text before
    it passes the test of the pattern, and so do the captured texts. *)
Lemma run_sound {A : Type} (Q : nat -> ascii -> bool) (fuel : nat) :
  forall (r : regex) (q : ascii -> bool) (s : string) (cs : captures)
         (k : string -> captures -> result A) (x : A),
    consumes q r -> groups_consume Q r -> captures_pass Q cs ->
    run fuel r s cs k = Found x ->
    exists s' cs' w,
      k s' cs' = Found x /\ s = w ++ s' /\ str_forall q w = true
      /\ captures_pass Q cs'.
Proof.
  induction fuel as [fuel IHfuel] using lt_wf_ind.
  induction r as [| c | p | a IHa b IHb | a IHa b IHb | r IHr | r IHr
                  | n r IHr | ]; intros q s cs k x Hq HQ Hcs Hrun;
    rewrite run_unfold in Hrun.
  - exists s, cs, "". auto.
  - destruct s as [|c' s']; [discriminate|].
    destruct (Ascii.eqb c c') eqn:E; [|discriminate].
    apply Ascii.eqb_eq in E; subst c'. simpl in Hq.
    exists s', cs, (String c ""). simpl. rewrite Hq. auto.
  - destruct s as [|c' s']; [discriminate|].
    destruct (p c') eqn:E; [|discriminate]. simpl in Hq.
    exists s', cs, (String c' ""). simpl. rewrite (Hq c' E). auto.
  - destruct Hq as [Hqa Hqb]. destruct HQ as [HQa HQb].
    destruct (IHa q s cs _ x Hqa HQa Hcs Hrun)
      as [s1 [cs1 [w1 [Hrun1 [Hs1 [Hw1 Hcs1]]]]]].
    destruct (IHb q s1 cs1 k x Hqb HQb Hcs1 Hrun1)
      as [s2 [cs2 [w2 [Hrun2 [Hs2 [Hw2 Hcs2]]]]]].
    exists s2, cs2, (w1 ++ w2). repeat split; auto.
    + now rewrite append_assoc, <- Hs2.
    + now rewrite str_forall_app, Hw1, Hw2.
  - destruct Hq as [Hqa Hqb]. destruct HQ as [HQa HQb].
    destruct (run fuel a s cs k) as [y| |] eqn:Ha.
    + apply (IHa q s cs k x Hqa HQa Hcs). congruence.
    + now apply (IHb q s cs k x Hqb HQb Hcs).
    + discriminate.
  - destruct fuel as [|fuel']; [discriminate|].
    simpl in Hq, HQ.
    match type of Hrun with
    | match ?body with _ => _ end = _ => destruct body as [y| |] eqn:Hbody
    end.
    + assert (y = x) by congruence. subst y.
      destruct (IHr q s cs _ x Hq HQ Hcs Hbody)
        as [s1 [cs1 [w1 [Hrun1 [Hs1 [Hw1 Hcs1]]]]]].
      destruct (String.length s1 <? String.length s); [|discriminate].
      destruct (IHfuel fuel' (Nat.lt_succ_diag_r fuel') (Star r) q s1 cs1 k x
                       Hq HQ Hcs1 Hrun1)
        as [s2 [cs2 [w2 [Hrun2 [Hs2 [Hw2 Hcs2]]]]]].
      exists s2, cs2, (w1 ++ w2). repeat split; auto.
      * now rewrite append_assoc, <- Hs2.
      * now rewrite str_forall_app, Hw1, Hw2.
    + exists s, cs, "". auto.
    + discriminate.
  - simpl in Hq, HQ.
    destruct (k s cs) as [y| |] eqn:Hk.
    + exists s, cs, "". repeat split; auto. congruence.
    + destruct fuel as [|fuel']; [discriminate|].
      destruct (IHr q s cs _ x Hq HQ Hcs Hrun)
        as [s1 [cs1 [w1 [Hrun1 [Hs1 [Hw1 Hcs1]]]]]].
      destruct (String.length s1 <? String.length s); [|discriminate].
      destruct (IHfuel fuel' (Nat.lt_succ_diag_r fuel') (LazyStar r) q s1 cs1 k x
                       Hq HQ Hcs1 Hrun1)
        as [s2 [cs2 [w2 [Hrun2 [Hs2 [Hw2 Hcs2]]]]]].
      exists s2, cs2, (w1 ++ w2). repeat split; auto.
      * now rewrite append_assoc, <- Hs2.
      * now rewrite str_forall_app, Hw1, Hw2.
    + discriminate.
  - simpl in Hq. destruct HQ as [HQn HQ].
    destruct (IHr (fun c => q c && Q n c) s cs _ x
                  (consumes_and _ _ _ Hq HQn) HQ Hcs Hrun)
      as [s1 [cs1 [w1 [Hrun1 [Hs1 [Hw1 Hcs1]]]]]].
    apply str_forall_and in Hw1. destruct Hw1 as [Hwq HwQ].
    exists s1, ((n, consumed s s1) :: cs1), w1. repeat split; auto.
    intros n' w' [Heq|Hin]; [|now apply Hcs1].
    injection Heq as <- <-. now rewrite Hs1, consumed_app.
  - exists s, cs, "". repeat split; auto.
    destruct s as [|c s']; [exact Hrun|].
    destruct (Ascii.eqb c newline); [exact Hrun|discriminate].
Qed.

Lemma match_at_captures (Q : nat -> ascii -> bool) (r : regex)
      (content : string) (pos : nat) (m : rmatch) :
  groups_consume Q r ->
  match_at r content pos = Found m ->
  captures_pass Q (m_groups m).
Proof.
  intros HQ Hm. unfold match_at in Hm.
  apply (run_sound Q _ r (fun _ => true)) in Hm;
    [|apply consumes_anything|exact HQ|intros ? ? []].
  destruct Hm as [s' [cs' [w [Hk [_ [_ Hcs]]]]]].
  injection Hk as <-. exact Hcs.
Qed.

Lemma finditer_from_captures (Q : nat -> ascii -> bool) (r : regex)
      (content : string) (rounds : nat) :
  groups_consume Q r ->
  forall pos m,
    In m (finditer_from rounds r content pos) -> captures_pass Q (m_groups m).
Proof.
  intros HQ. induction rounds as [|rounds IH]; intros pos m; simpl; [easy|].
  destruct (String.length content <? pos); [easy|].
  destruct (search_from _ r content pos) as [m0| |] eqn:Hs; try easy.
  intros [<-|Hin]; [|now apply (IH _ _ Hin)].
  apply search_from_found in Hs. destruct Hs as [p Hp].
  now apply (match_at_captures Q r content p).
Qed.

(** Every match that [finditer] yields has captured texts that pass the
    tests of their groups. *)
Lemma finditer_captures (Q : nat -> ascii -> bool) (r : regex)
      (content : string) (m : rmatch) :
  groups_consume Q r ->
  In m (finditer r content) -> captures_pass Q (m_groups m).
Proof.
  intros HQ. apply finditer_from_captures. exact HQ.
Qed.

Lemma group_or_empty_passes (Q : nat -> ascii -> bool) (cs : captures) (n : nat) :
  captures_pass Q cs -> str_forall (Q n) (group_or_empty n cs) = true.
Proof.
  intros Hcs. unfold group_or_empty.
  destruct (group n cs) as [w|] eqn:Hg; [|reflexivity].
  apply (Hcs n w). clear Hcs.
  induction cs as [|[n' w'] cs IH]; simpl in *; [discriminate|].
  destruct (Nat.eqb n n') eqn:E.
  - apply Nat.eqb_eq in E. subst. injection Hg as ->. now left.
  - right. now apply IH.
Qed.

(** ** Qualified keys are aliases *)

Lemma split_on_nonempty (sep : ascii) (s : string) : split_on sep s <> [].
Proof.
  destruct s as [|c s]; simpl; [discriminate|].
  destruct (Ascii.eqb c sep); [discriminate|].
  destruct (split_on sep s); discriminate.
Qed.

Lemma split_on_app (sep : ascii) (a b : string) :
  split_on sep (a ++ String sep b) = (split_on sep a ++ split_on sep b)%list.
Proof.
  induction a as [|c a IH]; simpl.
  - now rewrite Ascii.eqb_refl.
  - destruct (Ascii.eqb c sep); [now rewrite IH|].
    rewrite IH. pose proof (split_on_nonempty sep a) as Hne.
    destruct (split_on sep a); [congruence|reflexivity].
Qed.

Lemma last_app_nonempty {A : Type} (l1 l2 : list A) (d : A) :
  l2 <> [] -> last (l1 ++ l2) d = last l2 d.
Proof.
  intros Hne. induction l1 as [|x l1 IH]; [reflexivity|].
  simpl. destruct (l1 ++ l2)%list eqn:E; [|exact IH].
  apply app_eq_nil in E. destruct E. contradiction.
Qed.

(** The simple name of a qualified name is the simple name of what was
    qualified. *)
Lemma last_dot_part_qualified (p k : string) :
  last_dot_part (p ++ "." ++ k) = last_dot_part k.
Proof.
  unfold last_dot_part. change ("." ++ k) with (String "." k).
  rewrite split_on_app. apply last_app_nonempty, split_on_nonempty.
Qed.

Lemma dot_free_split (k : string) : dot_free k -> split_on "." k = [k].
Proof.
  unfold dot_free. induction k as [|c k IH]; [reflexivity|].
  cbn [str_contains split_on]. intros H. apply orb_false_elim in H.
  destruct H as [Hp Hk]. rewrite (IH Hk).
  destruct (Ascii.eqb c ".") eqn:E; [|reflexivity].
  apply Ascii.eqb_eq in E. subst c. destruct k; discriminate.
Qed.

Lemma last_dot_part_dot_free (k : string) : dot_free k -> last_dot_part k = k.
Proof.
  intros H. unfold last_dot_part. now rewrite (dot_free_split k H).
Qed.

Lemma dict_get_update_cases {V : Type} (k : string) (v : V) (d q : pydict V) :
  dict_get k (dict_update d q) = Some v ->
  In (k, v) q \/ dict_get k d = Some v.
Proof.
  unfold dict_update. revert d.
  induction q as [|[k1 v1] q IH]; simpl; intros d H; [now right|].
  destruct (IH _ H) as [Hin|Hget]; [now left; right|].
  rewrite dict_get_set in Hget.
  destruct (String.eqb k k1) eqn:E; [|now right].
  apply String.eqb_eq in E. subst k1. injection Hget as ->. now left; left.
Qed.

Lemma dict_mem_get {V : Type} (k : string) (d : pydict V) :
  dict_mem k d = true -> exists v, dict_get k d = Some v.
Proof.
  unfold dict_mem. destruct (dict_get k d) as [v|]; [now exists v|discriminate].
Qed.

Section AliasFacts.
Context {E : Type} (source_file : E -> option string).

(** On a table in which every key is an alias of its simple name,
    qualification changes no existing binding, binds the qualified key of
    every entity of a packaged file to that same entity, binds nothing to
    an entity that its simple name is not bound to, and hands on a table
    with the same property. *)
Lemma qualify_alias_facts (pkgs : pydict string) (table : pydict E) :
  NoDup (dict_keys table) ->
  alias_consistent table ->
  (forall k e, dict_get k table = Some e ->
               dict_get k (qualify source_file pkgs table) = Some e)
  /\ (forall k e f p,
         dict_get k table = Some e -> source_file e = Some f ->
         In (f, p) pkgs ->
         dict_get (p ++ "." ++ k) (qualify source_file pkgs table) = Some e)
  /\ (forall k e,
         dict_get k (qualify source_file pkgs table) = Some e ->
         dict_get (last_dot_part k) table = Some e)
  /\ NoDup (dict_keys (qualify source_file pkgs table))
  /\ alias_consistent (qualify source_file pkgs table).
Proof.
  intros Hnd Halias.
  destruct (qualify_run source_file pkgs table Hnd) as [Hnd' [Hkeep [_ Hadd]]].
  assert (Hback : forall k e,
             dict_get k (qualify source_file pkgs table) = Some e ->
             dict_get (last_dot_part k) table = Some e).
  { intros k e Hget. unfold qualify in Hget.
    apply dict_get_update_cases in Hget. destruct Hget as [Hin|Hget].
    - apply qualified_names_origin in Hin. destruct Hin as [Hin|Hpre].
      + apply Halias. now apply in_dict_get.
      + destruct Hpre as [k' [f [p [Hin [_ [_ ->]]]]]].
        rewrite last_dot_part_qualified. apply Halias. now apply in_dict_get.
    - now apply Halias. }
  assert (Hsame : forall k e, dict_get k table = Some e ->
                              dict_get k (qualify source_file pkgs table) = Some e).
  { intros k e Hget.
    destruct (dict_mem_get k (qualify source_file pkgs table)) as [v Hv].
    { apply Hkeep. unfold dict_mem. now rewrite Hget. }
    rewrite Hv. f_equal. apply Hback in Hv. apply Halias in Hget. congruence. }
  repeat split; auto.
  - intros k e f p Hget Hsrc Hfp.
    destruct (dict_mem_get (p ++ "." ++ k) (qualify source_file pkgs table))
      as [v Hv].
    { eapply Hadd; eauto. now apply dict_get_in. }
    rewrite Hv. f_equal. apply Hback in Hv.
    rewrite last_dot_part_qualified in Hv. apply Halias in Hget. congruence.
  - intros k e Hget. apply Hsame. now apply Hback.
Qed.
End AliasFacts.

(** X4. If the keys of the message table are distinct and each is bound to
    the message that its last dotted component is bound to, then
    [_build_qualified_names] changes no existing binding, binds the
    qualified key [package.name] of every message of a packaged file to that
    same message, binds no key to a message that its simple name was not
    bound to, and leaves a table with the same two properties, so that it
    can be run again.  The loop over the enums is the same code. *)
Theorem build_qualified_names_aliases (self : ProtoParser) :
  NoDup (dict_keys (messages self)) ->
  alias_consistent (messages self) ->
  let after := _build_qualified_names self in
  (forall name message,
      dict_get name (messages self) = Some message ->
      dict_get name (messages after) = Some message)
  /\ (forall name message f p,
         dict_get name (messages self) = Some message ->
         msg_source_file message = Some f ->
         In (f, p) (packages self) ->
         dict_get (p ++ "." ++ name) (messages after) = Some message)
  /\ (forall name message,
         dict_get name (messages after) = Some message ->
         dict_get (last_dot_part name) (messages self) = Some message)
  /\ NoDup (dict_keys (messages after))
  /\ alias_consistent (messages after)
  /\ packages after = packages self.
Proof.
  intros Hnd Halias after.
  destruct (qualify_alias_facts msg_source_file (packages self) (messages self)
              Hnd Halias) as [H1 [H2 [H3 [H4 H5]]]].
  subst after. unfold _build_qualified_names. cbn [messages packages].
  repeat split; assumption.
Qed.

(** The theorem on the messages of Scenario 1 after ingestion and the
    seeding of the built-in types. *)
Lemma build_qualified_names_aliases_witness :
  dict_get "demo.HelloReply"
           (messages (_build_qualified_names scenario1_ingested))
  = dict_get "HelloReply" (messages scenario1_ingested).
Proof.
  assert (Hnd : NoDup (dict_keys (messages scenario1_ingested)))
    by (apply nodupb_sound; vm_compute; reflexivity).
  assert (Halias : alias_consistent (messages scenario1_ingested)).
  { intros k e Hget. apply dict_get_in in Hget. vm_compute in Hget.
    repeat (destruct Hget as [Hget|Hget];
            [injection Hget as <- <-; vm_compute; reflexivity|]).
    destruct Hget. }
  destruct (build_qualified_names_aliases scenario1_ingested Hnd Halias)
    as [_ [H _]].
  transitivity
    (Some (mk_message "HelloReply"
             [mk_field "message" "string" 1 "" "" false] ""
             (Some "demo.proto"))).
  - apply (H "HelloReply" _ "demo.proto" "demo").
    + vm_compute. reflexivity.
    + reflexivity.
    + vm_compute. now left.
  - vm_compute. reflexivity.
Defined.

(** ** Extracted names are identifiers *)

Lemma consumes_Str (q : ascii -> bool) (s : string) :
  str_forall q s = true -> consumes q (Str s).
Proof.
  induction s as [|c s IH]; simpl; [easy|].
  intros H. apply andb_prop in H. destruct H as [Hc Hs]. split; auto.
Qed.

Lemma groups_consume_Str (Q : nat -> ascii -> bool) (s : string) :
  groups_consume Q (Str s).
Proof.
  induction s as [|c s IH]; simpl; auto.
Qed.

Ltac pattern_groups :=
  repeat match goal with
         | |- _ /\ _ => split
         | |- groups_consume _ (Str _) => apply groups_consume_Str
         | |- consumes _ (Str _) => apply consumes_Str; reflexivity
         | |- True => exact I
         | |- forall c, _ => intros ? ?
         | |- _ => progress cbn [groups_consume consumes Seq Plus Opt word digit
                                   space none_of dot name_group field_group
                                   rpc_group Nat.eqb]
         end.

Lemma message_pattern_groups : groups_consume name_group message_pattern.
Proof.
  unfold message_pattern. pattern_groups; auto.
Qed.

Lemma enum_pattern_groups : groups_consume name_group enum_pattern.
Proof.
  unfold enum_pattern. pattern_groups; auto.
Qed.

Lemma value_pattern_groups : groups_consume name_group value_pattern.
Proof.
  unfold value_pattern. pattern_groups; auto.
Qed.

Lemma service_start_pattern_groups :
  groups_consume name_group service_start_pattern.
Proof.
  unfold service_start_pattern. pattern_groups; auto.
Qed.

Lemma rpc_start_pattern_groups : groups_consume rpc_group rpc_start_pattern.
Proof.
  unfold rpc_start_pattern. pattern_groups; auto.
Qed.

Lemma field_pattern_groups : groups_consume field_group field_pattern.
Proof.
  unfold field_pattern. pattern_groups; auto;
    unfold is_word_or_dot;
    try match goal with H : is_word _ = true |- _ => now rewrite H end.
Qed.

(** A word holds no dot. *)
Lemma word_dot_free (w : string) : str_forall is_word w = true -> dot_free w.
Proof.
  unfold dot_free. induction w as [|c w IH]; [reflexivity|].
  cbn [str_forall str_contains]. intros H. apply andb_prop in H.
  destruct H as [Hc Hw]. rewrite (IH Hw), orb_false_r.
  cbn [prefix]. destruct (ascii_dec "." c) as [<-|Hne]; [discriminate|reflexivity].
Qed.

(** The keys that a loop of assignments leaves are the keys there were and
    the keys assigned. *)
Lemma fold_set_keys {X V : Type} (key : X -> string) (val : X -> V)
      (l : list X) :
  forall (d : pydict V) (k : string),
    In k (dict_keys (fold_left (fun d x => dict_set (key x) (val x) d) l d)) ->
    In k (dict_keys d) \/ exists x, In x l /\ key x = k.
Proof.
  induction l as [|x l IH]; intros d k Hin; [now left|].
  cbn [fold_left] in Hin. destruct (IH _ _ Hin) as [Hk|[y [Hy Hk]]].
  - rewrite dict_keys_set in Hk.
    destruct (dict_mem (key x) d); [now left|].
    apply in_app_or in Hk. destruct Hk as [Hk|[Hk|[]]]; [now left|].
    right. exists x. split; [now left|exact Hk].
  - right. exists y. split; [now right|exact Hk].
Qed.

Lemma NoDup_fold_set {X V : Type} (key : X -> string) (val : X -> V)
      (l : list X) :
  forall d : pydict V,
    NoDup (dict_keys d) ->
    NoDup (dict_keys (fold_left (fun d x => dict_set (key x) (val x) d) l d)).
Proof.
  induction l as [|x l IH]; intros d Hd; [exact Hd|].
  cbn [fold_left]. apply IH. now apply NoDup_dict_set.
Qed.

Lemma str_forall_weaken (p q : ascii -> bool) (s : string) :
  (forall c, p c = true -> q c = true) ->
  str_forall p s = true -> str_forall q s = true.
Proof.
  intros Hpq. induction s as [|c s IH]; [reflexivity|].
  cbn [str_forall]. intros H. apply andb_prop in H. destruct H as [Hc Hs].
  now rewrite (Hpq c Hc), (IH Hs).
Qed.

Lemma word_is_name (s : string) :
  str_forall is_word s = true -> str_forall is_name_char s = true.
Proof.
  apply str_forall_weaken. intros c H. unfold is_name_char. now rewrite H.
Qed.

Lemma dotted_word_is_dotted_name (s : string) :
  str_forall is_word_or_dot s = true -> str_forall is_dotted_name_char s = true.
Proof.
  apply str_forall_weaken. intros c H.
  unfold is_word_or_dot in H. unfold is_dotted_name_char, is_name_char.
  apply orb_prop in H. destruct H as [H|H]; rewrite H;
    [reflexivity|apply orb_true_r].
Qed.

Lemma field_of_match_names (body : string) (field : ProtoField) :
  In field (map field_of_match (field_matches body)) ->
  str_forall is_word (field_name field) = true
  /\ str_forall is_word_or_dot (field_type field) = true.
Proof.
  intros Hin. apply in_map_iff in Hin. destruct Hin as [m [<- Hm]].
  pose proof (finditer_captures field_group field_pattern body m
                field_pattern_groups Hm) as Hcs.
  split.
  - exact (group_or_empty_passes field_group (m_groups m) 3 Hcs).
  - exact (group_or_empty_passes field_group (m_groups m) 2 Hcs).
Qed.

(** X5. A message that the ingestion of a file binds to a name (the name was
    not bound to it before) has a name that holds no ASCII character other
    than letters, digits and underscores, so no white space, no dot and no
    punctuation, and so have its fields; a field type holds, besides these,
    dots only.  So does an enum that the ingestion binds, and the names of
    its values.  (On ASCII text the names are made of letters, digits and
    underscores.) *)
Theorem ingested_names_are_identifiers (self : ProtoParser)
        (filepath content name : string) :
  (forall message,
      dict_get name (messages (parse_content self filepath content))
      = Some message ->
      dict_get name (messages self) = Some message
      \/ (str_forall is_name_char (msg_name message) = true
          /\ forall field, In field (msg_fields message) ->
               str_forall is_name_char (field_name field) = true
               /\ str_forall is_dotted_name_char (field_type field) = true))
  /\ (forall enum,
         dict_get name (enums (parse_content self filepath content))
         = Some enum ->
         dict_get name (enums self) = Some enum
         \/ (str_forall is_name_char (enum_name enum) = true
             /\ forall value, In value (dict_keys (enum_values enum)) ->
                  str_forall is_name_char value = true)).
Proof.
  destruct (tables_parse_content self filepath content) as [Hm He].
  rewrite Hm, He, !dict_get_fold_set. split.
  - intros message.
    destruct (find _ (rev (finditer message_pattern (strip_comments content))))
      as [m|] eqn:Hfind; [|now left].
    intros Heq. apply Some_inj in Heq. subst message. right.
    apply find_some in Hfind. destruct Hfind as [Hin _].
    apply in_rev in Hin.
    pose proof (finditer_captures name_group _ _ m message_pattern_groups Hin)
      as Hcs.
    split.
    + exact (word_is_name _ (group_or_empty_passes name_group (m_groups m) 1 Hcs)).
    + intros field Hfield.
      destruct (field_of_match_names _ _ Hfield) as [Hn Ht].
      split; [now apply word_is_name|now apply dotted_word_is_dotted_name].
  - intros enum.
    destruct (find _ (rev (finditer enum_pattern (strip_comments content))))
      as [m|] eqn:Hfind; [|now left].
    intros Heq. apply Some_inj in Heq. subst enum. right.
    apply find_some in Hfind. destruct Hfind as [Hin _].
    apply in_rev in Hin.
    pose proof (finditer_captures name_group _ _ m enum_pattern_groups Hin)
      as Hcs.
    split.
    + exact (word_is_name _ (group_or_empty_passes name_group (m_groups m) 1 Hcs)).
    + intros value Hvalue. cbn [enum_of_match enum_values] in Hvalue.
      apply (fold_set_keys
               (fun vm => group_or_empty 1 (m_groups vm))
               (fun vm => int_of_digits (group_or_empty 2 (m_groups vm))))
        in Hvalue.
      destruct Hvalue as [[]|[vm [Hvm <-]]].
      pose proof (finditer_captures name_group _ _ vm value_pattern_groups Hvm)
        as Hvcs.
      exact (word_is_name _ (group_or_empty_passes name_group (m_groups vm) 1 Hvcs)).
Qed.

(** The theorem on the text of Scenario 1. *)
Lemma ingested_names_are_identifiers_witness :
  str_forall is_name_char "HelloReply" = true
  /\ str_forall is_name_char "message" = true.
Proof.
  destruct (ingested_names_are_identifiers new_parser "demo.proto"
              scenario1_text "HelloReply") as [H _].
  destruct (H (mk_message "HelloReply"
                 [mk_field "message" "string" 1 "" "" false] ""
                 (Some "demo.proto")))
    as [Hold|[Hname Hfields]].
  - vm_compute. reflexivity.
  - discriminate Hold.
  - split; [exact Hname|].
    apply (Hfields (mk_field "message" "string" 1 "" "" false)). now left.
Defined.

(** ** The registry that [parse_repository] builds *)

Lemma parse_repository_ingest (fs : filesystem) (walk : list string)
      (self : ProtoParser) :
  parse_repository fs walk self
  = _build_qualified_names (_add_well_known_types (ingest fs walk self)).
Proof. reflexivity. Qed.

Lemma simple_keys_fold_set {X V : Type} (key : X -> string) (val : X -> V)
      (l : list X) (d : pydict V) :
  simple_keys d ->
  (forall x, In x l -> dot_free (key x)) ->
  simple_keys (fold_left (fun d x => dict_set (key x) (val x) d) l d).
Proof.
  intros [Hnd Hfree] Hl. split.
  - now apply NoDup_fold_set.
  - intros k Hk. apply fold_set_keys in Hk.
    destruct Hk as [Hk|[x [Hx <-]]]; auto.
Qed.

Lemma parse_content_simple_keys (self : ProtoParser) (filepath content : string) :
  simple_keys (messages self) -> simple_keys (enums self) ->
  simple_keys (messages (parse_content self filepath content))
  /\ simple_keys (enums (parse_content self filepath content)).
Proof.
  intros Hm He.
  destruct (tables_parse_content self filepath content) as [Em Ee].
  rewrite Em, Ee. split.
  - apply simple_keys_fold_set; [exact Hm|].
    intros m Hin. apply word_dot_free.
    exact (group_or_empty_passes name_group (m_groups m) 1
             (finditer_captures name_group _ _ m message_pattern_groups Hin)).
  - apply simple_keys_fold_set; [exact He|].
    intros m Hin. apply word_dot_free.
    exact (group_or_empty_passes name_group (m_groups m) 1
             (finditer_captures name_group _ _ m enum_pattern_groups Hin)).
Qed.

Lemma ingest_simple_keys (fs : filesystem) (walk : list string) :
  forall self,
    simple_keys (messages self) -> simple_keys (enums self) ->
    simple_keys (messages (ingest fs walk self))
    /\ simple_keys (enums (ingest fs walk self)).
Proof.
  unfold ingest. induction walk as [|filepath walk IH]; intros self Hm He.
  - now split.
  - cbn [fold_left]. unfold parse_file.
    destruct (endswith filepath ".proto"); [|now apply IH].
    destruct (fs filepath) as [content|]; [|now apply IH].
    destruct (parse_content_simple_keys self filepath content Hm He).
    now apply IH.
Qed.

Lemma simple_keys_alias {V : Type} (d : pydict V) :
  simple_keys d -> alias_consistent d.
Proof.
  intros [_ Hfree] k e Hget.
  rewrite last_dot_part_dot_free; [exact Hget|].
  apply Hfree. apply dict_mem_keys. unfold dict_mem. now rewrite Hget.
Qed.

(** The message table after the built-in types are seeded. *)
Lemma well_known_types_table (self : ProtoParser) :
  messages (_add_well_known_types self)
  = dict_set "temporal.api.common.v1.Payload" payload_msg
      (dict_set "Payload" payload_msg
         (dict_set "google.protobuf.Any" any_msg
            (dict_set "Any" any_msg
               (dict_set "google.protobuf.Duration" duration_msg
                  (dict_set "Duration" duration_msg
                     (dict_set "google.protobuf.Timestamp" timestamp_msg
                        (dict_set "Timestamp" timestamp_msg (messages self))))))))
  /\ enums (_add_well_known_types self) = enums self.
Proof. split; reflexivity. Qed.

Ltac builtin_binding E :=
  let H := fresh "H" in
  intros H; apply String.eqb_eq in E; apply Some_inj in H; subst;
  rewrite !dict_get_set; reflexivity.

Lemma well_known_types_aliases (self : ProtoParser) :
  simple_keys (messages self) ->
  NoDup (dict_keys (messages (_add_well_known_types self)))
  /\ alias_consistent (messages (_add_well_known_types self)).
Proof.
  intros [Hnd Hfree].
  destruct (well_known_types_table self) as [-> _]. split.
  - repeat apply NoDup_dict_set. exact Hnd.
  - intros k e Hget. rewrite !dict_get_set in Hget. revert Hget.
    destruct (String.eqb k "temporal.api.common.v1.Payload") eqn:E1;
      [builtin_binding E1|].
    destruct (String.eqb k "Payload") eqn:E2; [builtin_binding E2|].
    destruct (String.eqb k "google.protobuf.Any") eqn:E3; [builtin_binding E3|].
    destruct (String.eqb k "Any") eqn:E4; [builtin_binding E4|].
    destruct (String.eqb k "google.protobuf.Duration") eqn:E5;
      [builtin_binding E5|].
    destruct (String.eqb k "Duration") eqn:E6; [builtin_binding E6|].
    destruct (String.eqb k "google.protobuf.Timestamp") eqn:E7;
      [builtin_binding E7|].
    destruct (String.eqb k "Timestamp") eqn:E8; [builtin_binding E8|].
    intros Hget.
    rewrite last_dot_part_dot_free
      by (apply Hfree, dict_mem_keys; unfold dict_mem; now rewrite Hget).
    rewrite !dict_get_set, E1, E2, E3, E4, E5, E6, E7, E8. exact Hget.
Qed.

(** X6. Whatever the files and the walk, the registry that
    [parse_repository] builds from an empty parser binds the four built-in
    simple names and their four qualified names to the built-in messages,
    also when a parsed file declares a message of such a name; every key of
    the message table and of the enum table is bound to what its last
    dotted component is bound to; a simple name bound to a message of a
    packaged file has its qualified name bound to the same message; and a
    further run of [_build_qualified_names] changes no binding. *)
Theorem parse_repository_registry (fs : filesystem) (walk : list string) :
  let parser := parse_repository fs walk new_parser in
  (dict_get "Timestamp" (messages parser) = Some timestamp_msg
   /\ dict_get "google.protobuf.Timestamp" (messages parser) = Some timestamp_msg
   /\ dict_get "Duration" (messages parser) = Some duration_msg
   /\ dict_get "google.protobuf.Duration" (messages parser) = Some duration_msg
   /\ dict_get "Any" (messages parser) = Some any_msg
   /\ dict_get "google.protobuf.Any" (messages parser) = Some any_msg
   /\ dict_get "Payload" (messages parser) = Some payload_msg
   /\ dict_get "temporal.api.common.v1.Payload" (messages parser)
      = Some payload_msg)
  /\ alias_consistent (messages parser)
  /\ alias_consistent (enums parser)
  /\ (forall name message f p,
         dot_free name ->
         dict_get name (messages parser) = Some message ->
         msg_source_file message = Some f ->
         In (f, p) (packages parser) ->
         dict_get (p ++ "." ++ name) (messages parser) = Some message)
  /\ (forall name enum f p,
         dot_free name ->
         dict_get name (enums parser) = Some enum ->
         enum_source_file enum = Some f ->
         In (f, p) (packages parser) ->
         dict_get (p ++ "." ++ name) (enums parser) = Some enum)
  /\ (forall name message,
         dict_get name (messages parser) = Some message ->
         dict_get name (messages (_build_qualified_names parser))
         = Some message)
  /\ (forall name enum,
         dict_get name (enums parser) = Some enum ->
         dict_get name (enums (_build_qualified_names parser)) = Some enum).
Proof.
  intros parser. subst parser. rewrite parse_repository_ingest.
  destruct (ingest_simple_keys fs walk new_parser) as [Hm He];
    try (split; [constructor|intros k []]).
  set (seeded := _add_well_known_types (ingest fs walk new_parser)).
  destruct (well_known_types_aliases _ Hm) as [Hnd Halias].
  fold seeded in Hnd, Halias.
  assert (Hee : enums seeded = enums (ingest fs walk new_parser))
    by reflexivity.
  assert (Hend : NoDup (dict_keys (enums seeded)))
    by (rewrite Hee; apply He).
  assert (Healias : alias_consistent (enums seeded))
    by (rewrite Hee; now apply simple_keys_alias).
  destruct (qualify_alias_facts msg_source_file (packages seeded)
              (messages seeded) Hnd Halias) as [M1 [M2 [M3 [M4 M5]]]].
  destruct (qualify_alias_facts enum_source_file (packages seeded)
              (enums seeded) Hend Healias) as [N1 [N2 [N3 [N4 N5]]]].
  destruct (qualify_alias_facts msg_source_file (packages seeded)
              (qualify msg_source_file (packages seeded) (messages seeded))
              M4 M5) as [R1 _].
  destruct (qualify_alias_facts enum_source_file (packages seeded)
              (qualify enum_source_file (packages seeded) (enums seeded))
              N4 N5) as [S1 _].
  unfold _build_qualified_names. cbn [messages enums packages].
  split; [|repeat split; auto].
  - destruct (well_known_types_table (ingest fs walk new_parser)) as [Et _].
    fold seeded in Et.
    repeat split; apply M1; rewrite Et, !dict_get_set; reflexivity.
  - intros name message f p Hfree Hget Hsrc Hin.
    apply M3 in Hget. rewrite (last_dot_part_dot_free name Hfree) in Hget.
    now apply (M2 name message f p).
  - intros name enum f p Hfree Hget Hsrc Hin.
    apply N3 in Hget. rewrite (last_dot_part_dot_free name Hfree) in Hget.
    now apply (N2 name enum f p).
Qed.

(** ** Extracted services *)

Lemma search_captures (Q : nat -> ascii -> bool) (r : regex)
      (content : string) (m : rmatch) :
  groups_consume Q r ->
  search r content = Some m -> captures_pass Q (m_groups m).
Proof.
  intros HQ. unfold search.
  destruct (search_from _ r content 0) as [m0| |] eqn:Hs; try discriminate.
  intros Heq. apply Some_inj in Heq. subst m0.
  apply search_from_found in Hs. destruct Hs as [p Hp].
  now apply (match_at_captures Q r content p).
Qed.

Lemma method_pattern_groups (verb : string) :
  groups_consume path_group (method_pattern verb).
Proof.
  unfold method_pattern.
  cbn [Seq groups_consume consumes Plus none_of path_group Nat.eqb].
  repeat split; auto using groups_consume_Str.
Qed.

Lemma first_http_binding_facts (http_options : string) (verbs : list string) :
  forall verb path,
    first_http_binding verbs http_options = Some (verb, path) ->
    In verb (map upper verbs)
    /\ str_forall (fun c => negb (Ascii.eqb c dquote)) path = true.
Proof.
  induction verbs as [|v verbs IH]; intros verb path; cbn [first_http_binding].
  - discriminate.
  - destruct (search (method_pattern v) http_options) as [m|] eqn:Hs.
    + intros Heq. apply Some_inj in Heq.
      assert (Hv : upper v = verb) by congruence.
      assert (Hp : group_or_empty 1 (m_groups m) = path) by congruence.
      subst verb path. split; [now left|].
      exact (group_or_empty_passes path_group (m_groups m) 1
               (search_captures path_group _ _ m (method_pattern_groups v) Hs)).
    + intros H. destruct (IH _ _ H) as [Hin Hp]. split; [now right|exact Hp].
Qed.

Lemma parse_http_annotations_keeps (method_body : string) (method : ProtoMethod) :
  well_formed_method method ->
  well_formed_method (parse_http_annotations method_body method).
Proof.
  intros Hwf. unfold parse_http_annotations.
  destruct (search http_start_pattern method_body) as [m|]; [|exact Hwf].
  destruct (_ =? -1)%Z; [exact Hwf|].
  set (http_options := py_slice method_body _ _).
  assert (Hverb : well_formed_method
                    match first_http_binding http_verbs http_options with
                    | Some (verb, path) =>
                        mk_method (method_name method) (input_type method)
                          (output_type method) (method_comment method)
                          verb path (http_body method)
                    | None => method
                    end).
  { destruct (first_http_binding http_verbs http_options) as [[verb path]|] eqn:Hb;
      [|exact Hwf].
    apply first_http_binding_facts in Hb. destruct Hb as [Hin Hp].
    destruct Hwf as [H1 [H2 [H3 [H4 _]]]].
    unfold well_formed_method. cbn [method_name input_type output_type
      method_comment http_method http_path].
    repeat split; auto. }
  destruct (search body_pattern http_options) as [bm|]; [|exact Hverb].
  exact Hverb.
Qed.

Lemma parse_rpc_well_formed (service_body : string) (m : rmatch)
      (method : ProtoMethod) :
  In m (finditer rpc_start_pattern service_body) ->
  parse_rpc service_body m = Some method ->
  well_formed_method method.
Proof.
  intros Hin. unfold parse_rpc.
  destruct (_ =? -1)%Z; [discriminate|].
  intros Heq. apply Some_inj in Heq. subst method.
  apply parse_http_annotations_keeps.
  pose proof (finditer_captures rpc_group _ _ m rpc_start_pattern_groups Hin)
    as Hcs.
  unfold well_formed_method. cbn [method_name input_type output_type
    method_comment http_method http_path].
  repeat split.
  - exact (word_is_name _ (group_or_empty_passes rpc_group (m_groups m) 1 Hcs)).
  - exact (word_is_name _ (group_or_empty_passes rpc_group (m_groups m) 2 Hcs)).
  - exact (word_is_name _ (group_or_empty_passes rpc_group (m_groups m) 3 Hcs)).
  - now left.
Qed.

Lemma in_filter_some {A : Type} (a : A) (l : list (option A)) :
  In a (filter_some l) <-> In (Some a) l.
Proof.
  induction l as [|[b|] l IH]; cbn [filter_some In]; [tauto| |].
  - rewrite IH. split; intros [H|H]; auto; left; congruence.
  - rewrite IH. split; [auto|]. intros [H|H]; [discriminate|exact H].
Qed.

Lemma parse_service_well_formed (content filepath : string) (m : rmatch)
      (service : ProtoService) :
  In m (finditer service_start_pattern content) ->
  parse_service content filepath m = Some service ->
  service_name service = group_or_empty 1 (m_groups m)
  /\ str_forall is_word (service_name service) = true
  /\ service_comment service = ""
  /\ service_source_file service = Some filepath
  /\ Forall well_formed_method (service_methods service).
Proof.
  intros Hin. unfold parse_service.
  destruct (_ =? -1)%Z; [discriminate|].
  intros Heq. apply Some_inj in Heq. subst service.
  cbn [service_name service_comment service_source_file service_methods].
  repeat split.
  - exact (group_or_empty_passes name_group (m_groups m) 1
             (finditer_captures name_group _ _ m service_start_pattern_groups
                Hin)).
  - apply Forall_forall. intros method Hm.
    apply in_filter_some, in_map_iff in Hm. destruct Hm as [rm [Hrm Hrin]].
    exact (parse_rpc_well_formed _ rm method Hrin Hrm).
Qed.

Lemma services_parse_services (content filepath : string) (l : list rmatch) :
  forall (self : ProtoParser) (name : string) (service : ProtoService),
    dict_get name
      (services
         (fold_left
            (fun self start_match =>
               match parse_service content filepath start_match with
               | Some service =>
                   set_services self
                     (dict_set (service_name service) service (services self))
               | None => self
               end) l self)) = Some service ->
    dict_get name (services self) = Some service
    \/ exists m, In m l /\ parse_service content filepath m = Some service
                 /\ service_name service = name.
Proof.
  induction l as [|m l IH]; intros self name service Hget; [now left|].
  cbn [fold_left] in Hget. apply IH in Hget.
  destruct Hget as [Hget|[m' [Hin Hm']]].
  - destruct (parse_service content filepath m) as [s|] eqn:Hs; [|now left].
    cbn [set_services services] in Hget. rewrite dict_get_set in Hget.
    destruct (String.eqb name (service_name s)) eqn:E; [|now left].
    apply String.eqb_eq in E. apply Some_inj in Hget. subst s.
    right. exists m. repeat split; auto. now left.
  - right. exists m'. split; [now right|exact Hm'].
Qed.

(** X7. A service that the ingestion of a file binds to a name (the name
    was not bound to it before) carries that name, which holds no ASCII
    character other than letters, digits and underscores, the path of the
    file and no comment; each of its methods has a name, a request type and
    a response type of such characters (so never a qualified name, which
    has a dot), no comment, and either no verb and no path or one of the
    verbs GET, POST, PUT, DELETE and PATCH with a path that holds no double
    quote. *)
Theorem ingested_services_well_formed (self : ProtoParser)
        (filepath content name : string) (service : ProtoService) :
  dict_get name (services (parse_content self filepath content)) = Some service ->
  dict_get name (services self) = Some service
  \/ (service_name service = name
      /\ str_forall is_name_char name = true
      /\ service_comment service = ""
      /\ service_source_file service = Some filepath
      /\ Forall well_formed_method (service_methods service)).
Proof.
  unfold parse_content. fold (strip_comments content).
  set (p1 := match search package_pattern content with
             | Some _ => _ | None => _ end).
  set (p2 := match map _ (finditer import_pattern content) with
             | [] => _ | _ => _ end).
  assert (Hs : services p2 = services self).
  { subst p2 p1. destruct (map _ (finditer import_pattern content));
      destruct (search package_pattern content); reflexivity. }
  destruct (enums_parse_enums
              (_parse_messages (_parse_services p2 (strip_comments content) filepath)
                               (strip_comments content) filepath)
              (strip_comments content) filepath) as [_ [_ [E3 _]]].
  destruct (messages_parse_messages
              (_parse_services p2 (strip_comments content) filepath)
              (strip_comments content) filepath) as [_ [M2 _]].
  rewrite E3, M2. unfold _parse_services. intros Hget.
  apply services_parse_services in Hget.
  destruct Hget as [Hget|[m [Hin [Hm Hname]]]].
  - left. now rewrite <- Hs.
  - right.
    destruct (parse_service_well_formed _ _ m service Hin Hm)
      as [_ [Hw [Hc [Hf Hms]]]].
    rewrite <- Hname. repeat split; auto. now apply word_is_name.
Qed.

(** The theorem on the text of Scenario 1. *)
Lemma ingested_services_well_formed_witness :
  Forall well_formed_method
    [mk_method "SayHello" "HelloRequest" "HelloReply" "" "" "" ""].
Proof.
  destruct (ingested_services_well_formed new_parser "demo.proto"
              scenario1_text "Greeter"
              (mk_service "Greeter"
                 [mk_method "SayHello" "HelloRequest" "HelloReply" "" "" "" ""]
                 "" (Some "demo.proto")))
    as [Hold|[_ [_ [_ [_ H]]]]].
  - vm_compute. reflexivity.
  - discriminate Hold.
  - exact H.
Defined.

(** ** What the reference graph holds *)

Section GraphEntries.
Variable fs : filesystem.
Variable parser : ProtoParser.

Let registered (message : ProtoMessage) : Prop :=
  exists name, dict_get name (messages parser) = Some message.

Let justified (graph : reference_graph) : Prop :=
  forall entry, In entry graph -> justified_entry fs parser entry.

Lemma resolve_type_reference_registered (proto_type : string)
      (message : ProtoMessage) :
  _resolve_type_reference parser proto_type = Some message ->
  exists name, dict_get name (messages parser) = Some message.
Proof.
  unfold _resolve_type_reference.
  destruct (dict_get proto_type (messages parser)) as [m|] eqn:E.
  - intros H. exists proto_type. now rewrite E.
  - intros H. now exists (last_dot_part proto_type).
Qed.

Lemma justified_set (graph : reference_graph) (entry : string * (type_obj * string)) :
  justified graph -> justified_entry fs parser entry ->
  justified (dict_set (fst entry) (snd entry) graph).
Proof.
  intros Hg He [k v] Hin. apply in_dict_set in Hin.
  destruct Hin as [Heq|Hin]; [|now apply Hg].
  destruct entry as [k' v']. simpl in Heq. now rewrite Heq.
Qed.

(** The loop over the fields of a registered message keeps the graph
    justified, provided the recursive calls do. *)
Lemma collect_fields_justified recurse visited depth fields :
  (forall m v d g g',
      registered m -> justified g -> recurse m v d g = Some g' -> justified g') ->
  (forall field, In field fields ->
                 exists name message,
                   dict_get name (messages parser) = Some message
                   /\ In field (msg_fields message)) ->
  forall g g',
    justified g ->
    collect_fields fs parser recurse visited depth fields g = Some g' ->
    justified g'.
Proof.
  intros Hrec.
  induction fields as [|field fields IH]; intros Hfields g g' Hg Hrun.
  - simpl in Hrun. now injection Hrun as <-.
  - assert (IH' : forall g0, justified g0 ->
                   collect_fields fs parser recurse visited depth fields g0
                   = Some g' -> justified g').
    { intros g0. apply IH. intros f Hf. apply Hfields. now right. }
    destruct (Hfields field (or_introl eq_refl)) as [name [message [Hname Hin]]].
    simpl in Hrun.
    destruct (is_deprecated field) eqn:Hdep; [now apply (IH' g)|].
    destruct (_should_expand_type parser (field_type field)) eqn:Hexp;
      [|now apply (IH' g)].
    assert (Hused : used_by_field parser (field_type field))
      by (exists name, message, field; auto).
    destruct (_resolve_type_reference parser (field_type field)) as [m|] eqn:Hres.
    + destruct (external_package _ _) as [p|] eqn:Hp; [|now apply (IH' g)].
      destruct (_is_type_relevant (field_type field)) eqn:Hrel;
        [|now apply (IH' g)].
      destruct (recurse m visited (depth + 1) _) as [g1|] eqn:Hr; [|discriminate].
      assert (He : justified_entry fs parser (field_type field, (TMessage m, p)))
        by (repeat split; auto).
      apply (IH' g1); [|exact Hrun].
      eapply Hrec; [| |exact Hr].
      * now apply (resolve_type_reference_registered (field_type field)).
      * exact (justified_set g (field_type field, (TMessage m, p)) Hg He).
    + destruct (_resolve_enum_reference parser (field_type field)) as [e|] eqn:Hen;
        [|now apply (IH' g)].
      destruct (external_package _ _) as [p|] eqn:Hp; [|now apply (IH' g)].
      destruct (_is_type_relevant (field_type field)) eqn:Hrel;
        [|now apply (IH' g)].
      assert (He : justified_entry fs parser (field_type field, (TEnum e, p)))
        by (repeat split; auto).
      exact (IH' _ (justified_set g (field_type field, (TEnum e, p)) Hg He) Hrun).
Qed.

Lemma collect_from_message_justified fuel :
  forall message visited depth g g',
    registered message -> justified g ->
    collect_from_message fs parser fuel message visited depth g = Some g' ->
    justified g'.
Proof.
  induction fuel as [|fuel IH]; simpl;
    intros message visited depth g g' Hreg Hg Hrun.
  - discriminate.
  - destruct (set_mem (msg_name message) visited || (2 <? depth)).
    + now injection Hrun as <-.
    + eapply collect_fields_justified; [| |exact Hg|exact Hrun].
      * intros m v d g0 g0'. apply IH.
      * intros field Hin. destruct Hreg as [name Hname].
        now exists name, message.
Qed.

Lemma collect_from_type_justified fuel type_name g g' :
  justified g ->
  collect_from_type fs parser fuel type_name g = Some g' -> justified g'.
Proof.
  unfold collect_from_type. intros Hg.
  destruct (String.eqb type_name ""); [now intros [= <-]|].
  destruct (dict_get type_name (messages parser)) as [m|] eqn:Hm;
    [|now intros [= <-]].
  apply collect_from_message_justified; [now exists type_name|exact Hg].
Qed.

Lemma collect_from_methods_justified fuel methods :
  forall g g',
    justified g ->
    collect_from_methods fs parser fuel methods g = Some g' -> justified g'.
Proof.
  induction methods as [|method methods IH]; simpl; intros g g' Hg.
  - now intros [= <-].
  - destruct (collect_from_type _ _ fuel (input_type method) g) as [g1|] eqn:H1;
      [|discriminate].
    destruct (collect_from_type _ _ fuel (output_type method) g1) as [g2|] eqn:H2;
      [|discriminate].
    apply IH.
    apply (collect_from_type_justified _ _ _ _
             (collect_from_type_justified _ _ _ _ Hg H1) H2).
Qed.

Lemma collect_from_services_justified fuel svcs :
  forall g g',
    justified g ->
    collect_from_services fs parser fuel svcs g = Some g' -> justified g'.
Proof.
  induction svcs as [|service svcs IH]; simpl; intros g g' Hg.
  - now intros [= <-].
  - destruct (collect_from_methods _ _ fuel _ g) as [g1|] eqn:H1; [|discriminate].
    apply IH. now apply (collect_from_methods_justified _ _ _ _ Hg H1).
Qed.

(** X8. Every entry of the mapping that [_collect_referenced_types] computes
    is justified: its key is the type of a field, not deprecated, of a
    message of the registry; the key passes [_should_expand_type] and
    [_is_type_relevant], so it is no scalar type; it resolves to the stored
    message, or to the stored enum when no message has the name; and the
    stored package is the package that [_get_type_package] gives for the
    key.  No key occurs twice. *)
Theorem collect_referenced_types_entries (fuel : nat) (graph : reference_graph)
        (cache : option reference_graph) :
  _collect_referenced_types fs parser fuel None = Some (graph, cache) ->
  NoDup (dict_keys graph)
  /\ forall entry,
      In entry graph ->
      justified_entry fs parser entry
      /\ str_in (fst entry) scalar_types = false.
Proof.
  unfold _collect_referenced_types.
  destruct (collect_from_services fs parser fuel (dict_values (services parser)) [])
    as [g|] eqn:Hrun; [|discriminate].
  intros Heq. apply Some_inj in Heq.
  assert (Hg : graph = copy_graph g) by congruence. subst graph. clear Heq.
  split.
  - unfold copy_graph.
    apply (NoDup_fold_set (fun kv : string * (type_obj * string) => fst kv)
                          (fun kv => snd kv)).
    constructor.
  - intros entry Hin. apply copy_graph_in in Hin.
    assert (He : justified_entry fs parser entry).
    { apply (collect_from_services_justified
               fuel (dict_values (services parser)) [] g);
        [intros ? []|exact Hrun|exact Hin]. }
    split; [exact He|].
    destruct He as [_ [Hexp _]]. unfold _should_expand_type in Hexp.
    destruct (str_in (fst entry) scalar_types); [discriminate|reflexivity].
Qed.
End GraphEntries.

(** The theorem on the registry with the two types that refer to each
    other. *)
Lemma collect_referenced_types_entries_witness :
  _resolve_type_reference cycle_parser "A"
  = dict_get "A" (messages cycle_parser).
Proof.
  destruct (_collect_referenced_types cycle_fs cycle_parser 10 None)
    as [[graph cache]|] eqn:Hrun; [|vm_compute in Hrun; discriminate].
  destruct (collect_referenced_types_entries cycle_fs cycle_parser 10 graph
              cache Hrun) as [_ H].
  assert (Hin : exists m, In ("A", (TMessage m, "ext")) graph
                          /\ dict_get "A" (messages cycle_parser) = Some m).
  { vm_compute in Hrun. injection Hrun as <- <-.
    eexists. split; [now left|vm_compute; reflexivity]. }
  destruct Hin as [m [Hin Hm]].
  destruct (H _ Hin) as [[_ [_ [_ [_ Hres]]]] _].
  cbn [fst snd] in Hres. now rewrite Hres, Hm.
Defined.

(** ** The Types list of the navigation and of the appendix *)

Lemma ascii_compare_N (a b : ascii) :
  Ascii.compare a b = N.compare (N_of_ascii a) (N_of_ascii b).
Proof. reflexivity. Qed.

Lemma string_compare_trans_le (s1 : string) :
  forall s2 s3,
    String.compare s1 s2 <> Gt -> String.compare s2 s3 <> Gt ->
    String.compare s1 s3 <> Gt.
Proof.
  induction s1 as [|c1 s1 IH]; intros [|c2 s2] [|c3 s3]; simpl;
    try congruence.
  rewrite !ascii_compare_N.
  destruct (N.compare_spec (N_of_ascii c1) (N_of_ascii c2)) as [E12|L12|G12];
    destruct (N.compare_spec (N_of_ascii c2) (N_of_ascii c3)) as [E23|L23|G23];
    destruct (N.compare_spec (N_of_ascii c1) (N_of_ascii c3)) as [E13|L13|G13];
    try congruence; try lia; try (intros; discriminate).
  apply IH.
Qed.

Lemma string_leb_trans (s1 s2 s3 : string) :
  String.leb s1 s2 = true -> String.leb s2 s3 = true -> String.leb s1 s3 = true.
Proof.
  unfold String.leb. intros H12 H23.
  pose proof (string_compare_trans_le s1 s2 s3) as H.
  destruct (String.compare s1 s2); destruct (String.compare s2 s3);
    destruct (String.compare s1 s3); try reflexivity; try discriminate;
    exfalso; apply H; congruence.
Qed.

Section SortBy.
Context {A : Type} (le : A -> A -> bool).
Hypothesis le_total : forall x y, le x y = true \/ le y x = true.
Hypothesis le_trans : forall x y z, le x y = true -> le y z = true -> le x z = true.

Lemma insert_sorted_permutation (x : A) (l : list A) :
  Permutation (insert_sorted le x l) (x :: l).
Proof.
  induction l as [|y l IH]; simpl; [reflexivity|].
  destruct (le x y); [reflexivity|].
  rewrite IH. apply perm_swap.
Qed.

Lemma stable_sort_permutation (l : list A) : Permutation (stable_sort le l) l.
Proof.
  induction l as [|x l IH]; simpl; [reflexivity|].
  rewrite insert_sorted_permutation. now apply perm_skip.
Qed.

Lemma insert_sorted_ordered (x : A) (l : list A) :
  StronglySorted (fun a b => le a b = true) l ->
  StronglySorted (fun a b => le a b = true) (insert_sorted le x l).
Proof.
  induction l as [|y l IH]; simpl; intros Hs.
  - repeat constructor.
  - inversion Hs as [|? ? Hs' Hall]; subst.
    destruct (le x y) eqn:Hxy.
    + constructor; [exact Hs|]. constructor; [exact Hxy|].
      rewrite Forall_forall in *. intros z Hz. apply (le_trans x y z Hxy).
      now apply Hall.
    + constructor; [now apply IH|].
      rewrite Forall_forall in *. intros z Hz.
      apply (Permutation_in _ (insert_sorted_permutation x l)) in Hz.
      destruct Hz as [<-|Hz]; [|now apply Hall].
      destruct (le_total x y) as [H|H]; [congruence|exact H].
Qed.

Lemma stable_sort_ordered (l : list A) :
  StronglySorted (fun a b => le a b = true) (stable_sort le l).
Proof.
  induction l as [|x l IH]; simpl; [constructor|].
  now apply insert_sorted_ordered.
Qed.
End SortBy.

(** Two lists in the same order with the same elements are the same
    list. *)
Lemma ordered_permutation_eq {A : Type} (R : A -> A -> Prop) :
  (forall x y, R x y -> R y x -> x = y) ->
  forall l1 l2,
    StronglySorted R l1 -> StronglySorted R l2 -> Permutation l1 l2 -> l1 = l2.
Proof.
  intros Hanti. induction l1 as [|a l1 IH]; intros l2 H1 H2 Hp.
  - apply Permutation_nil in Hp. now subst.
  - destruct l2 as [|b l2].
    + apply Permutation_sym, Permutation_nil in Hp. discriminate.
    + inversion H1 as [|? ? H1' Ha]; subst.
      inversion H2 as [|? ? H2' Hb]; subst.
      assert (Hab : a = b).
      { assert (Hina : In a (b :: l2))
          by (apply (Permutation_in _ Hp); now left).
        assert (Hinb : In b (a :: l1))
          by (apply (Permutation_in _ (Permutation_sym Hp)); now left).
        destruct Hina as [->|Hina]; [reflexivity|].
        destruct Hinb as [->|Hinb]; [reflexivity|].
        rewrite Forall_forall in Ha, Hb.
        apply Hanti; [now apply Ha|now apply Hb]. }
      subst b. f_equal. apply IH; auto.
      now apply Permutation_cons_inv in Hp.
Qed.

Lemma set_mem_add (x a : string) (s : list string) :
  set_mem x (set_add a s) = String.eqb x a || set_mem x s.
Proof.
  unfold set_add. destruct (set_mem a s) eqn:Ha; [|reflexivity].
  destruct (String.eqb x a) eqn:E; [|reflexivity].
  apply String.eqb_eq in E. subst. now rewrite Ha.
Qed.

Section Dedup.
Context {A : Type}.

Let simple (entry : string * A) : string := last_dot_part (fst entry).

(** The simple names that the deduplication keeps are those of the items
    that were not seen before, each once. *)
Lemma dedup_simple_names_spec (items : list (string * A)) :
  forall seen,
    NoDup (map simple (dedup_simple_names items seen))
    /\ forall s,
        In s (map simple (dedup_simple_names items seen))
        <-> In s (map simple items) /\ set_mem s seen = false.
Proof.
  induction items as [|[k x] items IH]; intros seen; cbn [dedup_simple_names].
  - split; [constructor|]. intros s. simpl. tauto.
  - destruct (set_mem (last_dot_part k) seen) eqn:Hk.
    + destruct (IH seen) as [Hnd Hin]. split; [exact Hnd|].
      intros s. rewrite Hin. cbn [map In]. unfold simple at 2. cbn [fst].
      split; [tauto|]. intros [[<-|H] Hs]; [congruence|tauto].
    + destruct (IH (set_add (last_dot_part k) seen)) as [Hnd Hin].
      cbn [map]. unfold simple at 1 3. cbn [fst]. split.
      * constructor; [|exact Hnd]. rewrite Hin.
        intros [_ Hs]. rewrite set_mem_add, String.eqb_refl in Hs. discriminate.
      * intros s. cbn [In]. rewrite Hin, set_mem_add. cbn [map In].
        unfold simple at 2. cbn [fst].
        destruct (String.eqb s (last_dot_part k)) eqn:E.
        -- apply String.eqb_eq in E. subst s. simpl. split; [|tauto].
           intros _. split; [now left|exact Hk].
        -- apply String.eqb_neq in E. simpl. split.
           ++ intros [H|H]; [congruence|tauto].
           ++ intros [[H|H] Hs]; [congruence|tauto].
Qed.
End Dedup.

Lemma flatten_packages_set (packages : pydict (list (string * type_obj))) :
  forall package type_name obj x,
    In x (flatten_packages
            (dict_set package
               ((match dict_get package packages with
                 | Some l => l
                 | None => []
                 end) ++ [(type_name, obj)])%list packages))
    <-> In x (flatten_packages packages) \/ x = (type_name, (obj, package)).
Proof.
  unfold flatten_packages.
  induction packages as [|[p l] packages IH]; intros package type_name obj x.
  - simpl. intuition congruence.
  - cbn [dict_get dict_set]. destruct (String.eqb package p) eqn:E.
    + apply String.eqb_eq in E. subst p. cbn [flat_map fst snd].
      rewrite map_app, !in_app_iff. cbn [map In fst snd]. intuition congruence.
    + cbn [flat_map fst snd]. rewrite !in_app_iff, IH. tauto.
Qed.

(** Grouping by package and flattening again loses and adds no type. *)
Lemma flatten_group_by_package (graph : reference_graph) :
  forall x, In x (flatten_packages (group_by_package graph)) <-> In x graph.
Proof.
  unfold group_by_package.
  enough (H : forall acc x,
             In x (flatten_packages
                     (fold_left
                        (fun packages (item : string * (type_obj * string)) =>
                           let '(type_name, (obj, package)) := item in
                           let sofar :=
                             match dict_get package packages with
                             | Some l => l
                             | None => []
                             end in
                           dict_set package (sofar ++ [(type_name, obj)])%list
                                    packages)
                        graph acc))
             <-> In x (flatten_packages acc) \/ In x graph).
  { intros x. rewrite H. simpl. tauto. }
  induction graph as [|[k [o p]] graph IH]; intros acc x; cbn [fold_left].
  - simpl. tauto.
  - rewrite IH, flatten_packages_set. cbn [In]. intuition congruence.
Qed.

Lemma sorted_names {A : Type} (l : list (string * A)) :
  StronglySorted (fun a b => by_simple_name a b = true) l ->
  StronglySorted (fun a b => String.leb a b = true)
                 (map (fun entry => last_dot_part (fst entry)) l).
Proof.
  induction 1 as [|x l Hs IH Hall]; simpl; constructor; [exact IH|].
  apply Forall_map. exact Hall.
Qed.

Lemma by_simple_name_total {A : Type} (x y : string * A) :
  by_simple_name x y = true \/ by_simple_name y x = true.
Proof. apply String.leb_total. Qed.

Lemma by_simple_name_trans {A : Type} (x y z : string * A) :
  by_simple_name x y = true -> by_simple_name y z = true ->
  by_simple_name x z = true.
Proof. apply string_leb_trans. Qed.

Lemma listed_simple_names_spec {A : Type} (items : list (string * A)) :
  NoDup (listed_simple_names items)
  /\ StronglySorted (fun a b => String.leb a b = true) (listed_simple_names items)
  /\ forall s, In s (listed_simple_names items)
               <-> In s (map (fun entry => last_dot_part (fst entry)) items).
Proof.
  unfold listed_simple_names.
  destruct (dedup_simple_names_spec items []) as [Hnd Hin].
  pose proof (Permutation_map (fun entry : string * A => last_dot_part (fst entry))
                (stable_sort_permutation by_simple_name
                   (dedup_simple_names items []))) as Hperm.
  repeat split.
  - apply (Permutation_NoDup (Permutation_sym Hperm)). exact Hnd.
  - apply sorted_names, stable_sort_ordered.
    + apply by_simple_name_total.
    + apply by_simple_name_trans.
  - intros H. apply (Permutation_in _ Hperm) in H. now apply Hin in H.
  - intros H. apply (Permutation_in _ (Permutation_sym Hperm)).
    apply Hin. split; [exact H|reflexivity].
Qed.

(** X9. The Types list of the navigation and the blocks of the Types
    appendix show the same simple names in the same order, although the
    appendix regroups the types by package first: every simple name of a
    type of the graph once, in ascending order.  The navigation is made of
    one item per name of that list. *)
Theorem types_navigation_matches_appendix (graph : reference_graph) :
  listed_simple_names graph
  = listed_simple_names (flatten_packages (group_by_package graph))
  /\ NoDup (listed_simple_names graph)
  /\ StronglySorted (fun a b => String.leb a b = true)
                    (listed_simple_names graph)
  /\ (forall type_name,
         In type_name (dict_keys graph) ->
         In (last_dot_part type_name) (listed_simple_names graph))
  /\ flat_map
       (fun entry : string * (type_obj * string) =>
          let simple_name := last_dot_part (fst entry) in
          ["<li>";
           qq "<a href=`#ref-" ++ lower simple_name
           ++ qq "` class=`nav-sublink`>" ++ simple_name ++ "</a>";
           "</li>"])
       (stable_sort by_simple_name (dedup_simple_names graph []))
     = flat_map type_nav_item (listed_simple_names graph).
Proof.
  destruct (listed_simple_names_spec graph) as [Hnd [Hs Hin]].
  destruct (listed_simple_names_spec (flatten_packages (group_by_package graph)))
    as [Hnd' [Hs' Hin']].
  repeat split; auto.
  - apply (ordered_permutation_eq (fun a b => String.leb a b = true));
      [apply String.leb_antisym|exact Hs|exact Hs'|].
    apply NoDup_Permutation; [exact Hnd|exact Hnd'|].
    intros s. rewrite Hin, Hin', !in_map_iff.
    split; intros [x [Hx Hxin]]; exists x; (split; [exact Hx|]);
      now apply flatten_group_by_package.
  - intros type_name Hk. apply Hin. unfold dict_keys in Hk.
    apply in_map_iff in Hk. destruct Hk as [x [<- Hx]].
    apply in_map_iff. now exists x.
  - unfold listed_simple_names.
    induction (stable_sort by_simple_name (dedup_simple_names graph []))
      as [|e l IH]; [reflexivity|].
    cbn [flat_map map]. now rewrite IH.
Qed.

(** ** Links to types *)

Lemma type_block_heading (fs : filesystem) (parser : ProtoParser)
      (graph : reference_graph) (entry : string * (type_obj * string)) :
  In (type_heading (last_dot_part (fst entry)))
     (type_block fs parser graph entry).
Proof.
  destruct entry as [k [o p]]. unfold type_block. cbn [fst].
  right. left. reflexivity.
Qed.

(** X10. A link that [_format_type] writes never dangles: either the type
    is written as without links, or it is wrapped in a link to the anchor
    made from its simple name, and then the Types appendix of the same
    graph holds the heading with that anchor. *)
Theorem type_links_have_targets (fs : filesystem) (parser : ProtoParser)
        (graph : reference_graph) (proto_type : string) :
  _format_type fs parser graph proto_type true
  = _format_type fs parser graph proto_type false
  \/ (_format_type fs parser graph proto_type true
      = qq "<a href=`#ref-" ++ lower (last_dot_part proto_type) ++ qq "`>"
        ++ _format_type fs parser graph proto_type false ++ "</a>"
      /\ In (type_heading (last_dot_part proto_type))
            (_generate_types_section fs parser graph)).
Proof.
  unfold _format_type. cbn [andb].
  destruct (_is_external_type fs parser proto_type); [|now left].
  unfold _is_referenced_type.
  destruct (dict_mem proto_type graph) eqn:Hmem; [|now left].
  right. split; [reflexivity|].
  apply dict_mem_keys in Hmem.
  assert (Hne : graph <> []) by (intros ->; destruct Hmem).
  unfold _generate_types_section.
  destruct graph as [|e graph]; [congruence|].
  set (g := e :: graph) in *.
  apply in_or_app. right. apply in_or_app. left.
  unfold _generate_flat_types_list. apply in_flat_map.
  destruct (listed_simple_names_spec (flatten_packages (group_by_package g)))
    as [_ [_ Hin]].
  assert (Hlisted : In (last_dot_part proto_type)
                       (listed_simple_names
                          (flatten_packages (group_by_package g)))).
  { apply Hin. unfold dict_keys in Hmem. apply in_map_iff in Hmem.
    destruct Hmem as [x [<- Hx]]. apply in_map_iff. exists x.
    split; [reflexivity|]. now apply flatten_group_by_package. }
  unfold listed_simple_names in Hlisted. apply in_map_iff in Hlisted.
  destruct Hlisted as [entry [Hname Hentry]].
  exists entry. split; [exact Hentry|].
  rewrite <- Hname. apply type_block_heading.
Qed.

(** ** Example payloads: keys and nesting bound *)

Section ExampleKeys.
Variable parser : ProtoParser.

Lemma in_dict_keys_set {V : Type} (k k1 : string) (v : V) (d : pydict V) :
  In k (dict_keys (dict_set k1 v d)) <-> k = k1 \/ In k (dict_keys d).
Proof.
  rewrite dict_keys_set. destruct (dict_mem k1 d) eqn:Hm.
  - apply dict_mem_keys in Hm. split; [now right|].
    intros [->|H]; assumption.
  - rewrite in_app_iff. simpl. intuition congruence.
Qed.

Lemma nested_fields_example_more (f g : ProtoField -> option json)
      (fields : list ProtoField) :
  (forall field v, f field = Some v -> g field = Some v) ->
  forall acc r,
    nested_fields_example f fields acc = Some r ->
    nested_fields_example g fields acc = Some r.
Proof.
  intros Hfg. induction fields as [|field fields IH]; intros acc r; simpl.
  - auto.
  - destruct (negb (is_deprecated field)); [|apply IH].
    destruct (f field) as [v|] eqn:Hf; [|discriminate].
    rewrite (Hfg _ _ Hf). apply IH.
Qed.

(** A value found within some nesting bound is found within every larger
    one. *)
Lemma get_example_value_more (fuel : nat) :
  forall fuel' field v,
    fuel <= fuel' ->
    _get_example_value parser fuel field = Some v ->
    _get_example_value parser fuel' field = Some v.
Proof.
  induction fuel as [|fuel IH]; intros fuel' field v Hle; [discriminate|].
  destruct fuel' as [|fuel']; [lia|]. cbn [_get_example_value].
  destruct (type_examples _); [auto|].
  destruct (str_contains "timestamp" _); [auto|].
  destruct (endswith _ _); [auto|].
  destruct (str_contains "email" _); [auto|].
  destruct (str_contains "name" _); [auto|].
  destruct (_should_expand_type _ _); [|auto].
  unfold nested_example_with.
  destruct (_resolve_type_reference _ _) as [m|]; [|auto].
  destruct (nested_fields_example (_get_example_value parser fuel) _ [])
    as [r|] eqn:Hr; [|discriminate].
  rewrite (nested_fields_example_more _ (_get_example_value parser fuel') _
             (fun field v => IH fuel' field v ltac:(lia)) _ _ Hr).
  auto.
Qed.

Lemma example_dict_more (fuel fuel' : nat) (fields : list ProtoField) :
  fuel <= fuel' ->
  forall example r,
    example_dict parser fuel fields example = Some r ->
    example_dict parser fuel' fields example = Some r.
Proof.
  intros Hle. induction fields as [|field fields IH]; intros example r; simpl.
  - auto.
  - destruct (is_deprecated field); [apply IH|].
    destruct (_get_example_value parser fuel field) as [v|] eqn:Hv;
      [|discriminate].
    rewrite (get_example_value_more fuel fuel' field v Hle Hv). apply IH.
Qed.

Lemma example_dict_keys (fuel : nat) (fields : list ProtoField) :
  forall example r,
    example_dict parser fuel fields example = Some r ->
    NoDup (dict_keys example) ->
    NoDup (dict_keys r)
    /\ forall name,
        In name (dict_keys r)
        <-> In name (dict_keys example)
            \/ exists field, In field fields /\ is_deprecated field = false
                             /\ field_name field = name.
Proof.
  induction fields as [|field fields IH]; intros example r Hrun Hnd; simpl in Hrun.
  - apply Some_inj in Hrun. subst r. split; [exact Hnd|].
    intros name. split; [now left|]. intros [H|[f [[] _]]]. exact H.
  - destruct (is_deprecated field) eqn:Hdep.
    + destruct (IH _ _ Hrun Hnd) as [Hr Hin]. split; [exact Hr|].
      intros name. rewrite Hin. split.
      * intros [H|[f [Hf Hrest]]]; [now left|].
        right. exists f. split; [now right|exact Hrest].
      * intros [H|[f [[<-|Hf] [Hd Hn]]]]; [now left|congruence|].
        right. now exists f.
    + destruct (_get_example_value parser fuel field) as [v|]; [|discriminate].
      destruct (IH _ _ Hrun (NoDup_dict_set _ _ _ Hnd)) as [Hr Hin].
      split; [exact Hr|].
      intros name. rewrite Hin, in_dict_keys_set. split.
      * intros [[->|H]|[f [Hf Hrest]]].
        -- right. exists field. repeat split; auto. now left.
        -- now left.
        -- right. exists f. split; [now right|exact Hrest].
      * intros [H|[f [[<-|Hf] [Hd Hn]]]].
        -- left. now right.
        -- left. left. now symmetry.
        -- right. now exists f.
Qed.

(** X11. When the example of a message can be built, it is an object whose
    keys are distinct and are exactly the names of the fields of the
    message that are not deprecated, all of them and not only the first
    three; and the example does not depend on how deep the nesting was
    allowed to go, once that was deep enough. *)
Theorem example_of_message_keys (fuel : nat) (message : ProtoMessage)
        (example : json) :
  example_of_message parser fuel message = Some example ->
  (exists items,
      example = JDict items
      /\ NoDup (dict_keys items)
      /\ forall name,
          In name (dict_keys items)
          <-> exists field,
              In field (msg_fields message)
              /\ is_deprecated field = false
              /\ field_name field = name)
  /\ forall fuel', fuel <= fuel' ->
                   example_of_message parser fuel' message = Some example.
Proof.
  unfold example_of_message.
  destruct (example_dict parser fuel (msg_fields message) []) as [items|] eqn:Hrun;
    [|discriminate].
  intros Heq. apply Some_inj in Heq. subst example. split.
  - exists items.
    destruct (example_dict_keys fuel _ _ _ Hrun (NoDup_nil _)) as [Hnd Hin].
    repeat split; auto.
    + intros H. apply Hin in H. destruct H as [[]|H]. exact H.
    + intros H. apply Hin. now right.
  - intros fuel' Hle.
    now rewrite (example_dict_more fuel fuel' _ Hle _ _ Hrun).
Qed.
End ExampleKeys.

(** The theorem on the reply of Scenario 1. *)
Lemma example_of_message_keys_witness :
  example_of_message scenario1_parser 7
    (mk_message "HelloReply" [mk_field "message" "string" 1 "" "" false] ""
                (Some "demo.proto"))
  = Some (JDict [("message", JStr "example_string")]).
Proof.
  assert (H : example_of_message scenario1_parser 1
                (mk_message "HelloReply"
                   [mk_field "message" "string" 1 "" "" false] ""
                   (Some "demo.proto"))
              = Some (JDict [("message", JStr "example_string")]))
    by reflexivity.
  apply (example_of_message_keys scenario1_parser 1 _ _ H). lia.
Defined.

(** ** The two filters on the reserved name spaces *)

(** X12. On a type name of the name space [google.protobuf.] or
    [temporal.api.common.], the test [_should_expand_type] and the filter
    [_is_type_relevant] give the same answer whatever the registry holds:
    yes for the four built-in qualified names and no for every other
    name. *)
Theorem reserved_namespaces_filters_agree (parser : ProtoParser)
        (type_name : string) :
  startswith type_name "google.protobuf." = true
  \/ startswith type_name "temporal.api.common." = true ->
  _should_expand_type parser type_name = _is_type_relevant type_name
  /\ _is_type_relevant type_name
     = str_in type_name
         ["google.protobuf.Timestamp"; "google.protobuf.Duration";
          "google.protobuf.Any"; "temporal.api.common.v1.Payload"].
Proof.
  intros [H|H]; destruct (proj1 (prefix_app _ _) H) as [rest Ht];
    unfold _should_expand_type, _is_type_relevant.
  - assert (F1 : str_in type_name scalar_types = false)
      by (rewrite Ht; reflexivity).
    assert (F2 : startswith type_name "temporal.api.enums." = false)
      by (rewrite Ht; reflexivity).
    assert (F3 : startswith type_name "temporal.api.common." = false)
      by (rewrite Ht; reflexivity).
    assert (F4 : String.eqb type_name "temporal.api.common.v1.Payload" = false)
      by (rewrite Ht; reflexivity).
    rewrite F1, F2, F3, H. clear Ht.
    destruct (str_in type_name
                ["google.protobuf.Empty"; "google.protobuf.StringValue";
                 "google.protobuf.Int64Value"; "google.protobuf.BoolValue"])
      eqn:Ex.
    + cbn [str_in existsb] in Ex.
      repeat (apply orb_prop in Ex; destruct Ex as [Ex|Ex];
              [apply String.eqb_eq in Ex; subst type_name; split; reflexivity|]).
      discriminate.
    + cbn [str_in existsb]. rewrite F4, !orb_false_r. split; reflexivity.
  - assert (F1 : str_in type_name scalar_types = false)
      by (rewrite Ht; reflexivity).
    assert (F2 : startswith type_name "temporal.api.enums." = false)
      by (rewrite Ht; reflexivity).
    assert (F3 : startswith type_name "google.protobuf." = false)
      by (rewrite Ht; reflexivity).
    assert (F4 : str_in type_name
                   ["google.protobuf.Empty"; "google.protobuf.StringValue";
                    "google.protobuf.Int64Value"; "google.protobuf.BoolValue"]
                 = false)
      by (rewrite Ht; reflexivity).
    assert (F5 : str_in type_name
                   ["google.protobuf.Timestamp"; "google.protobuf.Duration";
                    "google.protobuf.Any"] = false)
      by (rewrite Ht; reflexivity).
    rewrite F1, F2, F3, F4, H. clear Ht. cbn [str_in existsb] in *.
    apply orb_false_elim in F5. destruct F5 as [G1 F5].
    apply orb_false_elim in F5. destruct F5 as [G2 F5].
    apply orb_false_elim in F5. destruct F5 as [G3 _].
    rewrite G1, G2, G3. split; reflexivity.
Qed.

(** The theorem on two names of the reserved name spaces. *)
Lemma reserved_namespaces_filters_agree_witness :
  _should_expand_type new_parser "google.protobuf.Empty" = false
  /\ _should_expand_type new_parser "temporal.api.common.v1.Payload" = true.
Proof.
  split.
  - destruct (reserved_namespaces_filters_agree new_parser
                "google.protobuf.Empty" (or_introl eq_refl)) as [H1 H2].
    now rewrite H1, H2.
  - destruct (reserved_namespaces_filters_agree new_parser
                "temporal.api.common.v1.Payload" (or_intror eq_refl)) as [H1 H2].
    now rewrite H1, H2.
Defined.

(** ** The package of a dotted name *)

Lemma join_cons_nonempty (sep p : string) (l : list string) :
  l <> [] -> join sep (p :: l) = p ++ sep ++ join sep l.
Proof.
  destruct l; [congruence|reflexivity].
Qed.

Lemma join_split_on (s : string) : join "." (split_on "." s) = s.
Proof.
  induction s as [|c s IH]; [reflexivity|].
  cbn [split_on]. pose proof (split_on_nonempty "." s) as Hne.
  destruct (Ascii.eqb c ".") eqn:E.
  - apply Ascii.eqb_eq in E. subst c.
    rewrite join_cons_nonempty by exact Hne. now rewrite IH.
  - destruct (split_on "." s) as [|h t]; [congruence|].
    destruct t as [|h' t].
    + cbn [join] in *. now rewrite IH.
    + rewrite <- IH. reflexivity.
Qed.

Lemma join_removelast (sep : string) (l : list string) :
  2 <= List.length l ->
  join sep (removelast l) ++ sep ++ last l "" = join sep l.
Proof.
  induction l as [|a l IH]; cbn [List.length]; [lia|].
  intros Hlen. destruct l as [|b l]; [cbn [List.length] in Hlen; lia|].
  destruct l as [|c l].
  - reflexivity.
  - change (removelast (a :: b :: c :: l)) with (a :: removelast (b :: c :: l)).
    change (last (a :: b :: c :: l) "") with (last (b :: c :: l) "").
    rewrite join_cons_nonempty by (destruct l; discriminate).
    rewrite join_cons_nonempty by discriminate.
    rewrite <- IH by (cbn [List.length]; lia).
    now rewrite !append_assoc.
Qed.

Lemma split_on_dotted (s : string) :
  str_contains "." s = true -> 2 <= List.length (split_on "." s).
Proof.
  induction s as [|c s IH]; [discriminate|].
  cbn [str_contains split_on]. pose proof (split_on_nonempty "." s) as Hne.
  destruct (Ascii.eqb c ".") eqn:E.
  - intros _. destruct (split_on "." s); [congruence|cbn [List.length]; lia].
  - intros H. apply orb_prop in H. destruct H as [H|H].
    + cbn [prefix] in H. destruct (ascii_dec "." c) as [<-|]; [|discriminate].
      discriminate E.
    + specialize (IH H). destruct (split_on "." s); [congruence|exact IH].
Qed.

(** X13. For a dotted type name outside the two built-in name spaces,
    [_get_type_package] gives what stands before the last dot, so the
    package, a dot and the simple name make up the name again; no file is
    consulted. *)
Theorem get_type_package_of_dotted_name (fs : filesystem) (parser : ProtoParser)
        (type_name : string) :
  str_contains "." type_name = true ->
  startswith type_name "google.protobuf." = false ->
  startswith type_name "temporal.api.common." = false ->
  exists package,
    _get_type_package fs parser type_name = Some package
    /\ package ++ "." ++ last_dot_part type_name = type_name.
Proof.
  intros Hdot Hg Ht. unfold _get_type_package. rewrite Hg, Ht, Hdot.
  eexists. split; [reflexivity|].
  unfold last_dot_part.
  rewrite join_removelast by now apply split_on_dotted.
  apply join_split_on.
Qed.

(** The theorem on a qualified name. *)
Lemma get_type_package_of_dotted_name_witness :
  exists package,
    _get_type_package no_files new_parser "temporal.api.cloud.identity.v1.User"
    = Some package
    /\ package ++ "." ++ "User" = "temporal.api.cloud.identity.v1.User".
Proof.
  apply (get_type_package_of_dotted_name no_files new_parser
           "temporal.api.cloud.identity.v1.User"); reflexivity.
Defined.

(** ** Which paths of the walk count *)

Lemma ingest_filter (fs : filesystem) (walk : list string) :
  forall self,
    ingest fs walk self
    = ingest fs
        (filter (fun filepath => endswith filepath ".proto" && is_some (fs filepath))
                walk) self.
Proof.
  assert (Hfile : forall self filepath,
             parse_file fs self filepath
             = match fs filepath with
               | Some content => Some (parse_content self filepath content)
               | None => None
               end) by reflexivity.
  unfold ingest. induction walk as [|filepath walk IH]; intros self;
    [reflexivity|].
  cbn [fold_left filter].
  destruct (endswith filepath ".proto") eqn:Hp; cbn [andb]; [|apply IH].
  rewrite Hfile.
  destruct (fs filepath) as [content|] eqn:Hf; cbn [is_some]; [|apply IH].
  cbn [fold_left]. rewrite Hp, Hfile, Hf. apply IH.
Qed.

(** X14. The registry that [parse_repository] builds depends on the walk
    only through its paths that end in [.proto] and can be read, in their
    order: a path of another kind and a file that cannot be opened change
    nothing, and the files after them are still parsed. *)
Theorem parse_repository_skips (fs : filesystem) (walk : list string)
        (self : ProtoParser) :
  parse_repository fs walk self
  = parse_repository fs
      (filter (fun filepath => endswith filepath ".proto" && is_some (fs filepath))
              walk) self
  /\ forall before after filepath,
      walk = (before ++ filepath :: after)%list ->
      endswith filepath ".proto" = false \/ fs filepath = None ->
      parse_repository fs walk self
      = parse_repository fs (before ++ after)%list self.
Proof.
  split.
  - rewrite !parse_repository_ingest. now rewrite ingest_filter.
  - intros before after filepath -> Hskip.
    rewrite !parse_repository_ingest.
    rewrite (ingest_filter fs (before ++ filepath :: after)%list),
            (ingest_filter fs (before ++ after)%list).
    rewrite !filter_app. cbn [filter].
    replace (endswith filepath ".proto" && is_some (fs filepath)) with false;
      [reflexivity|].
    destruct Hskip as [-> | ->]; [reflexivity|].
    now rewrite andb_false_r.
Qed.

(** ** Scalar types are never links *)

(** X15. With the graph that [_collect_referenced_types] computes, a scalar
    type is written the same with and without links, whatever the files
    hold: no message named like a scalar can put it into the graph. *)
Theorem scalar_types_are_not_linked (fs : filesystem) (parser : ProtoParser)
        (fuel : nat) (graph : reference_graph) (cache : option reference_graph)
        (proto_type : string) :
  _collect_referenced_types fs parser fuel None = Some (graph, cache) ->
  str_in proto_type scalar_types = true ->
  dict_mem proto_type graph = false
  /\ _format_type fs parser graph proto_type true
     = _format_type fs parser graph proto_type false.
Proof.
  intros Hrun Hscalar.
  assert (Hmem : dict_mem proto_type graph = false).
  { destruct (dict_mem proto_type graph) eqn:Hmem; [|reflexivity].
    unfold _collect_referenced_types in Hrun.
    destruct (collect_from_services fs parser fuel
                (dict_values (services parser)) []) as [g|] eqn:Hg;
      [|discriminate].
    apply Some_inj in Hrun.
    assert (Heq : graph = copy_graph g) by congruence. subst graph.
    apply dict_mem_get in Hmem. destruct Hmem as [v Hv].
    apply dict_get_in, copy_graph_in in Hv.
    assert (He : justified_entry fs parser (proto_type, v)).
    { apply (collect_from_services_justified fs parser fuel
               (dict_values (services parser)) [] g);
        [intros ? []|exact Hg|exact Hv]. }
    destruct He as [_ [Hexp _]]. cbn [fst] in Hexp.
    unfold _should_expand_type in Hexp. rewrite Hscalar in Hexp.
    discriminate. }
  split; [exact Hmem|].
  unfold _format_type, _is_referenced_type. rewrite Hmem.
  now destruct (true && _is_external_type fs parser proto_type).
Qed.

(** The theorem on the registry with the two types that refer to each
    other. *)
Lemma scalar_types_are_not_linked_witness :
  _format_type cycle_fs cycle_parser
    [("A", (TMessage (mk_message "A" [mk_field "b" "B" 1 "" "" false] ""
                                 (Some "types.proto")), "ext"));
     ("B", (TMessage (mk_message "B" [mk_field "a" "A" 1 "" "" false] ""
                                 (Some "types.proto")), "ext"))]
    "int64" true
  = "integer".
Proof.
  destruct (scalar_types_are_not_linked cycle_fs cycle_parser 10
              [("A", (TMessage (mk_message "A" [mk_field "b" "B" 1 "" "" false] ""
                                           (Some "types.proto")), "ext"));
               ("B", (TMessage (mk_message "B" [mk_field "a" "A" 1 "" "" false] ""
                                           (Some "types.proto")), "ext"))]
              (Some
                 [("A", (TMessage (mk_message "A" [mk_field "b" "B" 1 "" "" false] ""
                                              (Some "types.proto")), "ext"));
                  ("B", (TMessage (mk_message "B" [mk_field "a" "A" 1 "" "" false] ""
                                              (Some "types.proto")), "ext"))])
              "int64") as [_ H].
  - vm_compute. reflexivity.
  - reflexivity.
  - rewrite H. reflexivity.
Defined.

(** ** Resolution in the built registry *)

Lemma parse_repository_alias_consistent (fs : filesystem) (walk : list string) :
  alias_consistent (messages (parse_repository fs walk new_parser))
  /\ alias_consistent (enums (parse_repository fs walk new_parser)).
Proof.
  rewrite parse_repository_ingest.
  destruct (ingest_simple_keys fs walk new_parser) as [Hm He];
    try (split; [constructor|intros k []]).
  destruct (well_known_types_aliases _ Hm) as [Hnd Halias].
  set (seeded := _add_well_known_types (ingest fs walk new_parser)) in *.
  assert (Hee : enums seeded = enums (ingest fs walk new_parser))
    by reflexivity.
  assert (Hend : NoDup (dict_keys (enums seeded)))
    by (rewrite Hee; apply He).
  assert (Healias : alias_consistent (enums seeded))
    by (rewrite Hee; now apply simple_keys_alias).
  unfold _build_qualified_names. cbn [messages enums]. split.
  - apply (qualify_alias_facts msg_source_file (packages seeded)
             (messages seeded) Hnd Halias).
  - apply (qualify_alias_facts enum_source_file (packages seeded)
             (enums seeded) Hend Healias).
Qed.

(** X16. In the registry that [parse_repository] builds, a type reference
    resolves to what its simple name is bound to, and to nothing when the
    simple name is not bound: the package in front of the name never
    selects between two declarations.  The same holds for enums. *)
Theorem resolution_goes_by_simple_name (fs : filesystem) (walk : list string)
        (proto_type : string) :
  let parser := parse_repository fs walk new_parser in
  _resolve_type_reference parser proto_type
  = dict_get (last_dot_part proto_type) (messages parser)
  /\ _resolve_enum_reference parser proto_type
     = dict_get (last_dot_part proto_type) (enums parser).
Proof.
  intros parser.
  destruct (parse_repository_alias_consistent fs walk) as [Hm He].
  fold parser in Hm, He.
  unfold _resolve_type_reference, _resolve_enum_reference. split.
  - destruct (dict_get proto_type (messages parser)) as [m|] eqn:E;
      [|reflexivity].
    symmetry. now apply Hm.
  - destruct (dict_get proto_type (enums parser)) as [e|] eqn:E;
      [|reflexivity].
    symmetry. now apply He.
Qed.

(** ** Rows of a parameter table *)

Lemma message_row_cases (fs : filesystem) (parser : ProtoParser)
      (graph : reference_graph) (field : ProtoField) :
  (is_deprecated field = true /\ message_row fs parser graph field = [])
  \/ (is_deprecated field = false
      /\ List.length (message_row fs parser graph field) = 6
      /\ In ("<td><code>" ++ html_escape (field_name field) ++ "</code></td>")
            (message_row fs parser graph field)).
Proof.
  unfold message_row. destruct (is_deprecated field); [now left|].
  right. repeat split. right. left. reflexivity.
Qed.

Lemma message_rows_filter (fs : filesystem) (parser : ProtoParser)
      (graph : reference_graph) (fields : list ProtoField) :
  flat_map (message_row fs parser graph) fields
  = flat_map (message_row fs parser graph)
      (filter (fun field => negb (is_deprecated field)) fields)
  /\ List.length (flat_map (message_row fs parser graph) fields)
     = 6 * List.length (filter (fun field => negb (is_deprecated field)) fields)
  /\ forall field,
      In field fields -> is_deprecated field = false ->
      In ("<td><code>" ++ html_escape (field_name field) ++ "</code></td>")
         (flat_map (message_row fs parser graph) fields).
Proof.
  induction fields as [|f fields [IH1 [IH2 IH3]]]; [repeat split; intros ? []|].
  cbn [flat_map filter].
  destruct (message_row_cases fs parser graph f) as [[Hd Hrow]|[Hd [Hlen Hcell]]];
    rewrite Hd; cbn [negb].
  - rewrite Hrow. cbn [app]. repeat split; auto.
    intros field [<-|Hin] Hnd; [congruence|]. now apply IH3.
  - cbn [flat_map]. repeat split.
    + now rewrite <- IH1.
    + rewrite length_app, Hlen, IH2. cbn [List.length]. lia.
    + intros field [<-|Hin] Hnd; apply in_or_app; [now left|right].
      now apply IH3.
Qed.

(** X17. The table of a message with at least one field has a row of six
    lines for each field that is not deprecated and nothing for a
    deprecated one, so a message whose fields are all deprecated gets a
    table without rows and not the sentence of a message without fields;
    the name of every field that is not deprecated is in the table. *)
Theorem message_docs_rows (fs : filesystem) (parser : ProtoParser)
        (graph : reference_graph) (message : ProtoMessage) (is_request : bool) :
  msg_fields message <> [] ->
  let shown := filter (fun field => negb (is_deprecated field))
                      (msg_fields message) in
  _generate_html_message_docs fs parser graph message is_request
  = ["<table>"; "<thead>"; "<tr>"; "<th>Parameter</th>"; "<th>Type</th>";
     "<th>Required</th>"; "<th>Description</th>"; "</tr>"; "</thead>";
     "<tbody>"]
    +++ flat_map (message_row fs parser graph) shown
    +++ ["</tbody>"; "</table>"]
  /\ List.length (_generate_html_message_docs fs parser graph message is_request)
     = 12 + 6 * List.length shown
  /\ forall field,
      In field (msg_fields message) -> is_deprecated field = false ->
      In ("<td><code>" ++ html_escape (field_name field) ++ "</code></td>")
         (_generate_html_message_docs fs parser graph message is_request).
Proof.
  intros Hne shown. subst shown.
  destruct (message_rows_filter fs parser graph (msg_fields message))
    as [H1 [H2 H3]].
  unfold _generate_html_message_docs.
  destruct (msg_fields message) as [|f fields] eqn:Hf; [congruence|].
  repeat split.
  - now rewrite <- H1.
  - rewrite !length_app, H2. cbn [List.length]. lia.
  - intros field Hin Hnd. apply in_or_app. right. apply in_or_app. left.
    now apply H3.
Qed.

(** The theorem on a message whose only field is deprecated. *)
Lemma message_docs_rows_witness :
  _generate_html_message_docs no_files new_parser []
    (mk_message "Old" [mk_field "gone" "string" 1 "" "" true] "" None) true
  = ["<table>"; "<thead>"; "<tr>"; "<th>Parameter</th>"; "<th>Type</th>";
     "<th>Required</th>"; "<th>Description</th>"; "</tr>"; "</thead>";
     "<tbody>"; "</tbody>"; "</table>"].
Proof.
  apply (message_docs_rows no_files new_parser []
           (mk_message "Old" [mk_field "gone" "string" 1 "" "" true] "" None)
           true).
  discriminate.
Defined.

(** ** Links of the navigation to services and methods *)

Lemma parse_services_names (content filepath : string) (l : list rmatch) :
  forall self,
    (forall k s, In (k, s) (services self) -> service_name s = k) ->
    forall k s,
      In (k, s)
         (services
            (fold_left
               (fun self start_match =>
                  match parse_service content filepath start_match with
                  | Some service =>
                      set_services self
                        (dict_set (service_name service) service (services self))
                  | None => self
                  end) l self)) ->
      service_name s = k.
Proof.
  induction l as [|m l IH]; intros self Hself; [exact Hself|].
  cbn [fold_left]. apply IH.
  destruct (parse_service content filepath m) as [service|]; [|exact Hself].
  cbn [set_services services]. intros k s Hin.
  apply in_dict_set in Hin. destruct Hin as [Heq|Hin]; [|now apply Hself].
  now injection Heq as -> ->.
Qed.

Lemma parse_content_services_names (self : ProtoParser)
      (filepath content : string) :
  (forall k s, In (k, s) (services self) -> service_name s = k) ->
  forall k s,
    In (k, s) (services (parse_content self filepath content)) ->
    service_name s = k.
Proof.
  intros Hself. unfold parse_content. fold (strip_comments content).
  set (p1 := match search package_pattern content with
             | Some _ => _ | None => _ end).
  set (p2 := match map _ (finditer import_pattern content) with
             | [] => _ | _ => _ end).
  assert (Hs : services p2 = services self).
  { subst p2 p1. destruct (map _ (finditer import_pattern content));
      destruct (search package_pattern content); reflexivity. }
  destruct (enums_parse_enums
              (_parse_messages (_parse_services p2 (strip_comments content) filepath)
                               (strip_comments content) filepath)
              (strip_comments content) filepath) as [_ [_ [E3 _]]].
  destruct (messages_parse_messages
              (_parse_services p2 (strip_comments content) filepath)
              (strip_comments content) filepath) as [_ [M2 _]].
  rewrite E3, M2. unfold _parse_services.
  apply parse_services_names. now rewrite Hs.
Qed.

Lemma parse_repository_services_names (fs : filesystem) (walk : list string) :
  forall k s,
    In (k, s) (services (parse_repository fs walk new_parser)) ->
    service_name s = k.
Proof.
  rewrite parse_repository_ingest.
  change (services (_build_qualified_names
                      (_add_well_known_types (ingest fs walk new_parser))))
    with (services (ingest fs walk new_parser)).
  unfold ingest.
  assert (H : forall k s, In (k, s) (services new_parser) -> service_name s = k)
    by (intros k s []).
  revert H. generalize new_parser.
  induction walk as [|filepath walk IH]; intros self Hself; [exact Hself|].
  cbn [fold_left]. apply IH. unfold parse_file.
  destruct (endswith filepath ".proto"); [|exact Hself].
  destruct (fs filepath) as [content|]; [|exact Hself].
  now apply parse_content_services_names.
Qed.

Section Headings.
Variable fs : filesystem.
Variable parser : ProtoParser.
Variable graph : reference_graph.

Lemma methods_docs_headings (fuel : nat) (service : ProtoService)
      (methods : list ProtoMethod) :
  forall docs,
    methods_docs fs parser graph fuel methods service = Some docs ->
    forall method,
      In method methods ->
      In (qq "<h3 id=`" ++ lower (method_name method) ++ qq "`>"
          ++ html_escape (method_name method) ++ "</h3>") docs.
Proof.
  induction methods as [|m methods IH]; intros docs Hrun method Hin;
    [destruct Hin|].
  cbn [methods_docs] in Hrun.
  destruct (_generate_html_method_docs fs parser graph fuel m service)
    as [d|] eqn:Hd; [|discriminate].
  destruct (methods_docs fs parser graph fuel methods service) as [ds|] eqn:Hds;
    [|discriminate].
  apply Some_inj in Hrun. subst docs. apply in_or_app.
  destruct Hin as [<-|Hin]; [left|right; now apply (IH ds)].
  unfold _generate_html_method_docs in Hd.
  destruct (_generate_html_example parser fuel m) as [example|];
    [|discriminate].
  apply Some_inj in Hd. subst d. right. left. reflexivity.
Qed.

Lemma services_docs_headings (fuel : nat) (svcs : list ProtoService) :
  forall docs,
    services_docs fs parser graph fuel svcs = Some docs ->
    forall service,
      In service svcs ->
      In (qq "<h2 id=`" ++ lower (service_name service) ++ qq "`>"
          ++ html_escape (service_name service) ++ "</h2>") docs
      /\ forall method,
          In method (service_methods service) ->
          In (qq "<h3 id=`" ++ lower (method_name method) ++ qq "`>"
              ++ html_escape (method_name method) ++ "</h3>") docs.
Proof.
  induction svcs as [|s svcs IH]; intros docs Hrun service Hin; [destruct Hin|].
  cbn [services_docs] in Hrun.
  destruct (_generate_html_service_docs fs parser graph fuel s) as [d|] eqn:Hd;
    [|discriminate].
  destruct (services_docs fs parser graph fuel svcs) as [ds|] eqn:Hds;
    [|discriminate].
  apply Some_inj in Hrun. subst docs.
  destruct Hin as [<-|Hin].
  - unfold _generate_html_service_docs in Hd.
    destruct (methods_docs fs parser graph fuel (service_methods s) s)
      as [md|] eqn:Hmd; [|discriminate].
    apply Some_inj in Hd. subst d. split.
    + apply in_or_app. left. right. left. reflexivity.
    + intros method Hm. apply in_or_app. left.
      apply in_or_app. right. apply in_or_app. right.
      apply in_or_app. left.
      exact (methods_docs_headings fuel s (service_methods s) md Hmd method Hm).
  - destruct (IH ds eq_refl service Hin) as [H1 H2]. split.
    + apply in_or_app. now right.
    + intros method Hm. apply in_or_app. right. now apply H2.
Qed.
End Headings.

(** X18. In a document rendered from the registry that [parse_repository]
    builds, no link of the navigation to a service or to a method dangles:
    the item of a service links to the anchor made from the key of the
    service, and the body holds the heading of the service with that anchor
    and, for each of its methods, the heading with the anchor that the
    method's link points to. *)
Theorem navigation_links_have_targets (fs : filesystem) (walk : list string)
        (graph : reference_graph) (fuel : nat) (docs : list string) :
  let parser := parse_repository fs walk new_parser in
  services_docs fs parser graph fuel (dict_values (services parser)) = Some docs ->
  forall name service,
    In (name, service) (services parser) ->
    (In (qq "<a href=`#" ++ lower name ++ qq "` class=`nav-link`>" ++ name ++ "</a>")
        (sidebar_service (name, service))
     /\ In (qq "<h2 id=`" ++ lower name ++ qq "`>" ++ html_escape name ++ "</h2>")
           docs)
    /\ forall method,
        In method (service_methods service) ->
        In (qq "<a href=`#" ++ lower (method_name method)
            ++ qq "` class=`nav-sublink`>" ++ method_name method ++ "</a>")
           (sidebar_service (name, service))
        /\ In (qq "<h3 id=`" ++ lower (method_name method) ++ qq "`>"
               ++ html_escape (method_name method) ++ "</h3>") docs.
Proof.
  intros parser Hrun name service Hin.
  pose proof (parse_repository_services_names fs walk name service Hin) as Hname.
  assert (Hval : In service (dict_values (services parser))).
  { unfold dict_values. apply in_map_iff. now exists (name, service). }
  destruct (services_docs_headings fs parser graph fuel _ docs Hrun service Hval)
    as [H2 H3].
  rewrite Hname in H2. repeat split.
  - unfold sidebar_service. right. left. reflexivity.
  - exact H2.
  - unfold sidebar_service. do 3 right. cbn [app]. apply in_or_app. left.
    apply in_flat_map. exists method. split; [assumption|].
    right. left. reflexivity.
  - now apply H3.
Qed.

(** The theorem on Scenario 1. *)
Lemma navigation_links_have_targets_witness :
  exists docs,
    services_docs scenario1_fs scenario1_parser [] 5
      (dict_values (services scenario1_parser)) = Some docs
    /\ In (qq "<h3 id=`sayhello`>SayHello</h3>") docs.
Proof.
  destruct (services_docs scenario1_fs scenario1_parser [] 5
              (dict_values (services scenario1_parser))) as [docs|] eqn:Hrun;
    [|vm_compute in Hrun; discriminate].
  exists docs. split; [reflexivity|].
  destruct (navigation_links_have_targets scenario1_fs ["demo.proto"] [] 5 docs
              Hrun "Greeter"
              (mk_service "Greeter"
                 [mk_method "SayHello" "HelloRequest" "HelloReply" "" "" "" ""]
                 "" (Some "demo.proto")))
    as [_ H].
  - vm_compute. now left.
  - apply (H (mk_method "SayHello" "HelloRequest" "HelloReply" "" "" "" "")).
    now left.
Defined.
